(** * halonctl: call proxies, concurrent dispatch, result ordering,
      base64 helpers and the remote command session

    A shallow embedding of
    - [halonctl/proxies.py]  (NodeSoapProxy, NodeListSoapProxy, CommandProxy),
    - [halon/proxies.py]     (the older NodeSoapProxy on tornado),
    - [halonctl/util.py]     (async_dispatch, nodesort, from_base64, to_base64,
                              ask_confirm, hql_from_filters, textualize,
                              print_ssl_error),
    - [halonctl/__main__.py] (apply_slice, apply_filter, download_wsdl and
                              the choice of the target nodes in main),
    followed by the properties proved about them.

    Conventions.  A Python 2 [str] (a byte string) that the proxies pass
    around is a Stdlib [string]: a list of 8-bit characters.  The codecs
    work on numbers: a byte string is the list of its byte values and a
    unicode text the list of its code points ([list N]).  A call that may
    raise returns a [result]; code that also mutates an object threads the
    object's state explicitly.  What the program takes from libraries
    ([requests], [natsort], [base64], the UTF-8 codec, the [signal] module)
    is modelled from their documented behaviour in modules of their own. *)

From Stdlib Require Import ZArith NArith List String Ascii Bool Lia.
From Stdlib Require Import Permutation Sorted DecimalString DecimalPos.
Import ListNotations.

Set Implicit Arguments.

(* ===================================================================== *)
(** * Part I: the program                                                *)
(* ===================================================================== *)

(** ** Exceptions of the [requests] library

    The classes of [requests.exceptions] and their base classes.  An
    [except (A, B)] clause catches every class that has [A] or [B] among
    its ancestors. *)
Module Requests.

Inductive cls : Type :=
| RequestException
| HTTPError
| ConnectionError
| ProxyError
| SSLError
| Timeout
| ConnectTimeout
| ReadTimeout
| URLRequired
| TooManyRedirects
| MissingSchema
| InvalidSchema
| InvalidURL
| ChunkedEncodingError
| ContentDecodingError.

Definition cls_eq_dec (a b : cls) : {a = b} + {a <> b}.
Proof. decide equality. Defined.

Definition cls_eqb (a b : cls) : bool :=
  if cls_eq_dec a b then true else false.

(** The method resolution order of each class (the class itself first). *)
Definition mro (c : cls) : list cls :=
  match c with
  | RequestException => [RequestException]
  | HTTPError => [HTTPError; RequestException]
  | ConnectionError => [ConnectionError; RequestException]
  | ProxyError => [ProxyError; ConnectionError; RequestException]
  | SSLError => [SSLError; ConnectionError; RequestException]
  | Timeout => [Timeout; RequestException]
  | ConnectTimeout =>
      [ConnectTimeout; ConnectionError; Timeout; RequestException]
  | ReadTimeout => [ReadTimeout; Timeout; RequestException]
  | URLRequired => [URLRequired; RequestException]
  | TooManyRedirects => [TooManyRedirects; RequestException]
  | MissingSchema => [MissingSchema; RequestException]
  | InvalidSchema => [InvalidSchema; RequestException]
  | InvalidURL => [InvalidURL; RequestException]
  | ChunkedEncodingError => [ChunkedEncodingError; RequestException]
  | ContentDecodingError => [ContentDecodingError; RequestException]
  end.

Definition issubclass (c base : cls) : bool :=
  existsb (cls_eqb base) (mro c).

(** The transport-level failures the specification lists, and the class
    [requests.post] raises for each of them. *)
Inductive transport_failure : Type :=
| ConnectionRefused
| ConnectTimedOut
| ReadTimedOut
| TLSFailure
| DNSFailure.

Definition raised_for (f : transport_failure) : cls :=
  match f with
  | ConnectionRefused => ConnectionError
  | ConnectTimedOut => ConnectTimeout
  | ReadTimedOut => ReadTimeout
  | TLSFailure => SSLError
  | DNSFailure => ConnectionError
  end.

End Requests.

(** ** Python exceptions and results *)

Inductive exn : Type :=
| RequestsExc (c : Requests.cls)
| AttributeError (attr : string)
| ValueError
| TypeError
| UnicodeDecodeError
| Base64Error                 (* binascii.Error; TypeError under Python 2 *)
| StopIteration
| OtherExc (what : string).

Inductive result (A : Type) : Type :=
| Ok (a : A)
| Raise (e : exn).

Arguments Ok {A} a.
Arguments Raise {A} e.

Definition bind {A B : Type} (m : result A) (k : A -> result B) : result B :=
  match m with
  | Ok a => k a
  | Raise e => Raise e
  end.

Declare Scope py_scope.
Delimit Scope py_scope with py.
Notation "x <- m ;; k" := (bind m (fun x => k))
  (at level 61, m at next level, right associativity) : py_scope.
Notation "' pat <- m ;; k" := (bind m (fun x => match x with pat => k end))
  (at level 61, pat pattern, m at next level, right associativity) : py_scope.

(** [try: body  except classes: handler] for a handler that ignores the
    exception object. *)
Definition try_except {A : Type} (body : result A)
    (catches : exn -> bool) (handler : result A) : result A :=
  match body with
  | Ok a => Ok a
  | Raise e => if catches e then handler else Raise e
  end.

(** ** Values that cross the SOAP boundary

    A decoded response payload: Python's [None], a plain string, or an object
    with an [item] attribute that holds a list of strings. *)
Inductive soap_value : Type :=
| SNone
| SStr (s : string)
| SItems (item : list string).

(** The Call Result [(status, payload)]. *)
Definition call_result : Type := (Z * soap_value)%type.

(** ** Nodes

    [node_id] stands for the identity of the Python object: two distinct
    [Node] objects differ in it, so that structural equality below is the
    identity comparison Python uses for dictionary keys. *)
Record Cluster : Type := { cluster_name : string }.

Record Node : Type := {
  node_id : nat;
  name : string;
  cluster : Cluster
}.

Definition Cluster_eq_dec (a b : Cluster) : {a = b} + {a <> b}.
Proof. decide equality. apply string_dec. Defined.

Definition Node_eq_dec (a b : Node) : {a = b} + {a <> b}.
Proof.
  decide equality.
  - apply Cluster_eq_dec.
  - apply string_dec.
  - apply Nat.eq_dec.
Defined.

Definition node_eqb (a b : Node) : bool :=
  if Node_eq_dec a b then true else false.

(** ** Python dictionaries

    A dictionary is the list of its items in iteration order; [dict_set]
    is [d[k] = v]: it replaces the value of an existing key in place and
    appends a new key. *)
Section Dict.
Variables K V : Type.
Variable eqb : K -> K -> bool.

Definition dict : Type := list (K * V).

Fixpoint dict_set (k : K) (v : V) (d : dict) : dict :=
  match d with
  | [] => [(k, v)]
  | (k', v') :: t =>
      if eqb k k' then (k', v) :: t else (k', v') :: dict_set k v t
  end.

Fixpoint dict_get (k : K) (d : dict) : option V :=
  match d with
  | [] => None
  | (k', v') :: t => if eqb k k' then Some v' else dict_get k t
  end.

(** [dict(items)], [OrderedDict(items)] and a dict comprehension: the items
    are stored one after the other. *)
Definition dict_of_items (items : list (K * V)) : dict :=
  fold_left (fun d kv => dict_set (fst kv) (snd kv) d) items [].
End Dict.

(** ** halonctl/proxies.py: NodeSoapProxy *)
Module NodeSoapProxy.
Section Executor.
(** What [models.py] and the network provide: the request context built
    for an operation, the HTTP round trip, and the decoding of a reply. *)
Variable Context_ : Type.
Variable Args : Type.
Variable make_request : Node -> string -> Args -> result Context_.

Record Response : Type := {
  text : string;
  status_code : Z;
  reason : string
}.

Variable requests_post : Node -> Context_ -> result Response.
Variable process_reply : Context_ -> string -> Z -> string -> result call_result.

(** [except (requests.exceptions.ConnectionError,
             requests.exceptions.Timeout)] *)
Definition catches_transport (e : exn) : bool :=
  match e with
  | RequestsExc c =>
      Requests.issubclass c Requests.ConnectionError
      || Requests.issubclass c Requests.Timeout
  | _ => false
  end.

(** The executor [__getattr__] returns for the operation [name]. *)
Definition _soap_proxy_executor (node : Node) (name : string) (args : Args)
    : result call_result :=
  (context <- make_request node name args ;;
   try_except
     (r <- requests_post node context ;;
      process_reply context (text r) (status_code r) (reason r))
     catches_transport
     (Ok (0%Z, SNone)))%py.
End Executor.
End NodeSoapProxy.

(** ** halon/proxies.py: the older NodeSoapProxy

    [HTTPError] comes from the star import of [tornado.httpclient].  No
    import of the module binds the name [socket]: when [fetch] raises
    something that the clause for [HTTPError] does not catch, Python
    evaluates [socket.error] to match the next clause and that raises
    [NameError], which leaves the executor after the [finally] block. *)
Module HalonNodeSoapProxy.
Section Executor.
Variable Context_ : Type.
Variable Args : Type.
(** [make_request] may return a falsy value ([None]) instead of a
    context. *)
Variable make_request : Node -> string -> Args -> result (option Context_).

(** The outcome of [http_client.fetch(request)]. *)
Inductive fetch_outcome : Type :=
| Fetched (body : string) (code : Z) (reason : string)
| RaisedHTTPError (code : Z) (message : string) (response_body : option string)
| RaisedSocketError (message : string)
| RaisedOther (e : exn).

Variable fetch : Node -> Context_ -> fetch_outcome.
Variable process_reply :
  Context_ -> option string -> Z -> string -> result call_result.

Definition _soap_proxy_executor (node : Node) (name : string) (args : Args)
    : result call_result :=
  (context <- make_request node name args ;;
   match context with
   | None => Ok (0%Z, SStr "Couldn't connect")
   | Some context =>
       match fetch node context with
       | Fetched body code reason =>
           process_reply context (Some body) code reason
       | RaisedHTTPError code message response_body =>
           process_reply context response_body code message
       | RaisedSocketError message => Raise (OtherExc "NameError")
       | RaisedOther e => Raise (OtherExc "NameError")
       end
   end)%py.
End Executor.
End HalonNodeSoapProxy.

(** ** The [natsort] library: [natsorted(seq, key=...)]

    A string is cut at its runs of decimal digits; a run of digits becomes
    the number it denotes and an empty string is put in front of a leading
    number, so that a key alternates strings and numbers:
    ["node10"] gives [('node', 10)], ["10a"] gives [('', 10, 'a')].  When
    [key] returns a list of strings the sort key is the tuple of the keys of
    its elements.  Keys are compared as Python compares tuples.  This is
    the default algorithm of natsort since version 4 (unsigned integers). *)
Module Natsort.

Inductive chunk : Type :=
| CStr (s : string)
| CNum (n : N).

Definition digit_of (c : ascii) : option N :=
  let n := N_of_ascii c in
  if ((48 <=? n) && (n <=? 57))%N then Some (n - 48)%N else None.

(** The run being read: characters that are not digits, or a number. *)
Inductive run : Type :=
| InStr (acc : string)
| InNum (n : N).

Definition close (r : run) : list chunk :=
  match r with
  | InStr EmptyString => []
  | InStr acc => [CStr acc]
  | InNum n => [CNum n]
  end.

Fixpoint scan (s : string) (r : run) : list chunk :=
  match s with
  | EmptyString => close r
  | String c t =>
      match digit_of c, r with
      | Some d, InNum n => scan t (InNum (10 * n + d)%N)
      | Some d, InStr acc => CStr acc :: scan t (InNum d)
      | None, InStr acc => scan t (InStr (acc ++ String c EmptyString))
      | None, InNum n => CNum n :: scan t (InStr (String c EmptyString))
      end
  end.

Definition natsort_key (s : string) : list chunk := scan s (InStr EmptyString).

(** Comparison of two elements of a key.  Strings compare character by
    character, numbers by value; a number is smaller than a string (the
    Python 2 rule, which the alternation of a key never needs). *)
Definition chunk_compare (a b : chunk) : comparison :=
  match a, b with
  | CStr s, CStr t => String.compare s t
  | CNum m, CNum n => N.compare m n
  | CNum _, CStr _ => Lt
  | CStr _, CNum _ => Gt
  end.

(** Comparison of tuples: the first difference decides, a proper prefix is
    smaller. *)
Fixpoint lex_compare (A : Type) (cmp : A -> A -> comparison)
    (a b : list A) : comparison :=
  match a, b with
  | [], [] => Eq
  | [], _ :: _ => Lt
  | _ :: _, [] => Gt
  | x :: a', y :: b' =>
      match cmp x y with
      | Eq => lex_compare cmp a' b'
      | c => c
      end
  end.

Definition key_compare (a b : list (list chunk)) : comparison :=
  lex_compare (lex_compare chunk_compare) a b.

Definition key_lt (a b : list (list chunk)) : bool :=
  match key_compare a b with
  | Lt => true
  | _ => false
  end.

(** A stable sort by key, as [sorted] is: [x], which stood before the
    elements of [l], stays before those it does not exceed. *)
Section Sort.
Variable A : Type.
Variable key : A -> list (list chunk).

Fixpoint insert (x : A) (l : list A) : list A :=
  match l with
  | [] => [x]
  | y :: t => if key_lt (key y) (key x) then y :: insert x t else x :: y :: t
  end.

Definition sort (l : list A) : list A := fold_right insert [] l.
End Sort.

Definition natsorted (A : Type) (key : A -> list string) (l : list A) : list A :=
  sort (fun x => map natsort_key (key x)) l.

End Natsort.

(** ** Byte strings as numbers

    The codecs below work on lists of byte values; a [string] is turned
    into the list of its character codes and back. *)
Definition bytes : Type := list N.

Definition bytes_of_string (s : string) : bytes :=
  map N_of_ascii (list_ascii_of_string s).

Definition string_of_bytes (b : bytes) : string :=
  string_of_list_ascii (map ascii_of_N b).

(** ** The [base64] module: [b64encode] and [b64decode]

    [b64encode] is [binascii.b2a_base64] without the final newline;
    [b64decode] (without [validate]) is [binascii.a2b_base64], which skips
    every character outside the alphabet and fails when the data it has
    read does not end on a byte boundary. *)
Module Base64.

Definition alphabet : string :=
  "ABCDEFGHIJKLMNOPQRSTUVWXYZabcdefghijklmnopqrstuvwxyz0123456789+/".

Definition PAD : N := 61.   (* '=' *)

(** [table_b2a_base64[n]] *)
Definition table_b2a (n : N) : N :=
  nth (N.to_nat n) (bytes_of_string alphabet) 0%N.

Fixpoint index_of (c : N) (l : list N) (i : N) : option N :=
  match l with
  | [] => None
  | x :: t => if (x =? c)%N then Some i else index_of c t (i + 1)%N
  end.

(** [table_a2b_base64[c]] for a character of the alphabet; [None] stands
    for the table's -1. *)
Definition table_a2b (c : N) : option N :=
  index_of c (bytes_of_string alphabet) 0%N.

(** The four 6-bit groups of three bytes [a], [b], [c]. *)
Definition sextet0 (a : N) : N := N.shiftr a 2.
Definition sextet1 (a b : N) : N :=
  N.lor (N.shiftl (N.land a 3) 4) (N.shiftr b 4).
Definition sextet2 (b c : N) : N :=
  N.lor (N.shiftl (N.land b 15) 2) (N.shiftr c 6).
Definition sextet3 (c : N) : N := N.land c 63.

(** Three bytes give four characters; one or two bytes left at the end are
    filled up with zero bits and the group is completed with pad
    characters. *)
Fixpoint b2a_base64 (s : bytes) : bytes :=
  match s with
  | [] => []
  | [a] =>
      [table_b2a (sextet0 a); table_b2a (sextet1 a 0); PAD; PAD]
  | [a; b] =>
      [table_b2a (sextet0 a); table_b2a (sextet1 a b);
       table_b2a (sextet2 b 0); PAD]
  | a :: b :: c :: rest =>
      table_b2a (sextet0 a)
      :: table_b2a (sextet1 a b)
      :: table_b2a (sextet2 b c)
      :: table_b2a (sextet3 c)
      :: b2a_base64 rest
  end.

Definition b64encode (s : bytes) : bytes := b2a_base64 s.

(** [binascii_find_valid(ascii_data, ascii_len, 1)], called on a pad
    character: the next character after it that the table accepts (the pad
    character itself is one of them). *)
Fixpoint find_valid (s : bytes) : option N :=
  match s with
  | [] => None
  | c :: t =>
      if (c <=? 127)%N && ((c =? PAD)%N || match table_a2b c with
                                           | Some _ => true
                                           | None => false
                                           end)
      then Some c
      else find_valid t
  end.

(** The decoding loop: the output and the number of bits left over. *)
Fixpoint a2b_loop (s : bytes) (quad_pos leftchar leftbits : N) : bytes * N :=
  match s with
  | [] => ([], leftbits)
  | this_ch :: rest =>
      if (127 <? this_ch)%N || (this_ch =? 13)%N || (this_ch =? 10)%N
         || (this_ch =? 32)%N
      then a2b_loop rest quad_pos leftchar leftbits
      else if (this_ch =? PAD)%N then
        if (quad_pos <? 2)%N
           || ((quad_pos =? 2)%N
               && negb match find_valid rest with
                       | Some c => (c =? PAD)%N
                       | None => false
                       end)
        then a2b_loop rest quad_pos leftchar leftbits
        else ([], 0%N)
      else
        match table_a2b this_ch with
        | None => a2b_loop rest quad_pos leftchar leftbits
        | Some v =>
            let quad_pos := N.land (quad_pos + 1) 3 in
            let leftchar := N.lor (N.shiftl leftchar 6) v in
            let leftbits := (leftbits + 6)%N in
            if (8 <=? leftbits)%N then
              let leftbits := (leftbits - 8)%N in
              let '(out, final) :=
                a2b_loop rest quad_pos
                  (N.land leftchar (N.shiftl 1 leftbits - 1)) leftbits in
              (N.land (N.shiftr leftchar leftbits) 255 :: out, final)
            else a2b_loop rest quad_pos leftchar leftbits
        end
  end.

Definition a2b_base64 (s : bytes) : result bytes :=
  let '(out, leftbits) := a2b_loop s 0 0 0 in
  if (leftbits =? 0)%N then Ok out else Raise Base64Error.

Definition b64decode (s : bytes) : result bytes := a2b_base64 s.

(** The same on Python 2 strings. *)
Definition b64encode_str (s : string) : string :=
  string_of_bytes (b64encode (bytes_of_string s)).

Definition b64decode_str (s : string) : result string :=
  (r <- b64decode (bytes_of_string s) ;; Ok (string_of_bytes r))%py.

End Base64.

(** ** The UTF-8 codec with [errors='replace'] *)
Module Utf8.

Definition is_surrogate (cp : N) : bool :=
  ((55296 <=? cp) && (cp <=? 57343))%N.    (* U+D800 .. U+DFFF *)

(** A code point a unicode string can hold and UTF-8 can encode. *)
Definition is_scalar (cp : N) : bool :=
  ((cp <? 1114112) && negb (is_surrogate cp))%N.

Definition REPLACEMENT : N := 65533.        (* U+FFFD *)

(** One code point; a surrogate cannot be encoded and becomes ['?']. *)
Definition encode_cp (cp : N) : bytes :=
  if (cp <? 128)%N then [cp]
  else if (cp <? 2048)%N then
    [N.lor 192 (N.shiftr cp 6); N.lor 128 (N.land cp 63)]
  else if (cp <? 65536)%N then
    if is_surrogate cp then [63%N]
    else [N.lor 224 (N.shiftr cp 12);
          N.lor 128 (N.land (N.shiftr cp 6) 63);
          N.lor 128 (N.land cp 63)]
  else
    [N.lor 240 (N.shiftr cp 18);
     N.lor 128 (N.land (N.shiftr cp 12) 63);
     N.lor 128 (N.land (N.shiftr cp 6) 63);
     N.lor 128 (N.land cp 63)].

(** [text.encode('utf8', 'replace')] *)
Definition encode (text : list N) : bytes := flat_map encode_cp text.

Definition is_cont (b : N) : bool := ((128 <=? b) && (b <=? 191))%N.

(** The second byte of a three-byte sequence: no overlong form and no
    surrogate. *)
Definition second_of_3 (b0 b1 : N) : bool :=
  if (b0 =? 224)%N then ((160 <=? b1) && (b1 <=? 191))%N
  else if (b0 =? 237)%N then ((128 <=? b1) && (b1 <=? 159))%N
  else is_cont b1.

(** The second byte of a four-byte sequence: no overlong form and nothing
    above U+10FFFF. *)
Definition second_of_4 (b0 b1 : N) : bool :=
  if (b0 =? 240)%N then ((144 <=? b1) && (b1 <=? 191))%N
  else if (b0 =? 244)%N then ((128 <=? b1) && (b1 <=? 143))%N
  else is_cont b1.

Definition low6 (b : N) : N := N.land b 63.

(** [data.decode('utf-8', 'replace')]: an ill-formed sequence gives U+FFFD
    and decoding goes on at the byte that broke it. *)
Fixpoint decode (s : bytes) : list N :=
  match s with
  | [] => []
  | b0 :: t0 =>
      if (b0 <? 128)%N then b0 :: decode t0
      else if (b0 <? 194)%N then REPLACEMENT :: decode t0
      else if (b0 <? 224)%N then
        match t0 with
        | b1 :: t1 =>
            if is_cont b1
            then N.lor (N.shiftl (N.land b0 31) 6) (low6 b1) :: decode t1
            else REPLACEMENT :: decode t0
        | [] => [REPLACEMENT]
        end
      else if (b0 <? 240)%N then
        match t0 with
        | b1 :: t1 =>
            if second_of_3 b0 b1 then
              match t1 with
              | b2 :: t2 =>
                  if is_cont b2
                  then N.lor (N.shiftl (N.land b0 15) 12)
                         (N.lor (N.shiftl (low6 b1) 6) (low6 b2))
                       :: decode t2
                  else REPLACEMENT :: decode t1
              | [] => [REPLACEMENT]
              end
            else REPLACEMENT :: decode t0
        | [] => [REPLACEMENT]
        end
      else if (b0 <? 245)%N then
        match t0 with
        | b1 :: t1 =>
            if second_of_4 b0 b1 then
              match t1 with
              | b2 :: t2 =>
                  if is_cont b2 then
                    match t2 with
                    | b3 :: t3 =>
                        if is_cont b3
                        then N.lor (N.shiftl (N.land b0 7) 18)
                               (N.lor (N.shiftl (low6 b1) 12)
                                  (N.lor (N.shiftl (low6 b2) 6) (low6 b3)))
                             :: decode t3
                        else REPLACEMENT :: decode t2
                    | [] => [REPLACEMENT]
                    end
                  else REPLACEMENT :: decode t1
              | [] => [REPLACEMENT]
              end
            else REPLACEMENT :: decode t0
        | [] => [REPLACEMENT]
        end
      else REPLACEMENT :: decode t0
  end.

End Utf8.

(** ** halonctl/util.py *)
Module Util.

(** *** async_dispatch *)

(** A task tuple [(callable,)], [(callable, args)] or
    [(callable, args, kwargs)]. *)
Section Dispatch.
Variables K Arg V : Type.
Variable k_eqb : K -> K -> bool.

Definition callable : Type := list Arg -> list (string * Arg) -> result V.

Inductive task : Type :=
| Task1 (f : callable)
| Task2 (f : callable) (args : list Arg)
| Task3 (f : callable) (args : list Arg) (kwargs : list (string * Arg)).

(** A future of the thread pool: its identity and, once the job has run,
    the value the job returned or the exception it raised. *)
Record Future : Type := {
  future_id : nat;
  outcome : result V
}.

(** The call a worker makes: [v[0]] applied to the positional arguments
    [v[1] if len(v) >= 2 else []] and the keyword arguments
    [v[2] if len(v) >= 3 else {}]. *)
Definition run (v : task) : result V :=
  match v with
  | Task1 f => f [] []
  | Task2 f args => f args []
  | Task3 f args kwargs => f args kwargs
  end.

(** [executor.submit(...)]: the job runs in the pool and its outcome is
    stored in the future. *)
Definition submit (id : nat) (v : task) : Future :=
  {| future_id := id; outcome := run v |}.

(** The dictionary [futures]: one fresh future per item of [tasks]. *)
Fixpoint submit_all (id : nat) (tasks : list (K * task)) : list (Future * K) :=
  match tasks with
  | [] => []
  | (k, v) :: rest => (submit id v, k) :: submit_all (S id) rest
  end.

Definition future_eqb (a b : Future) : bool :=
  Nat.eqb (future_id a) (future_id b).

(** The order in which Python iterates the set [done]. *)
Variable set_iter : list Future -> list Future.

(** [{ futures[future]: future.result() for future in done }]:
    [future.result()] returns the job's value or raises its exception. *)
Fixpoint collect (futures : list (Future * K)) (done : list Future)
    (acc : dict K V) : result (dict K V) :=
  match done with
  | [] => Ok acc
  | future :: rest =>
      match dict_get future_eqb future futures with
      | None => Raise (OtherExc "KeyError")
      | Some k =>
          match outcome future with
          | Ok v => collect futures rest (dict_set k_eqb k v acc)
          | Raise e => Raise e
          end
      end
  end.

(** [wait(futures)] returns when every future has completed: [done] holds
    all of them and [not_done] is empty. *)
Definition async_dispatch (tasks : dict K task) : result (dict K V) :=
  let futures := submit_all 0 tasks in
  let done := set_iter (map fst futures) in
  collect futures done [].
End Dispatch.

(** [OrderedDict(natsorted(list(nodes.items()),
                           key=lambda t: [t[0].cluster.name, t[0].name]))] *)
Definition nodesort (V : Type) (nodes : dict Node V) : dict Node V :=
  dict_of_items node_eqb
    (Natsort.natsorted
       (fun t : Node * V => [cluster_name (cluster (fst t)); name (fst t)])
       nodes).

(** *** from_base64 and to_base64 *)

(** What a caller can pass: [None], a unicode text, or a byte string. *)
Inductive pyarg : Type :=
| PyNone
| PyText (text : list N)
| PyBytes (b : bytes).

Inductive pyver : Type := Python2 | Python3.

(** [not s] *)
Definition falsy (s : pyarg) : bool :=
  match s with
  | PyNone => true
  | PyText [] => true
  | PyBytes [] => true
  | _ => false
  end.

(** [s.encode('utf8', 'replace')].  A Python 3 [bytes] has no [encode]; a
    Python 2 byte string is first decoded as ASCII, strictly. *)
Definition encode_utf8 (v : pyver) (s : pyarg) : result bytes :=
  match s with
  | PyNone => Raise (AttributeError "encode")
  | PyText text => Ok (Utf8.encode text)
  | PyBytes b =>
      match v with
      | Python3 => Raise (AttributeError "encode")
      | Python2 =>
          if forallb (fun c => (c <? 128)%N) b then Ok b
          else Raise UnicodeDecodeError
      end
  end.

Definition from_base64 (v : pyver) (s : pyarg) : result (list N) :=
  if falsy s then Ok []
  else (e <- encode_utf8 v s ;;
        d <- Base64.b64decode e ;;
        Ok (Utf8.decode d))%py.

Definition to_base64 (v : pyver) (s : pyarg) : result (list N) :=
  if falsy s then Ok []
  else (e <- encode_utf8 v s ;;
        Ok (Utf8.decode (Base64.b64encode e)))%py.

End Util.

(** ** halonctl/proxies.py: NodeListSoapProxy *)
Module NodeListSoapProxy.
Section Executor.
Variable Arg : Type.
(** [getattr(node.service, name)]: the executor of the node's proxy. *)
Variable service :
  Node -> string -> list Arg -> list (string * Arg) -> result call_result.
Variable set_iter : list (Util.Future call_result) -> list (Util.Future call_result).

Definition _soap_proxy_executor (nodelist : list Node) (name : string)
    (args : list Arg) (kwargs : list (string * Arg))
    : result (dict Node call_result) :=
  (r <- Util.async_dispatch node_eqb set_iter
         (dict_of_items node_eqb
            (map (fun node => (node, Util.Task3 (service node name) args kwargs))
                 nodelist)) ;;
   Ok (Util.nodesort r))%py.
End Executor.
End NodeListSoapProxy.


(** ** What [CommandProxy.signal] takes from the Python runtime *)
Module PySignal.

Definition is_space (c : ascii) : bool :=
  let n := N_of_ascii c in
  ((n =? 32) || ((9 <=? n) && (n <=? 13)))%N.

Fixpoint lstrip (l : list ascii) : list ascii :=
  match l with
  | c :: t => if is_space c then lstrip t else l
  | [] => []
  end.

Definition strip (l : list ascii) : list ascii :=
  rev (lstrip (rev (lstrip l))).

Fixpoint digits_value (l : list ascii) (acc : Z) : option Z :=
  match l with
  | [] => Some acc
  | c :: t =>
      match Natsort.digit_of c with
      | Some d => digits_value t (10 * acc + Z.of_N d)%Z
      | None => None
      end
  end.

(** [int(s)] for a string: blanks around an optional sign and at least one
    decimal digit; [None] stands for [ValueError]. *)
Definition int_of_str (s : string) : option Z :=
  match strip (list_ascii_of_string s) with
  | [] => None
  | c :: t =>
      if Ascii.eqb c "+"%char then
        match t with [] => None | _ => digits_value t 0 end
      else if Ascii.eqb c "-"%char then
        match t with [] => None | _ => option_map Z.opp (digits_value t 0) end
      else digits_value (c :: t) 0
  end.

(** [str.upper()] *)
Definition upper_ascii (c : ascii) : ascii :=
  let n := N_of_ascii c in
  if ((97 <=? n) && (n <=? 122))%N then ascii_of_N (n - 32) else c.

Fixpoint upper (s : string) : string :=
  match s with
  | EmptyString => EmptyString
  | String c t => String (upper_ascii c) (upper t)
  end.

(** The attributes of the [signal] module with an upper-case name, as
    Python 2.7 has them on Linux: the signals, [NSIG], the two handler
    constants and the interval timers; every one of them is an integer. *)
Definition signal_module : list (string * Z) :=
  [("SIGHUP"%string, 1%Z); ("SIGINT"%string, 2%Z); ("SIGQUIT"%string, 3%Z);
   ("SIGILL"%string, 4%Z); ("SIGTRAP"%string, 5%Z); ("SIGABRT"%string, 6%Z);
   ("SIGIOT"%string, 6%Z); ("SIGBUS"%string, 7%Z); ("SIGFPE"%string, 8%Z);
   ("SIGKILL"%string, 9%Z); ("SIGUSR1"%string, 10%Z); ("SIGSEGV"%string, 11%Z);
   ("SIGUSR2"%string, 12%Z); ("SIGPIPE"%string, 13%Z); ("SIGALRM"%string, 14%Z);
   ("SIGTERM"%string, 15%Z); ("SIGCHLD"%string, 17%Z);
   ("SIGCLD"%string, 17%Z); ("SIGCONT"%string, 18%Z); ("SIGSTOP"%string, 19%Z);
   ("SIGTSTP"%string, 20%Z); ("SIGTTIN"%string, 21%Z); ("SIGTTOU"%string, 22%Z);
   ("SIGURG"%string, 23%Z); ("SIGXCPU"%string, 24%Z); ("SIGXFSZ"%string, 25%Z);
   ("SIGVTALRM"%string, 26%Z); ("SIGPROF"%string, 27%Z); ("SIGWINCH"%string, 28%Z);
   ("SIGIO"%string, 29%Z); ("SIGPOLL"%string, 29%Z); ("SIGPWR"%string, 30%Z);
   ("SIGSYS"%string, 31%Z); ("SIGRTMIN"%string, 34%Z); ("SIGRTMAX"%string, 64%Z);
   ("NSIG"%string, 65%Z); ("SIG_DFL"%string, 0%Z); ("SIG_IGN"%string, 1%Z);
   ("ITIMER_REAL"%string, 0%Z); ("ITIMER_VIRTUAL"%string, 1%Z); ("ITIMER_PROF"%string, 2%Z)].

(** [getattr(signal, attr)] *)
Definition getattr_signal (attr : string) : result Z :=
  match dict_get String.eqb attr signal_module with
  | Some n => Ok n
  | None => Raise (AttributeError attr)
  end.

End PySignal.

(** ** halonctl/proxies.py: CommandProxy *)
Module Command.

(** The calls the session makes on [node.service]. *)
Inductive rpc : Type :=
| commandPoll (commandid : string)
| commandPush (commandid : string) (data : string)
| commandSignal (commandid : string) (signal : Z)
| commandStop (commandid : string).

Record CommandProxy : Type := {
  cid : string;
  done : bool
}.

(** The session object together with the calls sent so far. *)
Record state : Type := {
  self : CommandProxy;
  sent : list rpc
}.

(** The argument of [signal]: a number or a string. *)
Inductive sigid : Type :=
| SigInt (n : Z)
| SigStr (s : string).

Definition set_done (st : state) : state :=
  {| self := {| cid := cid (self st); done := true |}; sent := sent st |}.

(** [code != 200] *)
Definition mark (code : Z) (st : state) : state :=
  if (code =? 200)%Z then st else set_done st.

(** [''.join([b64decode(item) for item in res.item])] *)
Fixpoint join_decoded (item : list string) : result string :=
  match item with
  | [] => Ok EmptyString
  | x :: t =>
      (d <- Base64.b64decode_str x ;;
       r <- join_decoded t ;;
       Ok (d ++ r)%string)%py
  end.

(** [... if hasattr(res, 'item') else res] *)
Definition decode_payload (res : soap_value) : result soap_value :=
  match res with
  | SItems item => (s <- join_decoded item ;; Ok (SStr s))%py
  | _ => Ok res
  end.

Section Session.
(** The answer of the node's proxy to the [n]-th call of the session. *)
Variable remote : nat -> rpc -> result call_result.

Definition service (r : rpc) (st : state) : result call_result * state :=
  (remote (List.length (sent st)) r,
   {| self := self st; sent := sent st ++ [r] |}).

Definition read (st : state) : result call_result * state :=
  let '(r, st) := service (commandPoll (cid (self st))) st in
  match r with
  | Raise e => (Raise e, st)
  | Ok (code, res) =>
      let st := mark code st in
      ((data <- decode_payload res ;; Ok (code, data))%py, st)
  end.

(** The body of the [while True] loop leaves it in its first round. *)
Definition next (st : state) : result soap_value * state :=
  let '(r, st) := read st in
  match r with
  | Raise e => (Raise e, st)
  | Ok (code, data) =>
      if (code =? 200)%Z then (Ok data, st)
      else (Raise StopIteration, set_done st)
  end.

(** [for chunk in self]: the chunks [next] returns until it raises
    [StopIteration]; [None] when [fuel] rounds were not enough. *)
Fixpoint iterate (fuel : nat) (st : state)
    : option (result (list soap_value)) * state :=
  match fuel with
  | O => (None, st)
  | S fuel =>
      let '(r, st) := next st in
      match r with
      | Ok data =>
          let '(rest, st) := iterate fuel st in
          (match rest with
           | Some (Ok chunks) => Some (Ok (data :: chunks))
           | other => other
           end, st)
      | Raise StopIteration => (Some (Ok []), st)
      | Raise e => (Some (Raise e), st)
      end
  end.

(** [''.join(chunks)] *)
Fixpoint join (chunks : list soap_value) : result string :=
  match chunks with
  | [] => Ok EmptyString
  | SStr s :: t => (r <- join t ;; Ok (s ++ r)%string)%py
  | _ :: _ => Raise TypeError
  end.

Definition all (fuel : nat) (st : state) : option (result string) * state :=
  let '(r, st) := iterate fuel st in
  (match r with
   | None => None
   | Some (Ok chunks) => Some (join chunks)
   | Some (Raise e) => Some (Raise e)
   end, st).

Definition write (data : string) (st : state) : result call_result * state :=
  let '(r, st) :=
    service (commandPush (cid (self st)) (Base64.b64encode_str data)) st in
  match r with
  | Raise e => (Raise e, st)
  | Ok (code, res) => (Ok (code, res), mark code st)
  end.

(** [int(sigid)], and on [ValueError]
    [int(getattr(signal, sigid.upper()))]. *)
Definition resolve (s : sigid) : result Z :=
  match s with
  | SigInt n => Ok n
  | SigStr str =>
      match PySignal.int_of_str str with
      | Some n => Ok n
      | None => PySignal.getattr_signal (PySignal.upper str)
      end
  end.

Definition signal (s : sigid) (st : state) : result call_result * state :=
  match resolve s with
  | Raise e => (Raise e, st)
  | Ok sig =>
      let '(r, st) := service (commandSignal (cid (self st)) sig) st in
      match r with
      | Raise e => (Raise e, st)
      | Ok (code, res) => (Ok (code, res), mark code st)
      end
  end.

Definition stop (st : state) : result call_result * state :=
  service (commandStop (cid (self st))) (set_done st).

(** The operations a caller can apply to a session. *)
Inductive op : Type :=
| OpRead
| OpNext
| OpIterate (fuel : nat)
| OpAll (fuel : nat)
| OpWrite (data : string)
| OpSignal (s : sigid)
| OpStop.

Definition run_op (o : op) (st : state) : state :=
  match o with
  | OpRead => snd (read st)
  | OpNext => snd (next st)
  | OpIterate fuel => snd (iterate fuel st)
  | OpAll fuel => snd (all fuel st)
  | OpWrite data => snd (write data st)
  | OpSignal s => snd (signal s st)
  | OpStop => snd (stop st)
  end.

Definition run_ops (ops : list op) (st : state) : state :=
  fold_left (fun st o => run_op o st) ops st.

End Session.
End Command.

(** ** Python lists: indexing and slicing *)
Module PyList.
Section Items.
Variable A : Type.

(** [l[n]]: a negative index counts from the end. *)
Definition getitem (l : list A) (n : Z) : result A :=
  let len := Z.of_nat (List.length l) in
  let i := if (n <? 0)%Z then (n + len)%Z else n in
  if ((i <? 0) || (len <=? i))%Z then Raise (OtherExc "IndexError")
  else
    match nth_error l (Z.to_nat i) with
    | Some x => Ok x
    | None => Raise (OtherExc "IndexError")
    end.

(** A bound of a slice that is not [None], brought into the list. *)
Definition adjust (len step i : Z) : Z :=
  if (i <? 0)%Z then
    let i' := (i + len)%Z in
    if (i' <? 0)%Z then (if (step <? 0)%Z then (-1)%Z else 0%Z) else i'
  else if (len <=? i)%Z then (if (step <? 0)%Z then (len - 1)%Z else len)
  else i.

(** [slice(start, stop, step).indices(len)] *)
Definition slice_indices (len : Z) (start stop step : option Z)
    : result (Z * Z * Z) :=
  let step := match step with Some s => s | None => 1%Z end in
  if (step =? 0)%Z then Raise ValueError
  else
    let start :=
      match start with
      | None => if (step <? 0)%Z then (len - 1)%Z else 0%Z
      | Some i => adjust len step i
      end in
    let stop :=
      match stop with
      | None => if (step <? 0)%Z then (-1)%Z else len
      | Some i => adjust len step i
      end in
    Ok (start, stop, step).

(** The number of items of the slice. *)
Definition slice_length (start stop step : Z) : Z :=
  if (step <? 0)%Z then
    if (stop <? start)%Z then ((start - stop - 1) / (- step) + 1)%Z else 0%Z
  else
    if (start <? stop)%Z then ((stop - start - 1) / step + 1)%Z else 0%Z.

Fixpoint take_items (l : list A) (i step : Z) (count : nat) : list A :=
  match count with
  | O => []
  | S count =>
      match nth_error l (Z.to_nat i) with
      | Some x => x :: take_items l (i + step)%Z step count
      | None => []
      end
  end.

(** [l[start:stop:step]] *)
Definition getslice (l : list A) (start stop step : option Z)
    : result (list A) :=
  ('(start, stop, step) <-
     slice_indices (Z.of_nat (List.length l)) start stop step ;;
   Ok (take_items l start step (Z.to_nat (slice_length start stop step))))%py.
End Items.
End PyList.

(** ** halonctl/__main__.py: apply_slice and apply_filter *)
Module Main.

(** [s.split(':')] *)
Fixpoint split_colon_from (s : string) (cur : string) : list string :=
  match s with
  | EmptyString => [cur]
  | String c t =>
      if Ascii.eqb c ":"%char then cur :: split_colon_from t EmptyString
      else split_colon_from t (cur ++ String c EmptyString)
  end.

Definition split_colon (s : string) : list string :=
  split_colon_from s EmptyString.

Definition offsets : list Z := [(-1)%Z; 0%Z; 0%Z].

(** [[int(p) + offsets[i] if p else None for i, p in enumerate(...)]] *)
Fixpoint parse_parts (i : nat) (ps : list string) : result (list (option Z)) :=
  match ps with
  | [] => Ok []
  | p :: rest =>
      (x <- match p with
            | EmptyString => Ok None
            | _ =>
                match PySignal.int_of_str p with
                | None => Raise ValueError
                | Some n =>
                    match nth_error offsets i with
                    | Some o => Ok (Some (n + o)%Z)
                    | None => Raise (OtherExc "IndexError")
                    end
                end
            end ;;
       xs <- parse_parts (S i) rest ;;
       Ok (x :: xs))%py
  end.

Section Slice.
Variable A : Type.

(** [slice] takes at most three of the parts as arguments; an index that
    is [None] is a [TypeError]. *)
Definition apply_slice (list_ : list A) (slice_ : string) : result (list A) :=
  match slice_ with
  | EmptyString => Ok list_
  | _ =>
      (parts <- parse_parts 0 (split_colon slice_) ;;
       match parts with
       | [start; stop] => PyList.getslice list_ start stop None
       | [start; stop; step] => PyList.getslice list_ start stop step
       | [Some n] => (x <- PyList.getitem list_ n ;; Ok [x])
       | _ => Raise TypeError
       end)%py
  end.
End Slice.

(** [d[k]] *)
Definition lookup (V : Type) (d : dict string V) (k : string) : result V :=
  match dict_get String.eqb k d with
  | Some v => Ok v
  | None => Raise (OtherExc "KeyError")
  end.

(** [for cid in clusters: targets += apply_slice(available_clusters[cid],
    slice_)] *)
Fixpoint cluster_targets (available_clusters : dict string (list Node))
    (slice_ : string) (clusters : list string) (targets : list Node)
    : result (list Node) :=
  match clusters with
  | [] => Ok targets
  | cid :: rest =>
      (members <- lookup available_clusters cid ;;
       chosen <- apply_slice members slice_ ;;
       cluster_targets available_clusters slice_ rest (targets ++ chosen))%py
  end.

(** [[available_nodes[nid] for nid in nodes]] *)
Fixpoint named_nodes (available_nodes : dict string Node)
    (nodes : list string) : result (list Node) :=
  match nodes with
  | [] => Ok []
  | nid :: rest =>
      (node <- lookup available_nodes nid ;;
       others <- named_nodes available_nodes rest ;;
       Ok (node :: others))%py
  end.

Definition node_key (t : Node) : list string :=
  [cluster_name (cluster t); name t].

(** [apply_slice(available_nodes.values(), slice_)]: the values of a
    dictionary are a list under Python 2; under Python 3 they are a view,
    which can be iterated and sorted but not subscripted, so that
    [apply_slice] raises [TypeError] where it would index or slice it. *)
Definition apply_slice_values (ver : Util.pyver) (values : list Node)
    (slice_ : string) : result (list Node) :=
  match ver with
  | Util.Python2 => apply_slice values slice_
  | Util.Python3 =>
      match slice_ with
      | EmptyString => Ok values
      | _ =>
          (parts <- parse_parts 0 (split_colon slice_) ;;
           Raise TypeError)%py
      end
  end.

Definition apply_filter (ver : Util.pyver) (available_nodes : dict string Node)
    (available_clusters : dict string (list Node))
    (nodes clusters : list string) (slice_ : string) : result (list Node) :=
  (targets <-
     (if (List.length nodes =? 0) && (List.length clusters =? 0)
      then apply_slice_values ver (map snd available_nodes) slice_
      else if 0 <? List.length clusters
           then cluster_targets available_clusters slice_ clusters []
           else Ok []) ;;
   targets <-
     (if 0 <? List.length nodes
      then (named <- named_nodes available_nodes nodes ;;
            Ok (targets ++ named))
      else Ok targets) ;;
   Ok (Natsort.natsorted node_key targets))%py.

End Main.

(** ** halonctl/util.py, continued: textualize, ask_confirm and
       hql_from_filters *)
Module UtilMore.

(** *** What these functions take from the Python runtime *)

(** [str(n)] for an integer. *)
Definition str_of_int (n : Z) : string := NilZero.string_of_int (Z.to_int n).

(** [s.rstrip()] *)
Definition rstrip (s : string) : string :=
  string_of_list_ascii (rev (PySignal.lstrip (rev (list_ascii_of_string s)))).

(** [str.lower()] *)
Definition lower_ascii (c : ascii) : ascii :=
  let n := N_of_ascii c in
  if ((65 <=? n) && (n <=? 90))%N then ascii_of_N (n + 32) else c.

Fixpoint lower (s : string) : string :=
  match s with
  | EmptyString => EmptyString
  | String c t => String (lower_ascii c) (lower t)
  end.

(** [str.format] with keyword arguments, for replacement fields that are plain
    names: ["{name}"] is replaced by the field, ["{{"] and ["}}"] stand for
    a brace, a brace alone is a [ValueError] and an unknown name a
    [KeyError].  Conversions and format specifications are not modelled. *)
Inductive format_mode : Type :=
| Literal
| Field (fname : string).

Fixpoint format_from (template : string) (m : format_mode)
    (fields : dict string string) : result string :=
  match template, m with
  | EmptyString, Literal => Ok EmptyString
  | EmptyString, Field _ => Raise ValueError
  | String c t, Literal =>
      if Ascii.eqb c "{"%char then
        match t with
        | String c' t' =>
            if Ascii.eqb c' "{"%char
            then (r <- format_from t' Literal fields ;; Ok (String "{" r))%py
            else format_from t (Field EmptyString) fields
        | EmptyString => Raise ValueError
        end
      else if Ascii.eqb c "}"%char then
        match t with
        | String c' t' =>
            if Ascii.eqb c' "}"%char
            then (r <- format_from t' Literal fields ;; Ok (String "}" r))%py
            else Raise ValueError
        | EmptyString => Raise ValueError
        end
      else (r <- format_from t Literal fields ;; Ok (String c r))%py
  | String c t, Field fname =>
      if Ascii.eqb c "}"%char then
        match dict_get String.eqb fname fields with
        | Some v => (r <- format_from t Literal fields ;; Ok (v ++ r)%string)%py
        | None => Raise (OtherExc "KeyError")
        end
      else format_from t (Field (fname ++ String c EmptyString)) fields
  end.

Definition format (template : string) (fields : dict string string)
    : result string :=
  format_from template Literal fields.

(** *** textualize *)

(** A [datetime.timedelta]; two of them compare as the triples
    (days, seconds, microseconds). *)
Record timedelta : Type := {
  days : Z;
  seconds : Z;
  microseconds : Z
}.

Definition td_gt (a b : timedelta) : bool :=
  match (days a ?= days b)%Z with
  | Gt => true
  | Lt => false
  | Eq =>
      match (seconds a ?= seconds b)%Z with
      | Gt => true
      | Lt => false
      | Eq => (microseconds b <? microseconds a)%Z
      end
  end.

Definition one_day : timedelta :=
  {| days := 1; seconds := 0; microseconds := 0 |}.
Definition one_hour : timedelta :=
  {| days := 0; seconds := 3600; microseconds := 0 |}.
Definition one_minute : timedelta :=
  {| days := 0; seconds := 60; microseconds := 0 |}.

(** An item to print: [None], a boolean, a timedelta, or any other object
    with the text [six.text_type] gives for it. *)
Inductive item : Type :=
| INone
| IBool (b : bool)
| ITimedelta (t : timedelta)
| IObject (text : string).

(** What [textualize] returns: with [raw] it may be [None], a boolean or an
    integer. *)
Inductive output : Type :=
| ONone
| OBool (b : bool)
| OInt (n : Z)
| OText (s : string).

Section Textualize.
(** [int(item.total_seconds())], a computation on floating-point numbers. *)
Variable int_total_seconds : timedelta -> Z.

Definition textualize (it : item) (raw : bool) : result output :=
  match it with
  | INone => Ok (if negb raw then OText "-" else ONone)
  | IBool true => Ok (if negb raw then OText "Yes" else OBool true)
  | IBool false => Ok (if negb raw then OText "No" else OBool false)
  | ITimedelta t =>
      if negb raw then
        let s := EmptyString in
        let s := if td_gt t one_day then (s ++ "{d}d ")%string else s in
        let s := if td_gt t one_hour then (s ++ "{h}h ")%string else s in
        let s := if td_gt t one_minute then (s ++ "{m}m ")%string else s in
        (r <- format (rstrip s)
                [("d"%string, str_of_int (days t));
                 ("h"%string, str_of_int (seconds t / 3600));
                 ("m"%string, str_of_int ((seconds t / 60) mod 60))] ;;
         Ok (OText r))%py
      else Ok (OInt (int_total_seconds t))
  | IObject text => Ok (OText text)
  end.
End Textualize.

(** *** ask_confirm *)

Definition answers (default : bool) : dict string bool :=
  [("y"%string, true); ("yes"%string, true);
   ("n"%string, false); ("no"%string, false);
   (EmptyString, default)].

Definition suffix (default : bool) : string :=
  if default then "[Yn]"%string else "[yN]"%string.

Definition prompt_line (prompt : string) (default : bool) : string :=
  (prompt ++ " " ++ suffix default ++ " ")%string.

Definition newline : string := String "010" EmptyString.

(** The line printed after an answer that is not understood. *)
Definition retry_line (default : bool) : string :=
  ("Enter either y/yes or n/no, or nothing for default ("
   ++ (if default then "yes" else "no") ++ ")" ++ newline)%string.

(** The terminal: the lines still to be read from standard input and the
    text printed to standard error so far. *)
Record terminal : Type := {
  stdin : list string;
  stderr : string
}.

(** The loop of [ask_confirm]; the default is a boolean, so that the check
    of its type passes.  [input()] at the end of the input raises
    [EOFError]. *)
Fixpoint ask_confirm_loop (prompt : string) (default : bool)
    (lines : list string) (printed : string) : result bool * terminal :=
  match lines with
  | [] =>
      (Raise (OtherExc "EOFError"),
       {| stdin := [];
          stderr := (printed ++ prompt_line prompt default)%string |})
  | line :: rest =>
      let printed := (printed ++ prompt_line prompt default)%string in
      match dict_get String.eqb (lower line) (answers default) with
      | None =>
          ask_confirm_loop prompt default rest
            (printed ++ retry_line default)%string
      | Some answer => (Ok answer, {| stdin := rest; stderr := printed |})
      end
  end.

Definition ask_confirm (prompt : string) (default : bool) (t : terminal)
    : result bool * terminal :=
  ask_confirm_loop prompt default (stdin t) (stderr t).

(** *** hql_from_filters *)

Section Hql.
(** [str(get_date(text, timezone).timestamp)] for the text of a
    placeholder. *)
Variable timestamp : string -> result string.

(** Where the scan of [filter_timestamp_re] stands: outside a placeholder,
    or after an opening brace with the text read since then. *)
Inductive scan_mode : Type :=
| Outside
| Inside (acc : string).

(** [filter_timestamp_re.sub(lambda m: ..., s)]: the leftmost opening brace
    that is followed by a closing brace starts a placeholder, which ends at
    the first closing brace. *)
Fixpoint sub_from (s : string) (m : scan_mode) : result string :=
  match s, m with
  | EmptyString, Outside => Ok EmptyString
  | EmptyString, Inside acc => Ok (String "{" acc)
  | String c t, Outside =>
      if Ascii.eqb c "{"%char then sub_from t (Inside EmptyString)
      else (r <- sub_from t Outside ;; Ok (String c r))%py
  | String c t, Inside acc =>
      if Ascii.eqb c "}"%char
      then (stamp <- timestamp acc ;;
            r <- sub_from t Outside ;;
            Ok (stamp ++ r)%string)%py
      else sub_from t (Inside (acc ++ String c EmptyString))
  end.

Fixpoint conditions (filters : list string) : result (list string) :=
  match filters with
  | [] => Ok []
  | s :: rest =>
      (s' <- sub_from s Outside ;;
       others <- conditions rest ;;
       Ok (s' :: others))%py
  end.

Definition hql_from_filters (filters : list string) : result string :=
  (cs <- conditions filters ;; Ok (String.concat " " cs))%py.
End Hql.

End UtilMore.

(** ** halonctl/__main__.py: how [main] chooses its target nodes *)
Module MainProgram.

(** How [main] ends: it returns, [sys.exit] is called with a status, or an
    exception is not caught. *)
Inductive ending (A : Type) : Type :=
| Returns (a : A)
| SysExit (status : Z)
| Uncaught (e : exn).
Arguments Returns {A} a.
Arguments SysExit {A} status.
Arguments Uncaught {A} e.

(** The arguments of the command line that the choice depends on. *)
Record args : Type := {
  nodes : list string;
  clusters : list string;
  slice : string
}.

(** [id in d] *)
Definition contains (V : Type) (d : dict string V) (id : string) : bool :=
  match dict_get String.eqb id d with
  | Some _ => true
  | None => false
  end.

(** From "Validate cluster and node choices" to the call of [apply_filter];
    [out] is what has been printed.  [dict.iterkeys] exists under Python 2
    only. *)
Definition target_nodes (ver : Util.pyver)
    (available_nodes : dict string Node)
    (available_clusters : dict string (list Node))
    (a : args) (out : list string) : ending (list Node) * list string :=
  let invalid_clusters :=
    filter (fun cid => negb (contains available_clusters cid)) (clusters a) in
  match invalid_clusters with
  | _ :: _ =>
      let out :=
        out ++ [("Unknown clusters: "
                 ++ String.concat ", " invalid_clusters)%string] in
      match ver with
      | Util.Python2 =>
          (SysExit 1,
           out ++ [("Available: "
                    ++ String.concat ", " (map fst available_clusters))%string])
      | Util.Python3 => (Uncaught (AttributeError "iterkeys"), out)
      end
  | [] =>
      let invalid_nodes :=
        filter (fun nid => negb (contains available_nodes nid)) (nodes a) in
      match invalid_nodes with
      | _ :: _ =>
          let out :=
            out ++ [("Unknown nodes: "
                     ++ String.concat ", " invalid_nodes)%string] in
          match ver with
          | Util.Python2 =>
              (SysExit 1,
               out ++ [("Available: "
                        ++ String.concat ", " (map fst available_nodes))%string])
          | Util.Python3 => (Uncaught (AttributeError "iterkeys"), out)
          end
      | [] =>
          match Main.apply_filter ver available_nodes available_clusters
                  (nodes a) (clusters a) (slice a) with
          | Ok target_nodes => (Returns target_nodes, out)
          | Raise e => (Uncaught e, out)
          end
      end
  end.

End MainProgram.


(** ** halonctl/__main__.py and util.py: download_wsdl and print_ssl_error *)
Module Wsdl.

Definition quote : string := String "034" EmptyString.

(** [print_ssl_error(node)]: the lines it prints to standard error. *)
Definition print_ssl_error (node : Node) : list string :=
  [("ERROR: Couldn't contact '" ++ name node
    ++ "': SSL verification failed!")%string;
   EmptyString;
   "If you'd like to disable SSL verification, add this to your config:"%string;
   ("    " ++ quote ++ "verify_ssl" ++ quote ++ ": false")%string;
   EmptyString;
   "Or, if you're using a self-signed certificate, add this instead:"%string;
   ("    " ++ quote ++ "verify_ssl" ++ quote ++ ": " ++ quote
    ++ "/path/to/my/cert.pem" ++ quote)%string;
   EmptyString;
   "You can also connect over plain HTTP by adjusting your node definition."%string;
   EmptyString].

(** An exception raised inside the [try]: one of the classes of
    [requests.exceptions], or any other exception. *)
Inductive raised : Type :=
| OfRequests (c : Requests.cls)
| Other.

(** [except requests.exceptions.SSLError] *)
Definition is_ssl_error (r : raised) : bool :=
  match r with
  | OfRequests c => Requests.issubclass c Requests.SSLError
  | Other => false
  end.

(** What asking one node for the WSDL gives: [requests.get] raises, or it
    returns a response with a status whose body arrives in chunks, after
    which the stream may break with an exception. *)
Inductive fetch : Type :=
| Raises (r : raised)
| Response (status_code : Z) (chunks : list bytes) (broken : option raised).

(** The cached file, if it exists: the time of its last modification and
    its content.  Standard error, and the nodes that have been asked. *)
Record world : Type := {
  cache : option (Z * bytes);
  stderr : list string;
  asked : list Node
}.

Inductive ending : Type :=
| Returns
| SysExit (status : Z)
| SysExitMessage (message : string).

Section Download.
(** [requests.get] for the WSDL of a node, with the [verify] given. *)
Variable get : Node -> fetch.
(** [arrow.utcnow()], in seconds. *)
Variable now : Z.

(** The loop over the nodes.  The file can be opened for writing; writing
    replaces what it held. *)
Fixpoint try_nodes (nodes : list Node) (w : world) : ending * world :=
  match nodes with
  | [] =>
      (SysExitMessage "None of your nodes are available, can't download WSDL",
       w)
  | node :: rest =>
      let w := {| cache := cache w; stderr := stderr w;
                  asked := asked w ++ [node] |} in
      let handle (r : raised) (w : world) : ending * world :=
        if is_ssl_error r
        then (SysExit 1,
              {| cache := cache w;
                 stderr := stderr w ++ print_ssl_error node;
                 asked := asked w |})
        else try_nodes rest w in
      match get node with
      | Raises r => handle r w
      | Response status_code chunks broken =>
          if (status_code =? 200)%Z then
            let w := {| cache := Some (now, List.concat chunks);
                        stderr := stderr w; asked := asked w |} in
            match broken with
            | None => (Returns, w)
            | Some r => handle r w
            end
          else try_nodes rest w
      end
  end.

(** The file is downloaded when it does not exist or was last modified
    before [min_mtime], which [replace(hours=-12)] puts twelve hours before
    now (the shifting [replace] of arrow before 1.0, the one whose
    [timestamp] is a property, as [hql_from_filters] uses it). *)
Definition download_wsdl (nodes : list Node) (w : world) : ending * world :=
  let min_mtime := (now - 12 * 3600)%Z in
  let stale :=
    match cache w with
    | None => true
    | Some (mtime, _) => (mtime <? min_mtime)%Z
    end in
  if stale then try_nodes nodes w else (Returns, w).
End Download.

End Wsdl.


(** ** Concrete data for the examples *)

Definition example_node : Node :=
  {| node_id := 0; name := "node1"; cluster := {| cluster_name := "mx" |} |}.

Definition mx : Cluster := {| cluster_name := "mx" |}.
Definition node1 : Node := {| node_id := 1; name := "node1"; cluster := mx |}.
Definition node2 : Node := {| node_id := 2; name := "node2"; cluster := mx |}.
Definition node10 : Node := {| node_id := 3; name := "node10"; cluster := mx |}.
Definition node20 : Node := {| node_id := 4; name := "node20"; cluster := mx |}.

(** Two jobs, the second of which raises. *)
Definition example_tasks : dict string (Util.task unit Z) :=
  [("a"%string, Util.Task1 (fun _ _ => Ok 1%Z));
   ("b"%string, Util.Task2 (fun _ _ => Raise ValueError) [tt])].

(** A node answers unless its name is ["node2"], whose connection is
    refused. *)
Definition example_post (node : Node) (context : unit)
    : result NodeSoapProxy.Response :=
  if String.eqb (name node) "node2"
  then Raise (RequestsExc Requests.ConnectionError)
  else Ok {| NodeSoapProxy.text := "<ok/>"; NodeSoapProxy.status_code := 200;
             NodeSoapProxy.reason := "OK" |}.

Definition example_service (node : Node) (op : string)
    (args : list unit) (kwargs : list (string * unit)) : result call_result :=
  NodeSoapProxy._soap_proxy_executor
    (fun _ _ (_ : list unit * list (string * unit)) => Ok tt)
    example_post
    (fun _ body code _ => Ok (code, SStr body))
    node op (args, kwargs).

Definition fresh_session (commandid : string) : Command.state :=
  {| Command.self := {| Command.cid := commandid; Command.done := false |};
     Command.sent := [] |}.

(** A remote whose process keeps producing output. *)
Definition lively_remote (n : nat) (r : Command.rpc) : result call_result :=
  Ok (200%Z, SStr "fresh").

(** A remote that fails the first call and answers the second. *)
Definition flaky_remote (n : nat) (r : Command.rpc) : result call_result :=
  match n with
  | 0 => Ok (0%Z, SNone)
  | 1 => Ok (200%Z, SStr "late")
  | _ => Ok (500%Z, SNone)
  end.

(** A remote that delivers two chunks and then reports the end. *)
Definition two_chunk_remote (n : nat) (r : Command.rpc) : result call_result :=
  match n with
  | 0 => Ok (200%Z, SItems ["aGVs"%string; "bG8="%string])
  | 1 => Ok (200%Z, SStr "")
  | _ => Ok (500%Z, SNone)
  end.

(** ** Auxiliary definitions for the proofs *)

Definition all_ascii : list ascii := map ascii_of_nat (seq 0 256).

(** The sort key [nodesort] gives to an item, after [natsort] has cut it. *)
Definition item_key (V : Type) (t : Node * V) : list (list Natsort.chunk) :=
  map Natsort.natsort_key [cluster_name (cluster (fst t)); name (fst t)].

(** [a] may stand before [b]: the key of [b] is not smaller than the key
    of [a]. *)
Definition key_le (A : Type) (key : A -> list (list Natsort.chunk))
    (a b : A) : Prop :=
  Natsort.key_lt (key b) (key a) = false.

Definition item_le (V : Type) : Node * V -> Node * V -> Prop :=
  key_le (@item_key V).

(** What the proofs need of a three-way comparison: it is antisymmetric,
    [Eq] is equality and [Lt] is transitive. *)
Definition total_comparison (A : Type) (cmp : A -> A -> comparison) : Prop :=
  (forall x y, cmp x y = CompOpp (cmp y x))
  /\ (forall x y, cmp x y = Eq -> x = y)
  /\ (forall x y z, cmp x y = Lt -> cmp y z = Lt -> cmp x z = Lt).

(** The number a string of decimal digits denotes, read after [acc]. *)
Fixpoint number_of (s : string) (acc : N) : N :=
  match s with
  | EmptyString => acc
  | String c t =>
      match Natsort.digit_of c with
      | Some d => number_of t (10 * acc + d)%N
      | None => acc
      end
  end.

Fixpoint all_digits (s : string) : bool :=
  match s with
  | EmptyString => true
  | String c t =>
      match Natsort.digit_of c with
      | Some _ => all_digits t
      | None => false
      end
  end.

Fixpoint no_digit (s : string) : bool :=
  match s with
  | EmptyString => true
  | String c t =>
      match Natsort.digit_of c with
      | Some _ => false
      | None => no_digit t
      end
  end.

(** What the decoder needs of the character for the 6-bit value [v]: it is
    an ASCII character, neither a blank nor the pad character, and the
    decoding table gives [v] back. *)
Definition b64_char_ok (v : N) : bool :=
  let ch := Base64.table_b2a v in
  negb (127 <? ch)%N && negb (ch =? 13)%N && negb (ch =? 10)%N
  && negb (ch =? 32)%N && negb (ch =? Base64.PAD)%N
  && match Base64.table_a2b ch with
     | Some w => (w =? v)%N
     | None => false
     end.

Definition below (bound : N) (b : N) : Prop := (b < bound)%N.

(** Three jobs that all return. *)
Definition example_ok_tasks : dict string (Util.task unit Z) :=
  [("a"%string, Util.Task1 (fun _ _ => Ok 1%Z));
   ("b"%string, Util.Task2 (fun args _ => Ok (Z.of_nat (List.length args))) [tt; tt]);
   ("c"%string, Util.Task3 (fun _ kwargs => Ok (Z.of_nat (List.length kwargs)))
                  [] [("x"%string, tt)])].

(** [x] stands before [y] in [l]. *)
Definition before (A : Type) (x y : A) (l : list A) : Prop :=
  exists l1 l2 l3, l = l1 ++ x :: l2 ++ y :: l3.

(** Two nodes of two groups; the group names differ in their number. *)
Definition alpha_of_mx10 : Node :=
  {| node_id := 5; name := "alpha"; cluster := {| cluster_name := "mx10" |} |}.
Definition zeta_of_mx2 : Node :=
  {| node_id := 6; name := "zeta"; cluster := {| cluster_name := "mx2" |} |}.

(** A character of Base64 text: one of the alphabet or the pad character. *)
Definition base64_char (c : N) : Prop :=
  In c (bytes_of_string Base64.alphabet) \/ c = Base64.PAD.

(** The characters [binascii.a2b_base64] skips wherever they stand. *)
Definition blank (c : N) : Prop := c = 10%N \/ c = 13%N \/ c = 32%N.

Fixpoint no_colon (s : string) : bool :=
  match s with
  | EmptyString => true
  | String c t => negb (Ascii.eqb c ":"%char) && no_colon t
  end.

(** The key [apply_filter] sorts a node by, after [natsort] has cut it. *)
Definition target_key (t : Node) : list (list Natsort.chunk) :=
  map Natsort.natsort_key (Main.node_key t).

(** A small topology: two groups and their nodes by name. *)
Definition example_nodes : dict string Node :=
  [("node10"%string, node10); ("node2"%string, node2);
   ("zeta"%string, zeta_of_mx2); ("alpha"%string, alpha_of_mx10)].

Definition example_clusters : dict string (list Node) :=
  [("mx"%string, [node10; node2]);
   ("mx2"%string, [zeta_of_mx2]);
   ("mx10"%string, [alpha_of_mx10])].

(** [s] has no character [c]. *)
Fixpoint lacks (c : ascii) (s : string) : bool :=
  match s with
  | EmptyString => true
  | String c' t => negb (Ascii.eqb c' c) && lacks c t
  end.

(** A line that [ask_confirm] does not take as an answer. *)
Definition unanswered (line : string) : Prop :=
  ~ In (UtilMore.lower line) ["y"; "yes"; "n"; "no"; EmptyString]%string.

Fixpoint repeat_string (n : nat) (s : string) : string :=
  match n with
  | O => EmptyString
  | S n' => (s ++ repeat_string n' s)%string
  end.

(** The seconds of a timedelta are those of one day. *)
Definition normalized (t : UtilMore.timedelta) : Prop :=
  (0 <= UtilMore.seconds t < 86400)%Z
  /\ (0 <= UtilMore.microseconds t < 1000000)%Z.

Definition example_timestamp (text : string) : result string :=
  if String.eqb text "2015-01-01" then Ok "1420070400"%string
  else Raise ValueError.


(** The exceptions a slice can cause in [apply_slice]. *)
Definition slice_error (e : exn) : Prop :=
  e = ValueError \/ e = TypeError \/ e = OtherExc "IndexError".

(** Every name of [ids] is a key of [d]. *)
Definition all_known (V : Type) (d : dict string V) (ids : list string)
    : bool :=
  forallb (MainProgram.contains d) ids.


(** A node that [download_wsdl] passes over: the request or the stream
    fails with something that is not an SSL error, or the status is not
    200. *)
Definition soft_failure (f : Wsdl.fetch) : bool :=
  match f with
  | Wsdl.Raises r => negb (Wsdl.is_ssl_error r)
  | Wsdl.Response status_code _ broken =>
      if (status_code =? 200)%Z
      then match broken with
           | Some r => negb (Wsdl.is_ssl_error r)
           | None => false
           end
      else true
  end.

(** A node whose request, or whose stream after a status of 200, fails
    with an SSL error. *)
Definition ssl_failure (f : Wsdl.fetch) : bool :=
  match f with
  | Wsdl.Raises r => Wsdl.is_ssl_error r
  | Wsdl.Response status_code _ broken =>
      (status_code =? 200)%Z
      && match broken with
         | Some r => Wsdl.is_ssl_error r
         | None => false
         end
  end.

(** The cached file after a node has been asked: an answer with status 200
    replaces it by the chunks that arrived. *)
Definition written (now : Z) (f : Wsdl.fetch) (c : option (Z * bytes))
    : option (Z * bytes) :=
  match f with
  | Wsdl.Raises _ => c
  | Wsdl.Response status_code chunks _ =>
      if (status_code =? 200)%Z then Some (now, List.concat chunks) else c
  end.

Fixpoint cache_after (get : Node -> Wsdl.fetch) (now : Z) (nodes : list Node)
    (c : option (Z * bytes)) : option (Z * bytes) :=
  match nodes with
  | [] => c
  | node :: rest => cache_after get now rest (written now (get node) c)
  end.

(** There is no cached file, or it is older than twelve hours. *)
Definition stale (now : Z) (c : option (Z * bytes)) : Prop :=
  match c with
  | None => True
  | Some (mtime, _) => (mtime < now - 43200)%Z
  end.

Definition example_get (n : Node) : Wsdl.fetch :=
  if node_eqb n node1 then Wsdl.Raises (Wsdl.OfRequests Requests.ConnectTimeout)
  else if node_eqb n node2 then Wsdl.Response 200 [[60; 119]; [115]]%N (Some Wsdl.Other)
  else if node_eqb n node10 then Wsdl.Response 200 [[60; 119]; [115; 62]]%N None
  else Wsdl.Raises (Wsdl.OfRequests Requests.SSLError).

Definition empty_world : Wsdl.world :=
  {| Wsdl.cache := None; Wsdl.stderr := []; Wsdl.asked := [] |}.


(** A round trip that fails for ["node2"] with an exception the proxy does
    not catch, and the service built on it. *)
Definition redirecting_post (node : Node) (context : unit)
    : result NodeSoapProxy.Response :=
  if String.eqb (name node) "node2"
  then Raise (RequestsExc Requests.TooManyRedirects)
  else Ok {| NodeSoapProxy.text := "<ok/>"; NodeSoapProxy.status_code := 200;
             NodeSoapProxy.reason := "OK" |}.

Definition redirecting_service (node : Node) (op : string)
    (args : list unit) (kwargs : list (string * unit)) : result call_result :=
  NodeSoapProxy._soap_proxy_executor
    (fun _ _ (_ : list unit * list (string * unit)) => Ok tt)
    redirecting_post
    (fun _ body code _ => Ok (code, SStr body))
    node op (args, kwargs).


(** The first character of [s] is a capital letter. *)
Definition starts_with_capital (s : string) : bool :=
  match s with
  | EmptyString => false
  | String c _ => let n := N_of_ascii c in ((65 <=? n) && (n <=? 90))%N
  end.

(** A character whose upper-case form is a capital letter is no blank, no
    sign and no digit. *)
Definition letter_starts_no_number (c : ascii) : bool :=
  implb (starts_with_capital (String (PySignal.upper_ascii c) EmptyString))
    (negb (PySignal.is_space c)
     && negb (Ascii.eqb c "+"%char) && negb (Ascii.eqb c "-"%char)
     && match Natsort.digit_of c with None => true | Some _ => false end).

(** The characters of a decimal numeral. *)
Definition numeral (d : Decimal.uint) : list ascii :=
  list_ascii_of_string (NilEmpty.string_of_uint d).


(* ===================================================================== *)
(** * Part II: properties                                                *)
(* ===================================================================== *)

Unset Implicit Arguments.

(** ** The single-node proxies *)

Lemma transport_failure_caught (f : Requests.transport_failure) :
  NodeSoapProxy.catches_transport (RequestsExc (Requests.raised_for f)) = true.
Proof. destruct f; reflexivity. Qed.

Lemma caught_gives_status_zero
    (Context_ Args : Type)
    (make_request : Node -> string -> Args -> result Context_)
    (requests_post : Node -> Context_ -> result NodeSoapProxy.Response)
    (process_reply : Context_ -> string -> Z -> string -> result call_result)
    (node : Node) (name : string) (args : Args) (context : Context_) (e : exn) :
  make_request node name args = Ok context ->
  requests_post node context = Raise e ->
  NodeSoapProxy.catches_transport e = true ->
  NodeSoapProxy._soap_proxy_executor make_request requests_post process_reply
    node name args = Ok (0%Z, SNone).
Proof.
  intros Hreq Hpost Hcatch.
  unfold NodeSoapProxy._soap_proxy_executor.
  rewrite Hreq; simpl.
  rewrite Hpost; simpl.
  now rewrite Hcatch.
Qed.

(** An exception [requests.post] raises outside the two caught classes
    leaves the proxy. *)
Example uncaught_exception_escapes :
  NodeSoapProxy._soap_proxy_executor
    (fun _ _ (_ : unit) => Ok tt)
    (fun _ _ => Raise (RequestsExc Requests.TooManyRedirects))
    (fun _ _ _ _ => Ok (200%Z, SNone))
    {| node_id := 0; name := "n"; cluster := {| cluster_name := "c" |} |}
    "op" tt
  = Raise (RequestsExc Requests.TooManyRedirects).
Proof. reflexivity. Qed.




(** What [halon.proxies] does when [fetch] raises a socket error: the
    unbound name [socket] in the [except] clause raises [NameError]. *)
Example halon_socket_error_meets_an_unbound_name :
  HalonNodeSoapProxy._soap_proxy_executor
    (fun _ _ (_ : unit) => Ok (Some tt))
    (fun _ _ => HalonNodeSoapProxy.RaisedSocketError "Connection refused")
    (fun _ _ _ _ => Ok (200%Z, SNone))
    example_node "getTime" tt
  = Raise (OtherExc "NameError").
Proof. reflexivity. Qed.

(** ** The remote command session *)

Section SessionFacts.
Variable remote : nat -> Command.rpc -> result call_result.

Lemma done_set_done (st : Command.state) :
  Command.done (Command.self (Command.set_done st)) = true.
Proof. reflexivity. Qed.

Lemma done_mark (code : Z) (st : Command.state) :
  Command.done (Command.self st) = true ->
  Command.done (Command.self (Command.mark code st)) = true.
Proof. unfold Command.mark; now destruct (code =? 200)%Z. Qed.

Lemma done_read (st : Command.state) :
  Command.done (Command.self st) = true ->
  Command.done (Command.self (snd (Command.read remote st))) = true.
Proof.
  intros H. unfold Command.read, Command.service.
  destruct (remote _ _) as [[code res] | e]; simpl; auto using done_mark.
Qed.

Lemma done_next (st : Command.state) :
  Command.done (Command.self st) = true ->
  Command.done (Command.self (snd (Command.next remote st))) = true.
Proof.
  intros H. unfold Command.next.
  pose proof (done_read st H) as Hr.
  destruct (Command.read remote st) as [[[code data] | e] st']; simpl in *; auto.
  destruct (code =? 200)%Z; simpl; auto.
Qed.

Lemma done_iterate (fuel : nat) (st : Command.state) :
  Command.done (Command.self st) = true ->
  Command.done (Command.self (snd (Command.iterate remote fuel st))) = true.
Proof.
  revert st; induction fuel as [| fuel IH]; intros st H; simpl; auto.
  pose proof (done_next st H) as Hn.
  destruct (Command.next remote st) as [[data | e] st']; simpl in *.
  - specialize (IH st' Hn).
    destruct (Command.iterate remote fuel st') as [rest st'']; simpl in *; auto.
  - destruct e; simpl; auto.
Qed.

Lemma done_all (fuel : nat) (st : Command.state) :
  Command.done (Command.self st) = true ->
  Command.done (Command.self (snd (Command.all remote fuel st))) = true.
Proof.
  intros H. unfold Command.all.
  pose proof (done_iterate fuel st H) as Hi.
  destruct (Command.iterate remote fuel st) as [r st']; simpl in *; auto.
Qed.

Lemma done_write (data : string) (st : Command.state) :
  Command.done (Command.self st) = true ->
  Command.done (Command.self (snd (Command.write remote data st))) = true.
Proof.
  intros H. unfold Command.write, Command.service.
  destruct (remote _ _) as [[code res] | e]; simpl; auto using done_mark.
Qed.

Lemma done_signal (s : Command.sigid) (st : Command.state) :
  Command.done (Command.self st) = true ->
  Command.done (Command.self (snd (Command.signal remote s st))) = true.
Proof.
  intros H. unfold Command.signal, Command.service.
  destruct (Command.resolve s) as [sig | e]; simpl; auto.
  destruct (remote _ _) as [[code res] | e]; simpl; auto using done_mark.
Qed.

Lemma done_stop (st : Command.state) :
  Command.done (Command.self (snd (Command.stop remote st))) = true.
Proof. reflexivity. Qed.

Lemma done_run_op (o : Command.op) (st : Command.state) :
  Command.done (Command.self st) = true ->
  Command.done (Command.self (Command.run_op remote o st)) = true.
Proof.
  destruct o; simpl;
    auto using done_read, done_next, done_iterate, done_all, done_write,
               done_signal, done_stop.
Qed.

End SessionFacts.

(** C8: after [stop()] the session is done whatever the stop call reports,
    also when it reports a failure status or raises, and [stop()] returns
    what the remote reported. *)
Theorem C8_stop_always_terminates :
  forall (remote : nat -> Command.rpc -> result call_result)
         (st : Command.state),
    Command.done (Command.self (snd (Command.stop remote st))) = true
    /\ fst (Command.stop remote st)
       = remote (List.length (Command.sent st))
           (Command.commandStop (Command.cid (Command.self st)))
    /\ Command.sent (snd (Command.stop remote st))
       = Command.sent st
           ++ [Command.commandStop (Command.cid (Command.self st))].
Proof. intros remote st; repeat split. Qed.

(** C9: once [done] is true no sequence of read, next, traversal, write,
    signal and stop operations makes it false again, whatever the remote
    answers. *)
Theorem C9_done_is_monotonic :
  forall (remote : nat -> Command.rpc -> result call_result)
         (ops : list Command.op) (st : Command.state),
    Command.done (Command.self st) = true ->
    Command.done (Command.self (Command.run_ops remote ops st)) = true.
Proof.
  intros remote ops; induction ops as [| o ops IH]; intros st H; simpl; auto.
  apply IH, done_run_op, H.
Qed.

Lemma in_all_ascii (c : ascii) : In c all_ascii.
Proof.
  unfold all_ascii. rewrite <- (ascii_nat_embedding c).
  apply in_map, in_seq. pose proof (nat_ascii_bounded c). lia.
Qed.

(** *** [int] on the decimal text of an integer *)

Lemma lstrip_no_space (l : list ascii) :
  Forall (fun c => PySignal.is_space c = false) l -> PySignal.lstrip l = l.
Proof.
  destruct 1 as [| c l Hc _]; [reflexivity |].
  cbn [PySignal.lstrip]. now rewrite Hc.
Qed.

Lemma strip_no_space (l : list ascii) :
  Forall (fun c => PySignal.is_space c = false) l -> PySignal.strip l = l.
Proof.
  intros H. unfold PySignal.strip.
  rewrite (lstrip_no_space l H).
  rewrite (lstrip_no_space (rev l)) by (now apply Forall_rev).
  apply rev_involutive.
Qed.

Lemma numeral_no_space (d : Decimal.uint) :
  Forall (fun c => PySignal.is_space c = false) (numeral d).
Proof.
  unfold numeral.
  induction d; cbn [NilEmpty.string_of_uint list_ascii_of_string];
    constructor; solve [reflexivity | assumption].
Qed.

Lemma digits_value_numeral_acc (d : Decimal.uint) :
  forall acc : positive,
    PySignal.digits_value (numeral d) (Z.pos acc)
    = Some (Z.pos (Pos.of_uint_acc d acc)).
Proof.
  unfold numeral.
  induction d as [| d IH | d IH | d IH | d IH | d IH | d IH | d IH | d IH
                  | d IH | d IH];
    intros acc;
    cbn [NilEmpty.string_of_uint list_ascii_of_string PySignal.digits_value
         Pos.of_uint_acc];
    [reflexivity | ..];
    match goal with
    | |- context [Natsort.digit_of ?c] =>
        let v := eval vm_compute in (Natsort.digit_of c) in
        change (Natsort.digit_of c) with v
    end;
    cbv iota beta; rewrite <- IH; f_equal; lia.
Qed.

Lemma digits_value_numeral (d : Decimal.uint) :
  PySignal.digits_value (numeral d) 0 = Some (Z.of_N (Pos.of_uint d)).
Proof.
  unfold numeral.
  induction d as [| d IH | d IH | d IH | d IH | d IH | d IH | d IH | d IH
                  | d IH | d IH];
    cbn [NilEmpty.string_of_uint list_ascii_of_string PySignal.digits_value
         Pos.of_uint];
    [reflexivity | ..];
    match goal with
    | |- context [Natsort.digit_of ?c] =>
        let v := eval vm_compute in (Natsort.digit_of c) in
        change (Natsort.digit_of c) with v
    end;
    cbv iota beta;
    [exact IH | ..];
    cbn [Z.of_N];
    rewrite <- (digits_value_numeral_acc d); f_equal.
Qed.

Lemma numeral_starts_with_a_digit (d : Decimal.uint) :
  d <> Decimal.Nil ->
  exists c t,
    numeral d = c :: t
    /\ Ascii.eqb c "+"%char = false /\ Ascii.eqb c "-"%char = false.
Proof.
  unfold numeral.
  destruct d; intros H; [congruence | ..];
    cbn [NilEmpty.string_of_uint list_ascii_of_string];
    eexists; eexists; (split; [reflexivity | split; reflexivity]).
Qed.

Lemma int_of_str_numeral (p : positive) :
  PySignal.int_of_str (NilEmpty.string_of_uint (Pos.to_uint p))
  = Some (Z.pos p)
  /\ numeral (Pos.to_uint p) <> [].
Proof.
  pose proof (DecimalPos.Unsigned.to_uint_nonnil p) as Hnil.
  destruct (numeral_starts_with_a_digit (Pos.to_uint p) Hnil)
    as (c & t & Hct & Hplus & Hminus).
  split; [| rewrite Hct; discriminate].
  unfold PySignal.int_of_str.
  change (list_ascii_of_string (NilEmpty.string_of_uint (Pos.to_uint p)))
    with (numeral (Pos.to_uint p)).
  rewrite (strip_no_space _ (numeral_no_space (Pos.to_uint p))).
  rewrite Hct, Hplus, Hminus. rewrite <- Hct.
  rewrite digits_value_numeral.
  now rewrite DecimalPos.Unsigned.of_to.
Qed.

Lemma int_of_str_of_int (n : Z) :
  PySignal.int_of_str (UtilMore.str_of_int n) = Some n.
Proof.
  unfold UtilMore.str_of_int.
  destruct n as [| p | p]; cbn [Z.to_int NilZero.string_of_int].
  - reflexivity.
  - unfold NilZero.string_of_uint.
    destruct (int_of_str_numeral p) as [H _].
    destruct (Pos.to_uint p) eqn:E; try exact H.
    now apply DecimalPos.Unsigned.to_uint_nonnil in E.
  - assert (Hs : NilZero.string_of_uint (Pos.to_uint p)
                 = NilEmpty.string_of_uint (Pos.to_uint p)).
    { unfold NilZero.string_of_uint.
      destruct (Pos.to_uint p) eqn:E; try reflexivity.
      now apply DecimalPos.Unsigned.to_uint_nonnil in E. }
    rewrite Hs. unfold PySignal.int_of_str.
    cbn [list_ascii_of_string].
    change (list_ascii_of_string (NilEmpty.string_of_uint (Pos.to_uint p)))
      with (numeral (Pos.to_uint p)).
    rewrite strip_no_space
      by (constructor; [reflexivity | apply numeral_no_space]).
    change (Ascii.eqb "-" "+") with false.
    change (Ascii.eqb "-" "-") with true. cbv iota.
    destruct (numeral_starts_with_a_digit (Pos.to_uint p)
                (DecimalPos.Unsigned.to_uint_nonnil p))
      as (c & t & Hct & _ & _).
    rewrite Hct. rewrite <- Hct.
    rewrite digits_value_numeral, DecimalPos.Unsigned.of_to.
    reflexivity.
Qed.

(** *** A name that starts with a letter is no number *)

Lemma lstrip_keeps_a_last_char (a : list ascii) (c : ascii) :
  PySignal.is_space c = false ->
  exists pre, PySignal.lstrip (a ++ [c]) = pre ++ [c].
Proof.
  intros Hc. induction a as [| x a IH]; cbn [app PySignal.lstrip].
  - rewrite Hc. now exists [].
  - destruct (PySignal.is_space x); [exact IH | now exists (x :: a)].
Qed.

Lemma letter_is_no_number (c : ascii) : letter_starts_no_number c = true.
Proof.
  assert (Hall : forallb letter_starts_no_number all_ascii = true)
    by (vm_compute; reflexivity).
  rewrite forallb_forall in Hall. apply Hall, in_all_ascii.
Qed.

Lemma name_is_not_an_int (s : string) :
  starts_with_capital (PySignal.upper s) = true ->
  PySignal.int_of_str s = None.
Proof.
  destruct s as [| c t]; [discriminate |].
  intros Hcap. cbn [PySignal.upper] in Hcap.
  pose proof (letter_is_no_number c) as Hc.
  unfold letter_starts_no_number in Hc.
  change (starts_with_capital (String (PySignal.upper_ascii c) EmptyString))
    with (starts_with_capital
            (String (PySignal.upper_ascii c) (PySignal.upper t))) in Hc.
  rewrite Hcap in Hc. cbn [implb] in Hc.
  apply andb_true_iff in Hc. destruct Hc as [Hc Hdigit].
  apply andb_true_iff in Hc. destruct Hc as [Hc Hminus].
  apply andb_true_iff in Hc. destruct Hc as [Hspace Hplus].
  apply negb_true_iff in Hspace, Hplus, Hminus.
  unfold PySignal.int_of_str, PySignal.strip.
  cbn [list_ascii_of_string PySignal.lstrip]. rewrite Hspace.
  cbn [rev].
  destruct (lstrip_keeps_a_last_char (rev (list_ascii_of_string t)) c Hspace)
    as [pre ->].
  rewrite rev_app_distr. cbn [rev app].
  rewrite Hplus, Hminus. cbn [PySignal.digits_value].
  now destruct (Natsort.digit_of c).
Qed.

Lemma dict_get_key (V : Type) (d : dict string V) (k : string) (v : V) :
  dict_get String.eqb k d = Some v -> In k (map fst d).
Proof.
  induction d as [| [k' v'] d IH]; cbn [dict_get map fst In];
    [discriminate |].
  destruct (String.eqb_spec k k'); auto.
Qed.

Lemma attribute_is_not_an_int (s : string) (n : Z) :
  dict_get String.eqb (PySignal.upper s) PySignal.signal_module = Some n ->
  PySignal.int_of_str s = None.
Proof.
  intros H. apply name_is_not_an_int.
  assert (Hall : forallb starts_with_capital
                   (map fst PySignal.signal_module) = true)
    by (vm_compute; reflexivity).
  rewrite forallb_forall in Hall.
  apply Hall. eapply dict_get_key; eauto.
Qed.

(** C7 (as amended): an integer is sent as it is, and so is the number a
    string reads as, the decimal text of every integer among them; any
    other string is looked up in upper case among the attributes of the
    [signal] module and the value found is sent, so that a string whose
    upper-case form is ["SIGTERM"] sends the same call as [signal(15)];
    the module's constants that are no signals are found in the same way.
    A string that is neither a number nor such an attribute raises
    [AttributeError] and nothing is sent. *)
Theorem C7_signal_resolution :
  forall (remote : nat -> Command.rpc -> result call_result)
         (st : Command.state),
    (forall n : Z,
        Command.sent (snd (Command.signal remote (Command.SigInt n) st))
        = Command.sent st
            ++ [Command.commandSignal (Command.cid (Command.self st)) n])
    /\
    (forall s : string,
        PySignal.upper s = "SIGTERM"%string ->
        Command.signal remote (Command.SigStr s) st
        = Command.signal remote (Command.SigInt 15) st)
    /\
    (forall n : Z,
        Command.signal remote (Command.SigStr (UtilMore.str_of_int n)) st
        = Command.signal remote (Command.SigInt n) st)
    /\
    (forall (s : string) (n : Z),
        PySignal.int_of_str s = Some n ->
        Command.signal remote (Command.SigStr s) st
        = Command.signal remote (Command.SigInt n) st)
    /\
    (forall (s : string) (n : Z),
        dict_get String.eqb (PySignal.upper s) PySignal.signal_module
        = Some n ->
        Command.signal remote (Command.SigStr s) st
        = Command.signal remote (Command.SigInt n) st)
    /\
    (forall s : string,
        PySignal.int_of_str s = None ->
        dict_get String.eqb (PySignal.upper s) PySignal.signal_module = None ->
        Command.signal remote (Command.SigStr s) st
        = (Raise (AttributeError (PySignal.upper s)), st)).
Proof.
  intros remote st.
  assert (Hattr : forall s n,
             dict_get String.eqb (PySignal.upper s) PySignal.signal_module
             = Some n ->
             Command.signal remote (Command.SigStr s) st
             = Command.signal remote (Command.SigInt n) st).
  { intros s n H. unfold Command.signal; cbn [Command.resolve].
    rewrite (attribute_is_not_an_int s n H).
    unfold PySignal.getattr_signal. now rewrite H. }
  split; [| split; [| split; [| split; [| split]]]].
  - intros n. unfold Command.signal, Command.service; simpl.
    destruct (remote _ _) as [[code res] | e]; simpl; auto.
    unfold Command.mark; destruct (code =? 200)%Z; reflexivity.
  - intros s H. apply Hattr. rewrite H. reflexivity.
  - intros n. unfold Command.signal; cbn [Command.resolve].
    now rewrite int_of_str_of_int.
  - intros s n H. unfold Command.signal; cbn [Command.resolve].
    now rewrite H.
  - exact Hattr.
  - intros s Hint Hnone. unfold Command.signal; cbn [Command.resolve].
    rewrite Hint. unfold PySignal.getattr_signal. now rewrite Hnone.
Qed.

Lemma C7_witness :
  Command.signal lively_remote (Command.SigStr "SigTerm") (fresh_session "c1")
  = Command.signal lively_remote (Command.SigInt 15) (fresh_session "c1")
  /\ Command.signal lively_remote (Command.SigStr " +15 ")
       (fresh_session "c1")
     = Command.signal lively_remote (Command.SigInt 15) (fresh_session "c1")
  /\ Command.signal lively_remote (Command.SigStr "sigkill")
       (fresh_session "c1")
     = Command.signal lively_remote (Command.SigInt 9) (fresh_session "c1")
  /\ Command.signal lively_remote (Command.SigStr "SIGBOGUS")
       (fresh_session "c1")
     = (Raise (AttributeError "SIGBOGUS"), fresh_session "c1").
Proof.
  destruct (C7_signal_resolution lively_remote (fresh_session "c1"))
    as (_ & Hname & _ & Hnumber & Hattr & Hbad).
  split; [| split; [| split]].
  - apply Hname; reflexivity.
  - apply (Hnumber " +15 "%string 15%Z); reflexivity.
  - apply (Hattr "sigkill"%string 9%Z); reflexivity.
  - apply (Hbad "SIGBOGUS"%string); reflexivity.
Defined.

(** A name that is no signal and yet resolves: ["sig_dfl"] is found as the
    handler constant [SIG_DFL], whose value is 0, and signal 0 is sent
    without any error. *)
Lemma C7_counterexample :
  Command.signal lively_remote (Command.SigStr "sig_dfl") (fresh_session "c1")
  = (Ok (200%Z, SStr "fresh"),
     {| Command.self := {| Command.cid := "c1"; Command.done := false |};
        Command.sent := [Command.commandSignal "c1" 0] |}).
Proof. reflexivity. Qed.

Lemma C9_witness :
  Command.done
    (Command.self
       (Command.run_ops flaky_remote
          [Command.OpRead; Command.OpWrite "ls"; Command.OpSignal (Command.SigStr "sigint");
           Command.OpIterate 3; Command.OpStop]
          (Command.set_done (fresh_session "c1")))) = true.
Proof.
  apply (C9_done_is_monotonic flaky_remote); reflexivity.
Defined.

(** *** Reading *)

Section Reading.
Variable remote : nat -> Command.rpc -> result call_result.

(** One successful poll: [next] returns its decoded chunk and leaves the
    session as it was, one call later. *)
Lemma next_success (st : Command.state) (res data : soap_value) :
  remote (List.length (Command.sent st))
    (Command.commandPoll (Command.cid (Command.self st))) = Ok (200%Z, res) ->
  Command.decode_payload res = Ok data ->
  Command.next remote st
  = (Ok data,
     {| Command.self := Command.self st;
        Command.sent :=
          Command.sent st
            ++ [Command.commandPoll (Command.cid (Command.self st))] |}).
Proof.
  intros Hpoll Hdec.
  unfold Command.next, Command.read, Command.service.
  rewrite Hpoll; simpl. now rewrite Hdec.
Qed.

(** One poll that does not succeed: [next] raises [StopIteration] and the
    session is done. *)
Lemma next_failure (st : Command.state) (code : Z) (res data : soap_value) :
  remote (List.length (Command.sent st))
    (Command.commandPoll (Command.cid (Command.self st))) = Ok (code, res) ->
  code <> 200%Z ->
  Command.decode_payload res = Ok data ->
  Command.next remote st
  = (Raise StopIteration,
     {| Command.self :=
          {| Command.cid := Command.cid (Command.self st);
             Command.done := true |};
        Command.sent :=
          Command.sent st
            ++ [Command.commandPoll (Command.cid (Command.self st))] |}).
Proof.
  intros Hpoll Hcode Hdec.
  unfold Command.next, Command.read, Command.service.
  rewrite Hpoll. cbv beta iota zeta. rewrite Hdec. cbn [bind].
  unfold Command.mark.
  destruct (Z.eqb_spec code 200) as [-> | _]; [contradiction |].
  reflexivity.
Qed.

Lemma iterate_until_failure (rs ds : list soap_value) :
  Forall2 (fun r d => Command.decode_payload r = Ok d) rs ds ->
  forall (st : Command.state) (code : Z) (res data : soap_value) (fuel : nat),
    (forall i, i < List.length rs ->
       remote (List.length (Command.sent st) + i)
         (Command.commandPoll (Command.cid (Command.self st)))
       = Ok (200%Z, nth i rs SNone)) ->
    remote (List.length (Command.sent st) + List.length rs)
      (Command.commandPoll (Command.cid (Command.self st))) = Ok (code, res) ->
    code <> 200%Z ->
    Command.decode_payload res = Ok data ->
    List.length rs < fuel ->
    Command.iterate remote fuel st
    = (Some (Ok ds),
       {| Command.self :=
            {| Command.cid := Command.cid (Command.self st);
               Command.done := true |};
          Command.sent :=
            Command.sent st
              ++ repeat (Command.commandPoll (Command.cid (Command.self st)))
                   (S (List.length rs)) |}).
Proof.
  induction 1 as [| r d rs ds Hd _ IH];
    intros st code res data fuel Hok Hend Hcode Hdec Hfuel.
  - destruct fuel as [| fuel]; [simpl in Hfuel; lia |].
    simpl in Hend. rewrite Nat.add_0_r in Hend.
    simpl. now rewrite (next_failure st code res data Hend Hcode Hdec).
  - destruct fuel as [| fuel]; [lia |].
    simpl in Hfuel.
    pose proof (Hok 0 ltac:(simpl; lia)) as H0.
    rewrite Nat.add_0_r in H0; simpl in H0.
    cbn [Command.iterate]. rewrite (next_success st r d H0 Hd).
    rewrite (IH _ code res data fuel); simpl.
    + now rewrite <- app_assoc.
    + intros i Hi. rewrite length_app; simpl.
      replace (List.length (Command.sent st) + 1 + i)
        with (List.length (Command.sent st) + S i) by lia.
      apply (Hok (S i)). simpl; lia.
    + rewrite length_app; simpl.
      replace (List.length (Command.sent st) + 1 + List.length rs)
        with (List.length (Command.sent st) + S (List.length rs)) by lia.
      exact Hend.
    + exact Hcode.
    + exact Hdec.
    + lia.
Qed.

End Reading.

(** C5 (as amended): a traversal started in any state of the session, done
    or not, yields exactly the decoded chunks of the successful polls that
    come before the first poll with another status, ends at that poll after
    [length rs + 1] polls, and leaves the session done; with no successful
    poll ([rs = []]) it yields nothing.  A later traversal polls the remote
    again, so it yields no chunk when the first poll it makes does not
    succeed. *)
Theorem C5_traversal_stops_at_first_failed_poll :
  forall (remote : nat -> Command.rpc -> result call_result)
         (rs ds : list soap_value) (st : Command.state)
         (code : Z) (res data : soap_value) (fuel : nat),
    Forall2 (fun r d => Command.decode_payload r = Ok d) rs ds ->
    (forall i, i < List.length rs ->
       remote (List.length (Command.sent st) + i)
         (Command.commandPoll (Command.cid (Command.self st)))
       = Ok (200%Z, nth i rs SNone)) ->
    remote (List.length (Command.sent st) + List.length rs)
      (Command.commandPoll (Command.cid (Command.self st))) = Ok (code, res) ->
    code <> 200%Z ->
    Command.decode_payload res = Ok data ->
    List.length rs < fuel ->
    fst (Command.iterate remote fuel st) = Some (Ok ds)
    /\ Command.done (Command.self (snd (Command.iterate remote fuel st))) = true
    /\ Command.sent (snd (Command.iterate remote fuel st))
       = Command.sent st
           ++ repeat (Command.commandPoll (Command.cid (Command.self st)))
                (S (List.length rs)).
Proof.
  intros remote rs ds st code res data fuel Hdec Hok Hend Hcode Hd Hfuel.
  rewrite (iterate_until_failure remote rs ds Hdec st code res data fuel
             Hok Hend Hcode Hd Hfuel).
  repeat split.
Qed.

Lemma C5_witness :
  fst (Command.iterate two_chunk_remote 5 (fresh_session "c1"))
  = Some (Ok [SStr "hello"; SStr ""])
  /\ Command.done
       (Command.self (snd (Command.iterate two_chunk_remote 5 (fresh_session "c1"))))
     = true
  /\ Command.sent (snd (Command.iterate two_chunk_remote 5 (fresh_session "c1")))
     = [Command.commandPoll "c1"; Command.commandPoll "c1";
        Command.commandPoll "c1"].
Proof.
  apply (C5_traversal_stops_at_first_failed_poll two_chunk_remote
           [SItems ["aGVs"%string; "bG8="%string]; SStr ""]
           [SStr "hello"; SStr ""]
           (fresh_session "c1") 500%Z SNone SNone).
  - repeat constructor.
  - intros i Hi. simpl in Hi.
    destruct i as [| [| i]]; [reflexivity | reflexivity | lia].
  - reflexivity.
  - discriminate.
  - reflexivity.
  - simpl; lia.
Defined.

(** A first traversal ends on a failed poll without a chunk and marks the
    session done; the second traversal polls again and yields a chunk. *)
Lemma C5_counterexample :
  fst (Command.iterate flaky_remote 5 (fresh_session "c1")) = Some (Ok [])
  /\ Command.done
       (Command.self (snd (Command.iterate flaky_remote 5 (fresh_session "c1"))))
     = true
  /\ fst (Command.iterate flaky_remote 5
            (snd (Command.iterate flaky_remote 5 (fresh_session "c1"))))
     = Some (Ok [SStr "late"]).
Proof. repeat split. Qed.

(** C6 (as amended): on a session that is done, [read], [write] and
    [signal] still call the remote and return what it answers ([read] with
    the payload decoded), and the session stays done. *)
Theorem C6_calls_after_done_reach_the_remote :
  forall (remote : nat -> Command.rpc -> result call_result)
         (st : Command.state),
    Command.done (Command.self st) = true ->
    (forall code res data,
        remote (List.length (Command.sent st))
          (Command.commandPoll (Command.cid (Command.self st)))
        = Ok (code, res) ->
        Command.decode_payload res = Ok data ->
        fst (Command.read remote st) = Ok (code, data))
    /\ Command.done (Command.self (snd (Command.read remote st))) = true
    /\ (forall data,
          fst (Command.write remote data st)
          = remote (List.length (Command.sent st))
              (Command.commandPush (Command.cid (Command.self st))
                 (Base64.b64encode_str data)))
    /\ (forall data,
          Command.done (Command.self (snd (Command.write remote data st))) = true)
    /\ (forall n,
          fst (Command.signal remote (Command.SigInt n) st)
          = remote (List.length (Command.sent st))
              (Command.commandSignal (Command.cid (Command.self st)) n))
    /\ (forall s,
          Command.done (Command.self (snd (Command.signal remote s st))) = true).
Proof.
  intros remote st Hdone.
  split; [| split; [| split; [| split; [| split]]]].
  - intros code res data Hpoll Hdec.
    unfold Command.read, Command.service. rewrite Hpoll; simpl.
    now rewrite Hdec.
  - now apply done_read.
  - intros data. unfold Command.write, Command.service.
    destruct (remote _ _) as [[code res] | e]; reflexivity.
  - intros data. now apply done_write.
  - intros n. unfold Command.signal, Command.service; simpl.
    destruct (remote _ _) as [[code res] | e]; reflexivity.
  - intros s. now apply done_signal.
Qed.

Lemma C6_witness :
  fst (Command.read lively_remote (snd (Command.stop lively_remote (fresh_session "c1"))))
  = Ok (200%Z, SStr "fresh").
Proof.
  apply (proj1 (C6_calls_after_done_reach_the_remote lively_remote
                  (snd (Command.stop lively_remote (fresh_session "c1")))
                  eq_refl) 200%Z (SStr "fresh") (SStr "fresh"));
    reflexivity.
Defined.

(** After [stop()] the session is done, and [read] and [next] still return
    new output with the success status. *)
Lemma C6_counterexample :
  Command.done
    (Command.self (snd (Command.stop lively_remote (fresh_session "c1")))) = true
  /\ fst (Command.read lively_remote
            (snd (Command.stop lively_remote (fresh_session "c1"))))
     = Ok (200%Z, SStr "fresh")
  /\ fst (Command.next lively_remote
            (snd (Command.stop lively_remote (fresh_session "c1"))))
     = Ok (SStr "fresh").
Proof. repeat split. Qed.

(** ** Dictionaries *)

Section DictFacts.
Variables K V : Type.
Variable eqb : K -> K -> bool.
Hypothesis eqb_eq : forall a b, eqb a b = true <-> a = b.

Lemma dict_set_fresh (k : K) (v : V) (d : dict K V) :
  ~ In k (map fst d) -> dict_set eqb k v d = d ++ [(k, v)].
Proof.
  induction d as [| [k' v'] d IH]; simpl; intros Hnot; auto.
  destruct (eqb k k') eqn:E.
  - apply eqb_eq in E. subst. exfalso; auto.
  - f_equal. apply IH. tauto.
Qed.

Lemma fold_dict_set_nodup (items acc : list (K * V)) :
  NoDup (map fst (acc ++ items)) ->
  fold_left (fun d kv => dict_set eqb (fst kv) (snd kv) d) items acc
  = acc ++ items.
Proof.
  revert acc; induction items as [| [k v] items IH]; intros acc Hnd; simpl.
  - now rewrite app_nil_r.
  - rewrite dict_set_fresh.
    + rewrite IH; rewrite <- app_assoc; auto.
    + rewrite map_app in Hnd; simpl in Hnd.
      apply NoDup_remove_2 in Hnd. intros Hin; apply Hnd.
      apply in_or_app; auto.
Qed.

(** A list of items with distinct keys is stored as it is. *)
Lemma dict_of_items_nodup (items : list (K * V)) :
  NoDup (map fst items) -> dict_of_items eqb items = items.
Proof. intros H. unfold dict_of_items. now rewrite fold_dict_set_nodup. Qed.

End DictFacts.

Lemma node_eqb_eq (a b : Node) : node_eqb a b = true <-> a = b.
Proof.
  unfold node_eqb. destruct (Node_eq_dec a b); split; congruence.
Qed.

(** ** The dispatcher *)

Section DispatchFacts.
Variables K Arg V : Type.
Variable k_eqb : K -> K -> bool.
Variable set_iter : list (Util.Future V) -> list (Util.Future V).
Hypothesis set_iter_perm : forall l, Permutation (set_iter l) l.

Lemma submit_all_id_lower (tasks : list (K * Util.task Arg V)) :
  forall (id : nat) (f : Util.Future V) (k : K),
    In (f, k) (Util.submit_all id tasks) -> id <= Util.future_id f.
Proof.
  induction tasks as [| [k0 v0] tasks IH]; simpl; intros id f k H; [easy |].
  destruct H as [H | H].
  - inversion H; subst; simpl; lia.
  - apply IH in H. lia.
Qed.

(** [futures[future]] finds the key the future was submitted for. *)
Lemma dict_get_submit_all (tasks : list (K * Util.task Arg V)) :
  forall (id : nat) (f : Util.Future V) (k : K),
    In (f, k) (Util.submit_all id tasks) ->
    dict_get (@Util.future_eqb V) f (Util.submit_all id tasks) = Some k.
Proof.
  induction tasks as [| [k0 v0] tasks IH]; simpl; intros id f k H; [easy |].
  destruct H as [H | H].
  - inversion H; subst. unfold Util.future_eqb; simpl.
    now rewrite Nat.eqb_refl.
  - pose proof (submit_all_id_lower _ _ _ _ H) as Hid.
    unfold Util.future_eqb at 1; simpl.
    destruct (Nat.eqb_spec (Util.future_id f) id); [lia |].
    now apply IH.
Qed.

Lemma submit_all_keys (tasks : list (K * Util.task Arg V)) (id : nat) :
  map snd (Util.submit_all id tasks) = map fst tasks.
Proof.
  revert id; induction tasks as [| [k v] tasks IH]; intros id; simpl; auto.
  now rewrite IH.
Qed.

Lemma submit_all_in (tasks : list (K * Util.task Arg V)) :
  forall (id : nat) (k : K) (v : Util.task Arg V),
    In (k, v) tasks ->
    exists f, In (f, k) (Util.submit_all id tasks)
              /\ Util.outcome f = Util.run v.
Proof.
  induction tasks as [| [k0 v0] tasks IH]; simpl; intros id k v H; [easy |].
  destruct H as [H | H].
  - inversion H; subst. eexists; split; [left; reflexivity | reflexivity].
  - destruct (IH (S id) k v H) as (f & Hin & Hout). eauto.
Qed.

Lemma submit_all_from (tasks : list (K * Util.task Arg V)) :
  forall (id : nat) (f : Util.Future V) (k : K),
    In (f, k) (Util.submit_all id tasks) ->
    exists v, In (k, v) tasks /\ Util.outcome f = Util.run v.
Proof.
  induction tasks as [| [k0 v0] tasks IH]; simpl; intros id f k H; [easy |].
  destruct H as [H | H].
  - inversion H; subst. eauto.
  - destruct (IH (S id) f k H) as (v & Hin & Hout). eauto.
Qed.

(** When every future of [done] holds a value, [collect] stores them all. *)
Lemma collect_all_ok (futures : list (Util.Future V * K)) :
  forall (dp : list (Util.Future V * K)) (acc : dict K V),
    (forall f k, In (f, k) dp ->
       dict_get (@Util.future_eqb V) f futures = Some k) ->
    (forall f k, In (f, k) dp -> exists v, Util.outcome f = Ok v) ->
    exists items,
      Util.collect k_eqb futures (map fst dp) acc
      = Ok (fold_left (fun d kv => dict_set k_eqb (fst kv) (snd kv) d) items acc)
      /\ Forall2 (fun fk kv => snd fk = fst kv
                               /\ Util.outcome (fst fk) = Ok (snd kv)) dp items.
Proof.
  induction dp as [| [f k] dp IH]; intros acc Hget Hok; simpl.
  - exists []; split; [reflexivity | constructor].
  - rewrite (Hget f k (or_introl eq_refl)).
    destruct (Hok f k (or_introl eq_refl)) as [v Hv]. rewrite Hv.
    destruct (IH (dict_set k_eqb k v acc)) as (items & Hc & Hf).
    + intros; apply Hget; now right.
    + intros; eapply Hok; right; eauto.
    + exists ((k, v) :: items); split; [exact Hc |].
      constructor; auto.
Qed.

(** When a future of [done] holds an exception, [collect] raises the
    exception of one of them. *)
Lemma collect_raises (futures : list (Util.Future V * K)) :
  forall (dp : list (Util.Future V * K)) (acc : dict K V),
    (forall f k, In (f, k) dp ->
       dict_get (@Util.future_eqb V) f futures = Some k) ->
    (exists f k e, In (f, k) dp /\ Util.outcome f = Raise e) ->
    exists f k e, In (f, k) dp /\ Util.outcome f = Raise e
                  /\ Util.collect k_eqb futures (map fst dp) acc = Raise e.
Proof.
  induction dp as [| [f k] dp IH]; intros acc Hget Hex; simpl.
  - destruct Hex as (? & ? & ? & [] & _).
  - rewrite (Hget f k (or_introl eq_refl)).
    destruct (Util.outcome f) as [v | e] eqn:Hout.
    + destruct (IH (dict_set k_eqb k v acc)) as (f' & k' & e' & Hin & Ho & Hc).
      * intros; apply Hget; now right.
      * destruct Hex as (f' & k' & e' & [Heq | Hin] & Ho).
        -- inversion Heq; subst. congruence.
        -- eauto.
      * exists f', k', e'; auto.
    + exists f, k, e; auto.
Qed.

(** The set [done], with the key of each of its futures. *)
Lemma done_pairs (tasks : dict K (Util.task Arg V)) :
  exists dp,
    set_iter (map fst (Util.submit_all 0 tasks)) = map fst dp
    /\ Permutation (Util.submit_all 0 tasks) dp.
Proof. apply Permutation_map_inv, set_iter_perm. Qed.

Lemma async_dispatch_raises (tasks : dict K (Util.task Arg V)) :
  (exists k v e, In (k, v) tasks /\ Util.run v = Raise e) ->
  exists k v e, In (k, v) tasks /\ Util.run v = Raise e
                /\ Util.async_dispatch k_eqb set_iter tasks = Raise e.
Proof.
  intros (k & v & e & Hin & Hrun).
  unfold Util.async_dispatch.
  destruct (done_pairs tasks) as (dp & Hdone & Hperm). rewrite Hdone.
  destruct (submit_all_in tasks 0 k v Hin) as (f & Hf & Hout).
  destruct (collect_raises (Util.submit_all 0 tasks) dp [])
    as (f' & k' & e' & Hin' & Ho' & Hc).
  - intros f0 k0 H0. apply dict_get_submit_all.
    eapply Permutation_in; [symmetry; exact Hperm | exact H0].
  - exists f, k, e; split; [| congruence].
    eapply Permutation_in; eauto.
  - apply (Permutation_in _ (Permutation_sym Hperm)) in Hin'.
    destruct (submit_all_from tasks 0 f' k' Hin') as (v' & Hv' & Hout').
    exists k', v', e'; repeat split; auto. congruence.
Qed.

Lemma async_dispatch_ok_only_if (tasks : dict K (Util.task Arg V))
    (m : dict K V) :
  Util.async_dispatch k_eqb set_iter tasks = Ok m ->
  forall k v, In (k, v) tasks -> exists r, Util.run v = Ok r.
Proof.
  intros Hok k v Hin.
  destruct (Util.run v) as [r | e] eqn:Hrun; [eauto |].
  destruct (async_dispatch_raises tasks) as (k' & v' & e' & _ & _ & Hc).
  - exists k, v, e; auto.
  - congruence.
Qed.

Hypothesis k_eqb_eq : forall a b, k_eqb a b = true <-> a = b.

(** With distinct keys and jobs that all return, the result holds one item
    per task: the task's key with the value its job returned. *)
Lemma async_dispatch_complete (tasks : dict K (Util.task Arg V)) :
  NoDup (map fst tasks) ->
  (forall k v, In (k, v) tasks -> exists r, Util.run v = Ok r) ->
  exists m,
    Util.async_dispatch k_eqb set_iter tasks = Ok m
    /\ Permutation (map fst m) (map fst tasks)
    /\ (forall k v, In (k, v) tasks ->
          exists r, Util.run v = Ok r /\ In (k, r) m).
Proof.
  intros Hnd Hall.
  unfold Util.async_dispatch.
  destruct (done_pairs tasks) as (dp & Hdone & Hperm). rewrite Hdone.
  destruct (collect_all_ok (Util.submit_all 0 tasks) dp [])
    as (items & Hc & Hf).
  - intros f0 k0 H0. apply dict_get_submit_all.
    eapply Permutation_in; [symmetry; exact Hperm | exact H0].
  - intros f k Hin.
    apply (Permutation_in _ (Permutation_sym Hperm)) in Hin.
    destruct (submit_all_from tasks 0 f k Hin) as (v & Hv & Hout).
    destruct (Hall k v Hv) as [r Hr]. exists r; congruence.
  - assert (Hkeys : map fst items = map snd dp).
    { clear -Hf. induction Hf as [| fk kv dp items [H1 _] _ IH]; simpl; auto.
      now rewrite IH, H1. }
    assert (Hpk : Permutation (map fst items) (map fst tasks)).
    { rewrite Hkeys, <- (submit_all_keys tasks 0).
      apply Permutation_map. now symmetry. }
    assert (Hndi : NoDup (map fst items)).
    { eapply Permutation_NoDup; [symmetry; exact Hpk | exact Hnd]. }
    exists items. split; [| split]; auto.
    + rewrite Hc. f_equal.
      now apply (fold_dict_set_nodup K V k_eqb k_eqb_eq items []).
    + intros k v Hin.
      destruct (submit_all_in tasks 0 k v Hin) as (f & Hfin & Hout).
      apply (Permutation_in _ Hperm) in Hfin.
      clear -Hf Hfin Hout.
      induction Hf as [| fk kv dp items [H1 H2] _ IH]; [easy |].
      destruct Hfin as [-> | Hfin].
      * simpl in *. exists (snd kv). split; [congruence |].
        left. destruct kv; simpl in *; congruence.
      * destruct (IH Hfin) as (r & Hr & Hin). exists r; split; auto.
        now right.
Qed.

End DispatchFacts.

(** C10: when a job of the batch raises, [async_dispatch] raises the
    exception of one of the raising jobs and returns no mapping; it returns a
    mapping only when every job returned a value. *)
Theorem C10_task_exception_propagates :
  forall (K Arg V : Type) (k_eqb : K -> K -> bool)
         (set_iter : list (Util.Future V) -> list (Util.Future V)),
    (forall l, Permutation (set_iter l) l) ->
    forall tasks : dict K (Util.task Arg V),
      ((exists k v e, In (k, v) tasks /\ Util.run v = Raise e) ->
       exists k v e, In (k, v) tasks /\ Util.run v = Raise e
                     /\ Util.async_dispatch k_eqb set_iter tasks = Raise e)
      /\
      (forall m, Util.async_dispatch k_eqb set_iter tasks = Ok m ->
                 forall k v, In (k, v) tasks -> exists r, Util.run v = Ok r).
Proof.
  intros K Arg V k_eqb set_iter Hperm tasks; split.
  - now apply async_dispatch_raises.
  - intros m. now apply async_dispatch_ok_only_if.
Qed.

Lemma rev_is_permutation (A : Type) (l : list A) : Permutation (rev l) l.
Proof. symmetry; apply Permutation_rev. Qed.

Lemma C10_witness :
  exists k v e,
    In (k, v) example_tasks /\ Util.run v = Raise e
    /\ Util.async_dispatch String.eqb (@rev _) example_tasks = Raise e.
Proof.
  apply (proj1 (C10_task_exception_propagates string unit Z String.eqb
                  (@rev _) (rev_is_permutation _) example_tasks)).
  exists "b"%string, (Util.Task2 (fun _ _ => Raise ValueError) [tt]), ValueError.
  split; [right; left; reflexivity | reflexivity].
Defined.

(** ** Natural order and sorting *)

Lemma lex_compare_antisym (A : Type) (cmp : A -> A -> comparison) :
  (forall x y, cmp x y = CompOpp (cmp y x)) ->
  forall a b,
    Natsort.lex_compare cmp a b = CompOpp (Natsort.lex_compare cmp b a).
Proof.
  intros Hcmp; induction a as [| x a IH]; destruct b as [| y b]; simpl; auto.
  rewrite (Hcmp x y). destruct (cmp y x); simpl; auto.
Qed.

Lemma chunk_compare_antisym (a b : Natsort.chunk) :
  Natsort.chunk_compare a b = CompOpp (Natsort.chunk_compare b a).
Proof.
  destruct a, b; simpl; auto.
  - apply String.compare_antisym.
  - apply N.compare_antisym.
Qed.

Lemma key_compare_antisym (a b : list (list Natsort.chunk)) :
  Natsort.key_compare a b = CompOpp (Natsort.key_compare b a).
Proof.
  apply lex_compare_antisym, lex_compare_antisym, chunk_compare_antisym.
Qed.

Lemma key_lt_asym (a b : list (list Natsort.chunk)) :
  Natsort.key_lt a b = true -> Natsort.key_lt b a = false.
Proof.
  unfold Natsort.key_lt. rewrite (key_compare_antisym b a).
  destruct (Natsort.key_compare a b); simpl; congruence.
Qed.

Section SortFacts.
Variable A : Type.
Variable key : A -> list (list Natsort.chunk).

Lemma insert_perm (x : A) (l : list A) :
  Permutation (Natsort.insert key x l) (x :: l).
Proof.
  induction l as [| y l IH]; simpl; auto.
  destruct (Natsort.key_lt (key y) (key x)); auto.
  rewrite IH. apply perm_swap.
Qed.

Lemma sort_perm (l : list A) : Permutation (Natsort.sort key l) l.
Proof.
  induction l as [| x l IH]; simpl; auto.
  rewrite insert_perm. now constructor.
Qed.

Lemma insert_hdrel (a x : A) (l : list A) :
  (key_le key) a x -> HdRel (key_le key) a l -> HdRel (key_le key) a (Natsort.insert key x l).
Proof.
  intros Hax Hal. destruct l as [| y l]; simpl.
  - now constructor.
  - destruct (Natsort.key_lt (key y) (key x)); constructor; auto.
    now inversion Hal.
Qed.

Lemma insert_sorted (x : A) (l : list A) :
  Sorted (key_le key) l -> Sorted (key_le key) (Natsort.insert key x l).
Proof.
  induction 1 as [| y l Hs IH Hhd]; simpl.
  - repeat constructor.
  - destruct (Natsort.key_lt (key y) (key x)) eqn:E.
    + constructor; auto. apply insert_hdrel; auto.
      unfold key_le. now apply key_lt_asym.
    + repeat constructor; auto.
Qed.

Lemma sort_sorted (l : list A) : Sorted (key_le key) (Natsort.sort key l).
Proof.
  induction l as [| x l IH]; simpl; [constructor | now apply insert_sorted].
Qed.

End SortFacts.

Lemma nodesort_is_sort (V : Type) (nodes : dict Node V) :
  NoDup (map fst nodes) ->
  Util.nodesort nodes = Natsort.sort (@item_key V) nodes.
Proof.
  intros Hnd. unfold Util.nodesort, Natsort.natsorted.
  apply (dict_of_items_nodup Node V node_eqb node_eqb_eq).
  eapply Permutation_NoDup; [| exact Hnd].
  apply Permutation_map. symmetry. apply sort_perm.
Qed.

(** *** The comparison of keys is a total order *)

Lemma total_comparison_refl (A : Type) (cmp : A -> A -> comparison) :
  total_comparison cmp -> forall x, cmp x x = Eq.
Proof.
  intros (Hanti & _ & _) x. specialize (Hanti x x).
  destruct (cmp x x); simpl in Hanti; congruence.
Qed.

Lemma lex_compare_total (A : Type) (cmp : A -> A -> comparison) :
  total_comparison cmp -> total_comparison (Natsort.lex_compare cmp).
Proof.
  intros Hc. pose proof Hc as (Hanti & Heq & Htrans).
  split; [| split].
  - now apply lex_compare_antisym.
  - induction x as [| a x IH]; destruct y as [| b y]; simpl;
      try discriminate; auto.
    destruct (cmp a b) eqn:E; try discriminate.
    intros H. apply Heq in E. apply IH in H. congruence.
  - induction x as [| a x IH]; destruct y as [| b y]; destruct z as [| c z];
      simpl; try discriminate; auto.
    destruct (cmp a b) eqn:Eab; try discriminate;
      destruct (cmp b c) eqn:Ebc; try discriminate; intros H1 H2.
    + apply Heq in Eab, Ebc; subst.
      rewrite (total_comparison_refl _ _ Hc c). eauto.
    + apply Heq in Eab; subst. now rewrite Ebc.
    + apply Heq in Ebc; subst. now rewrite Eab.
    + now rewrite (Htrans _ _ _ Eab Ebc).
Qed.

Lemma N_compare_total : total_comparison N.compare.
Proof.
  split; [| split].
  - intros; apply N.compare_antisym.
  - intros x y; apply N.compare_eq.
  - intros x y z. rewrite !N.compare_lt_iff. apply N.lt_trans.
Qed.

Lemma ascii_compare_total : total_comparison Ascii.compare.
Proof.
  split; [| split].
  - apply Ascii.compare_antisym.
  - apply Ascii.compare_eq_iff.
  - intros x y z. unfold Ascii.compare.
    rewrite !N.compare_lt_iff. apply N.lt_trans.
Qed.

Lemma string_compare_as_lex (s t : string) :
  String.compare s t
  = Natsort.lex_compare Ascii.compare
      (list_ascii_of_string s) (list_ascii_of_string t).
Proof.
  revert t; induction s as [| a s IH]; destruct t as [| b t]; simpl; auto.
  rewrite IH. reflexivity.
Qed.

Lemma string_compare_total : total_comparison String.compare.
Proof.
  destruct (lex_compare_total _ _ ascii_compare_total) as (_ & _ & Htrans).
  split; [| split].
  - apply String.compare_antisym.
  - apply String.compare_eq_iff.
  - intros x y z. rewrite !string_compare_as_lex. apply Htrans.
Qed.

Lemma chunk_compare_total : total_comparison Natsort.chunk_compare.
Proof.
  destruct string_compare_total as (_ & Hseq & Hstr).
  destruct N_compare_total as (_ & Hneq & Hntr).
  split; [| split].
  - apply chunk_compare_antisym.
  - intros [s | m] [t | n]; simpl; try discriminate; intros H.
    + f_equal; auto.
    + f_equal; auto.
  - intros [s | m] [t | n] [u | p]; simpl; try discriminate; eauto.
Qed.

Lemma key_compare_total : total_comparison Natsort.key_compare.
Proof. apply lex_compare_total, lex_compare_total, chunk_compare_total. Qed.

Section SortedUnique.
Variable A : Type.
Variable key : A -> list (list Natsort.chunk).

Lemma key_le_compare (a b : A) :
  key_le key a b <-> Natsort.key_compare (key a) (key b) <> Gt.
Proof.
  unfold key_le, Natsort.key_lt.
  rewrite (key_compare_antisym (key b) (key a)).
  destruct (Natsort.key_compare (key a) (key b)); simpl;
    split; congruence.
Qed.

Lemma key_le_trans (a b c : A) :
  key_le key a b -> key_le key b c -> key_le key a c.
Proof.
  destruct key_compare_total as (_ & Heq & Htr).
  rewrite !key_le_compare. intros Hab Hbc.
  destruct (Natsort.key_compare (key a) (key b)) eqn:Eab; [| | congruence].
  - apply Heq in Eab. now rewrite Eab.
  - destruct (Natsort.key_compare (key b) (key c)) eqn:Ebc; [| | congruence].
    + apply Heq in Ebc. rewrite <- Ebc, Eab. discriminate.
    + rewrite (Htr _ _ _ Eab Ebc). discriminate.
Qed.

Lemma sort_strongly_sorted (l : list A) :
  StronglySorted (key_le key) (Natsort.sort key l).
Proof.
  apply Sorted_StronglySorted; [| apply sort_sorted].
  intros a b c. apply key_le_trans.
Qed.

(** Two sorted arrangements of the same items are the same list when no
    two of the items have the same key. *)
Lemma sorted_unique (l1 : list A) :
  forall l2 : list A,
    StronglySorted (key_le key) l1 ->
    StronglySorted (key_le key) l2 ->
    Permutation l1 l2 ->
    (forall a b, In a l1 -> In b l1 ->
       Natsort.key_compare (key a) (key b) = Eq -> a = b) ->
    l1 = l2.
Proof.
  induction l1 as [| x l1 IH]; intros l2 Hs1 Hs2 Hp Hdist.
  - apply Permutation_nil in Hp. now subst.
  - destruct l2 as [| y l2].
    + symmetry in Hp. apply Permutation_nil in Hp. discriminate.
    + apply StronglySorted_inv in Hs1, Hs2.
      destruct Hs1 as [Hs1 Hx], Hs2 as [Hs2 Hy].
      rewrite Forall_forall in Hx, Hy.
      assert (Hxy : x = y).
      { assert (Hin1 : In x (y :: l2))
          by (eapply Permutation_in; [exact Hp | now left]).
        assert (Hin2 : In y (x :: l1))
          by (eapply Permutation_in; [symmetry; exact Hp | now left]).
        destruct Hin1 as [-> | Hin1]; auto.
        destruct Hin2 as [-> | Hin2]; auto.
        apply Hdist; [now left | now right |].
        pose proof (proj1 (key_le_compare _ _) (Hx y Hin2)) as H1.
        pose proof (proj1 (key_le_compare _ _) (Hy x Hin1)) as H2.
        rewrite (key_compare_antisym (key y) (key x)) in H2.
        destruct (Natsort.key_compare (key x) (key y)); simpl in *;
          congruence. }
      subst y. f_equal.
      apply IH; auto.
      * eapply Permutation_cons_inv; eauto.
      * intros a b Ha Hb. apply Hdist; now right.
Qed.

Lemma sort_order_independent (l1 l2 : list A) :
  Permutation l1 l2 ->
  (forall a b, In a l1 -> In b l1 ->
     Natsort.key_compare (key a) (key b) = Eq -> a = b) ->
  Natsort.sort key l1 = Natsort.sort key l2.
Proof.
  intros Hp Hdist.
  apply sorted_unique; try apply sort_strongly_sorted.
  - rewrite !sort_perm. exact Hp.
  - intros a b Ha Hb.
    apply Hdist;
      [apply (Permutation_in _ (sort_perm _ key l1) Ha)
      | apply (Permutation_in _ (sort_perm _ key l1) Hb)].
Qed.

End SortedUnique.

(** *** Numbers inside names *)

Lemma string_append_nil_r (s : string) : (s ++ "")%string = s.
Proof. induction s as [| c s IH]; simpl; congruence. Qed.

Lemma string_append_assoc (a b c : string) :
  ((a ++ b) ++ c)%string = (a ++ (b ++ c))%string.
Proof. induction a as [| x a IH]; simpl; congruence. Qed.

Lemma scan_no_digit (p : string) :
  forall (rest acc : string),
    no_digit p = true ->
    Natsort.scan (p ++ rest) (Natsort.InStr acc)
    = Natsort.scan rest (Natsort.InStr (acc ++ p)).
Proof.
  induction p as [| c p IH]; intros rest acc H; simpl in *.
  - now rewrite string_append_nil_r.
  - destruct (Natsort.digit_of c); [discriminate |].
    rewrite IH by assumption.
    now rewrite string_append_assoc.
Qed.

Lemma scan_digits (ds : string) :
  forall n : N,
    all_digits ds = true ->
    Natsort.scan ds (Natsort.InNum n) = [Natsort.CNum (number_of ds n)].
Proof.
  induction ds as [| c ds IH]; intros n H; simpl in *; auto.
  destruct (Natsort.digit_of c); [| discriminate]. now apply IH.
Qed.

(** A name made of a prefix without digits and a number has the key
    [(prefix, number)]. *)
Lemma natsort_key_prefix_number (p ds : string) :
  no_digit p = true -> all_digits ds = true -> ds <> EmptyString ->
  Natsort.natsort_key (p ++ ds)
  = [Natsort.CStr p; Natsort.CNum (number_of ds 0)].
Proof.
  intros Hp Hd Hne. unfold Natsort.natsort_key.
  rewrite scan_no_digit by assumption. simpl.
  destruct ds as [| c ds]; [congruence |]. simpl in *.
  destruct (Natsort.digit_of c); [| discriminate].
  now rewrite scan_digits.
Qed.

Lemma numbered_names_compare_by_value (V : Type) (c : Cluster)
    (p ds1 ds2 : string) (id1 id2 : nat) (v1 v2 : V) :
  no_digit p = true ->
  all_digits ds1 = true -> ds1 <> EmptyString ->
  all_digits ds2 = true -> ds2 <> EmptyString ->
  Natsort.key_lt
    (item_key ({| node_id := id1; name := p ++ ds1; cluster := c |}, v1))
    (item_key ({| node_id := id2; name := p ++ ds2; cluster := c |}, v2))
  = (number_of ds1 0 <? number_of ds2 0)%N.
Proof.
  intros Hp H1 N1 H2 N2.
  unfold item_key, Natsort.key_lt, Natsort.key_compare; simpl.
  rewrite (total_comparison_refl _ _
             (lex_compare_total _ _ chunk_compare_total)).
  rewrite !natsort_key_prefix_number by assumption. simpl.
  rewrite (total_comparison_refl _ _ string_compare_total).
  unfold N.ltb. now destruct (number_of ds1 0 ?= number_of ds2 0)%N.
Qed.

Lemma four_nodes_no_tie (V : Type) (a b c d : V) :
  forall x y : Node * V,
    In x [(node1, a); (node2, b); (node10, c); (node20, d)] ->
    In y [(node1, a); (node2, b); (node10, c); (node20, d)] ->
    Natsort.key_compare (item_key x) (item_key y) = Eq -> x = y.
Proof.
  intros x y Hx Hy.
  simpl in Hx, Hy.
  destruct Hx as [<- | [<- | [<- | [<- | []]]]];
    destruct Hy as [<- | [<- | [<- | [<- | []]]]];
    intros H; try reflexivity; vm_compute in H; discriminate.
Qed.


Lemma shuffled_four :
  Permutation
    [(node10, 3%Z); (node2, 2%Z); (node20, 4%Z); (node1, 1%Z)]
    [(node1, 1%Z); (node2, 2%Z); (node10, 3%Z); (node20, 4%Z)].
Proof.
  apply (Permutation_cons_app [(node1, 1%Z); (node2, 2%Z)] [(node20, 4%Z)]).
  apply (Permutation_cons_app [(node1, 1%Z)] [(node20, 4%Z)]).
  apply perm_swap.
Defined.


(** Plain character order would put node10 before node2. *)
Example lexicographic_order_differs :
  String.ltb "node10" "node2" = true
  /\ Natsort.key_lt [Natsort.natsort_key "node10"] [Natsort.natsort_key "node2"]
     = false.
Proof. split; reflexivity. Qed.

(** ** The fan-out proxy *)

(** C2 (as amended): for distinct nodes whose calls all return a result, a
    success or a failure such as [(0, None)], the fan-out returns a mapping
    with exactly one entry per node, holding that node's result; when the
    call of some node raises, the fan-out raises the exception of one of
    the raising calls and returns no mapping. *)
Theorem C2_fanout_one_entry_per_node :
  forall (Arg : Type)
         (service : Node -> string -> list Arg -> list (string * Arg)
                    -> result call_result)
         (set_iter : list (Util.Future call_result)
                     -> list (Util.Future call_result))
         (nodelist : list Node) (name : string)
         (args : list Arg) (kwargs : list (string * Arg)),
    (forall l, Permutation (set_iter l) l) ->
    NoDup nodelist ->
    ((forall node, In node nodelist ->
        exists r, service node name args kwargs = Ok r) ->
     exists m,
       NodeListSoapProxy._soap_proxy_executor service set_iter nodelist name
         args kwargs
       = Ok m
       /\ List.length m = List.length nodelist
       /\ Permutation (map fst m) nodelist
       /\ NoDup (map fst m)
       /\ (forall node, In node nodelist ->
             exists r, service node name args kwargs = Ok r /\ In (node, r) m))
    /\
    ((exists node e,
         In node nodelist /\ service node name args kwargs = Raise e) ->
     exists node e,
       In node nodelist /\ service node name args kwargs = Raise e
       /\ NodeListSoapProxy._soap_proxy_executor service set_iter nodelist name
            args kwargs
          = Raise e).
Proof.
  intros Arg service set_iter nodelist name args kwargs Hperm Hnd.
  unfold NodeListSoapProxy._soap_proxy_executor.
  set (items := map (fun node => (node, Util.Task3 (service node name) args kwargs))
                    nodelist).
  assert (Hkeys : map fst items = nodelist).
  { unfold items. rewrite map_map; simpl. apply map_id. }
  rewrite (dict_of_items_nodup Node _ node_eqb node_eqb_eq items)
    by (rewrite Hkeys; exact Hnd).
  split.
  - intros Hall.
    destruct (async_dispatch_complete Node Arg call_result node_eqb set_iter
                Hperm node_eqb_eq items) as (m & Hm & Hpk & Hin).
    + rewrite Hkeys; exact Hnd.
    + intros k v Hkv. subst items. apply in_map_iff in Hkv.
      destruct Hkv as (node & Heq & Hnode). inversion Heq; subst.
      simpl. now apply Hall.
    + rewrite Hm; simpl.
      rewrite Hkeys in Hpk.
      assert (Hndm : NoDup (map fst m)).
      { eapply Permutation_NoDup; [symmetry; exact Hpk | exact Hnd]. }
      assert (Hsp : Permutation (Util.nodesort m) m).
      { rewrite nodesort_is_sort by assumption. apply sort_perm. }
      exists (Util.nodesort m). split; [reflexivity |].
      assert (Hsk : Permutation (map fst (Util.nodesort m)) nodelist).
      { rewrite <- Hpk. now apply Permutation_map. }
      split; [| split; [| split]].
      * rewrite <- (length_map fst), (Permutation_length Hsk). reflexivity.
      * exact Hsk.
      * eapply Permutation_NoDup; [symmetry; exact Hsk | exact Hnd].
      * intros node Hnode.
        destruct (Hin node (Util.Task3 (service node name) args kwargs))
          as (r & Hr & Hrin).
        -- subst items. apply in_map_iff. now exists node.
        -- exists r; split; [exact Hr |].
           eapply Permutation_in; [symmetry; exact Hsp | exact Hrin].
  - intros (node & e & Hnode & Hraise).
    destruct (async_dispatch_raises Node Arg call_result node_eqb set_iter
                Hperm items) as (k & v & e' & Hkv & Hrun & Hdisp).
    + exists node, (Util.Task3 (service node name) args kwargs), e. split.
      * subst items. apply in_map_iff. now exists node.
      * exact Hraise.
    + subst items. apply in_map_iff in Hkv.
      destruct Hkv as (node' & Heq & Hnode').
      injection Heq as Hk Hv. subst k v.
      exists node', e'. split; [exact Hnode' |]. split; [exact Hrun |].
      rewrite Hdisp. reflexivity.
Qed.

Lemma C2_witness :
  (exists m,
     NodeListSoapProxy._soap_proxy_executor example_service (@rev _)
       [node10; node2; node20; node1] "getTime" [] [] = Ok m
     /\ List.length m = 4
     /\ Permutation (map fst m) [node10; node2; node20; node1]
     /\ NoDup (map fst m)
     /\ (forall node, In node [node10; node2; node20; node1] ->
           exists r, example_service node "getTime" [] [] = Ok r
                     /\ In (node, r) m))
  /\
  (exists node e,
     In node [node10; node2; node20; node1]
     /\ redirecting_service node "getTime" [] [] = Raise e
     /\ NodeListSoapProxy._soap_proxy_executor redirecting_service (@rev _)
          [node10; node2; node20; node1] "getTime" [] []
        = Raise e).
Proof.
  assert (Hrev : forall l : list (Util.Future call_result),
             Permutation (rev l) l)
    by (intros l; symmetry; apply Permutation_rev).
  assert (Hnd : NoDup [node10; node2; node20; node1])
    by (repeat constructor; simpl; intuition discriminate).
  split.
  - apply (proj1 (C2_fanout_one_entry_per_node unit example_service (@rev _)
                    [node10; node2; node20; node1] "getTime"%string [] []
                    Hrev Hnd)).
    intros node Hin. simpl in Hin.
    destruct Hin as [<- | [<- | [<- | [<- | []]]]]; eexists; reflexivity.
  - apply (proj2 (C2_fanout_one_entry_per_node unit redirecting_service
                    (@rev _) [node10; node2; node20; node1]
                    "getTime"%string [] [] Hrev Hnd)).
    exists node2, (RequestsExc Requests.TooManyRedirects).
    split; [right; left; reflexivity | reflexivity].
Defined.

(** The same batch computed: the node whose connection is refused has the
    entry [(0, None)], and the entries come out in natural order. *)
Example fanout_with_one_refused_connection :
  NodeListSoapProxy._soap_proxy_executor example_service (@rev _)
    [node10; node2; node20; node1] "getTime" [] []
  = Ok [(node1, (200%Z, SStr "<ok/>"));
        (node2, (0%Z, SNone));
        (node10, (200%Z, SStr "<ok/>"));
        (node20, (200%Z, SStr "<ok/>"))].
Proof. vm_compute. reflexivity. Qed.

(** A batch of four distinct nodes in which the call of one node fails
    with an exception that the single-node proxy does not catch: the
    fan-out raises it, and no mapping with four entries, nor any other, is
    returned. *)
Lemma C2_counterexample :
  NoDup [node10; node2; node20; node1]
  /\ NodeListSoapProxy._soap_proxy_executor redirecting_service (@rev _)
       [node10; node2; node20; node1] "getTime" [] []
     = Raise (RequestsExc Requests.TooManyRedirects)
  /\ ~ (exists m,
          NodeListSoapProxy._soap_proxy_executor redirecting_service (@rev _)
            [node10; node2; node20; node1] "getTime" [] []
          = Ok m
          /\ List.length m = 4).
Proof.
  assert (H : NodeListSoapProxy._soap_proxy_executor redirecting_service
                (@rev _) [node10; node2; node20; node1] "getTime" [] []
              = Raise (RequestsExc Requests.TooManyRedirects))
    by (vm_compute; reflexivity).
  split; [| split].
  - repeat constructor; simpl; intuition discriminate.
  - exact H.
  - intros (m & Hm & _). rewrite H in Hm. discriminate.
Qed.

(** ** Bit operations as arithmetic *)

Ltac nlia := zify; Z.to_euclidean_division_equations; lia.

Lemma land_shiftl_low (x y k : N) :
  (y < 2 ^ k)%N -> N.land (N.shiftl x k) y = 0%N.
Proof.
  intros H. apply N.bits_inj. intros n. rewrite N.land_spec, N.bits_0.
  destruct (N.lt_ge_cases n k) as [Hn | Hn].
  - now rewrite N.shiftl_spec_low.
  - rewrite <- (N.mod_small y (2 ^ k)) by assumption.
    rewrite N.mod_pow2_bits_high by assumption. apply Bool.andb_false_r.
Qed.

Lemma lor_shiftl_low (x y k : N) :
  (y < 2 ^ k)%N -> N.lor (N.shiftl x k) y = (x * 2 ^ k + y)%N.
Proof.
  intros H. rewrite <- N.lxor_lor by now apply land_shiftl_low.
  rewrite <- N.add_nocarry_lxor by now apply land_shiftl_low.
  now rewrite N.shiftl_mul_pow2.
Qed.

(** [a | b] is [a + b] when [a] has no bit below [2^k] and [b] none
    above. *)
Lemma lor_high_low (k a b : N) :
  (a mod 2 ^ k = 0)%N -> (b < 2 ^ k)%N -> N.lor a b = (a + b)%N.
Proof.
  intros Ha Hb.
  assert (Hk : (2 ^ k <> 0)%N) by (apply N.pow_nonzero; discriminate).
  assert (E : a = N.shiftl (a / 2 ^ k) k).
  { rewrite N.shiftl_mul_pow2.
    rewrite (N.div_mod a (2 ^ k)) at 1 by assumption. rewrite Ha. lia. }
  rewrite E at 1. rewrite lor_shiftl_low by assumption.
  rewrite N.shiftl_mul_pow2 in E. lia.
Qed.

Lemma land_3 (a : N) : N.land a 3 = (a mod 4)%N.
Proof. exact (N.land_ones a 2). Qed.

Lemma land_7 (a : N) : N.land a 7 = (a mod 8)%N.
Proof. exact (N.land_ones a 3). Qed.

Lemma land_15 (a : N) : N.land a 15 = (a mod 16)%N.
Proof. exact (N.land_ones a 4). Qed.

Lemma land_31 (a : N) : N.land a 31 = (a mod 32)%N.
Proof. exact (N.land_ones a 5). Qed.

Lemma land_63 (a : N) : N.land a 63 = (a mod 64)%N.
Proof. exact (N.land_ones a 6). Qed.

Lemma land_255 (a : N) : N.land a 255 = (a mod 256)%N.
Proof. exact (N.land_ones a 8). Qed.

Lemma shiftr_as_div (a k : N) : N.shiftr a k = (a / 2 ^ k)%N.
Proof. apply N.shiftr_div_pow2. Qed.

Lemma shiftl_as_mul (a k : N) : N.shiftl a k = (a * 2 ^ k)%N.
Proof. apply N.shiftl_mul_pow2. Qed.

Ltac masks_to_arith :=
  rewrite ?land_3, ?land_7, ?land_15, ?land_31, ?land_63, ?land_255,
          ?shiftr_as_div, ?shiftl_as_mul;
  change (2 ^ 0)%N with 1%N; change (2 ^ 2)%N with 4%N;
  change (2 ^ 4)%N with 16%N; change (2 ^ 6)%N with 64%N;
  change (2 ^ 12)%N with 4096%N; change (2 ^ 18)%N with 262144%N.

(** ** Base64 *)

Lemma sextet1_arith (a b : N) :
  (b < 256)%N -> Base64.sextet1 a b = (a mod 4 * 16 + b / 16)%N.
Proof.
  intros Hb. unfold Base64.sextet1.
  rewrite lor_shiftl_low by (rewrite shiftr_as_div; simpl; nlia).
  now masks_to_arith.
Qed.

Lemma sextet2_arith (b c : N) :
  (c < 256)%N -> Base64.sextet2 b c = (b mod 16 * 4 + c / 64)%N.
Proof.
  intros Hc. unfold Base64.sextet2.
  rewrite lor_shiftl_low by (rewrite shiftr_as_div; simpl; nlia).
  now masks_to_arith.
Qed.

Lemma sextet0_arith (a : N) : Base64.sextet0 a = (a / 4)%N.
Proof. unfold Base64.sextet0. now masks_to_arith. Qed.

Lemma sextet3_arith (c : N) : Base64.sextet3 c = (c mod 64)%N.
Proof. unfold Base64.sextet3. now masks_to_arith. Qed.

(** The leftover bits and the bytes the decoder puts together. *)
Lemma join_first (a b : N) :
  (a < 256)%N -> (b < 256)%N ->
  N.land (N.shiftr (N.lor (N.shiftl (Base64.sextet0 a) 6) (Base64.sextet1 a b)) 4) 255
  = a
  /\ N.land (N.lor (N.shiftl (Base64.sextet0 a) 6) (Base64.sextet1 a b)) 15
     = (b / 16)%N.
Proof.
  intros Ha Hb.
  rewrite sextet0_arith, sextet1_arith by assumption.
  rewrite lor_shiftl_low by (simpl; nlia).
  masks_to_arith. split; nlia.
Qed.

Lemma join_second (b c : N) :
  (b < 256)%N -> (c < 256)%N ->
  N.land (N.shiftr (N.lor (N.shiftl (b / 16) 6) (Base64.sextet2 b c)) 2) 255
  = b
  /\ N.land (N.lor (N.shiftl (b / 16) 6) (Base64.sextet2 b c)) 3
     = (c / 64)%N.
Proof.
  intros Hb Hc.
  rewrite sextet2_arith by assumption.
  rewrite lor_shiftl_low by (simpl; nlia).
  masks_to_arith. split; nlia.
Qed.

Lemma join_third (c : N) :
  (c < 256)%N ->
  N.land (N.shiftr (N.lor (N.shiftl (c / 64) 6) (Base64.sextet3 c)) 0) 255 = c.
Proof.
  intros Hc.
  rewrite sextet3_arith.
  rewrite lor_shiftl_low by (simpl; nlia).
  masks_to_arith. nlia.
Qed.

Lemma below_64_cases (P : N -> bool) :
  forallb P (map N.of_nat (seq 0 64)) = true ->
  forall v, (v < 64)%N -> P v = true.
Proof.
  intros H v Hv. rewrite forallb_forall in H. apply H.
  rewrite <- (N2Nat.id v). apply in_map, in_seq. lia.
Qed.

Lemma b64_char_ok_all (v : N) : (v < 64)%N -> b64_char_ok v = true.
Proof. apply below_64_cases. vm_compute. reflexivity. Qed.

(** The decoder on the character of a 6-bit value. *)
Lemma a2b_loop_data (v : N) (rest : bytes) (quad_pos leftchar leftbits : N) :
  (v < 64)%N ->
  Base64.a2b_loop (Base64.table_b2a v :: rest) quad_pos leftchar leftbits
  = if (8 <=? leftbits + 6)%N then
      let '(out, final) :=
        Base64.a2b_loop rest (N.land (quad_pos + 1) 3)
          (N.land (N.lor (N.shiftl leftchar 6) v)
                  (N.shiftl 1 (leftbits + 6 - 8) - 1))
          (leftbits + 6 - 8) in
      (N.land (N.shiftr (N.lor (N.shiftl leftchar 6) v) (leftbits + 6 - 8)) 255
       :: out, final)
    else
      Base64.a2b_loop rest (N.land (quad_pos + 1) 3)
        (N.lor (N.shiftl leftchar 6) v) (leftbits + 6).
Proof.
  intros Hv. pose proof (b64_char_ok_all v Hv) as Hok.
  unfold b64_char_ok in Hok. cbv zeta in Hok.
  repeat (apply andb_prop in Hok; destruct Hok as [Hok ?]).
  repeat match goal with
         | H : negb _ = true |- _ => apply negb_true_iff in H
         end.
  cbn [Base64.a2b_loop].
  destruct (Base64.table_a2b (Base64.table_b2a v)) as [w |]; [| discriminate].
  match goal with H : (w =? v)%N = true |- _ => apply N.eqb_eq in H; subst w end.
  repeat match goal with
         | H : _ = false |- _ => rewrite H; clear H
         end.
  reflexivity.
Qed.

Lemma sextet0_bound (a : N) : (a < 256)%N -> (Base64.sextet0 a < 64)%N.
Proof. intros. rewrite sextet0_arith. nlia. Qed.

Lemma sextet1_bound (a b : N) : (b < 256)%N -> (Base64.sextet1 a b < 64)%N.
Proof. intros. rewrite sextet1_arith by assumption. nlia. Qed.

Lemma sextet2_bound (b c : N) : (c < 256)%N -> (Base64.sextet2 b c < 64)%N.
Proof. intros. rewrite sextet2_arith by assumption. nlia. Qed.

Lemma sextet3_bound (c : N) : (Base64.sextet3 c < 64)%N.
Proof. rewrite sextet3_arith. nlia. Qed.

(** The four positions of a character in its group. *)
Lemma a2b_loop_first (v : N) (rest : bytes) :
  (v < 64)%N ->
  Base64.a2b_loop (Base64.table_b2a v :: rest) 0 0 0
  = Base64.a2b_loop rest 1 v 6.
Proof. intros. now rewrite a2b_loop_data. Qed.

Lemma a2b_loop_second (v : N) (rest : bytes) (leftchar : N) :
  (v < 64)%N ->
  Base64.a2b_loop (Base64.table_b2a v :: rest) 1 leftchar 6
  = let '(out, final) :=
      Base64.a2b_loop rest 2 (N.land (N.lor (N.shiftl leftchar 6) v) 15) 4 in
    (N.land (N.shiftr (N.lor (N.shiftl leftchar 6) v) 4) 255 :: out, final).
Proof. intros. now rewrite a2b_loop_data. Qed.

Lemma a2b_loop_third (v : N) (rest : bytes) (leftchar : N) :
  (v < 64)%N ->
  Base64.a2b_loop (Base64.table_b2a v :: rest) 2 leftchar 4
  = let '(out, final) :=
      Base64.a2b_loop rest 3 (N.land (N.lor (N.shiftl leftchar 6) v) 3) 2 in
    (N.land (N.shiftr (N.lor (N.shiftl leftchar 6) v) 2) 255 :: out, final).
Proof. intros. now rewrite a2b_loop_data. Qed.

Lemma a2b_loop_fourth (v : N) (rest : bytes) (leftchar : N) :
  (v < 64)%N ->
  Base64.a2b_loop (Base64.table_b2a v :: rest) 3 leftchar 2
  = let '(out, final) := Base64.a2b_loop rest 0 0 0 in
    (N.land (N.shiftr (N.lor (N.shiftl leftchar 6) v) 0) 255 :: out, final).
Proof.
  intros. rewrite a2b_loop_data by assumption.
  change (8 <=? 2 + 6)%N with true. cbv iota.
  change (N.shiftl 1 (2 + 6 - 8) - 1)%N with 0%N.
  now rewrite N.land_0_r.
Qed.

(** A complete group of four characters gives its three bytes back and
    leaves the decoder where it started. *)
Lemma a2b_loop_group (a b c : N) (rest : bytes) :
  (a < 256)%N -> (b < 256)%N -> (c < 256)%N ->
  Base64.a2b_loop
    (Base64.table_b2a (Base64.sextet0 a)
     :: Base64.table_b2a (Base64.sextet1 a b)
     :: Base64.table_b2a (Base64.sextet2 b c)
     :: Base64.table_b2a (Base64.sextet3 c) :: rest) 0 0 0
  = let '(out, final) := Base64.a2b_loop rest 0 0 0 in
    (a :: b :: c :: out, final).
Proof.
  intros Ha Hb Hc.
  destruct (join_first a b Ha Hb) as [J1 R1].
  destruct (join_second b c Hb Hc) as [J2 R2].
  rewrite a2b_loop_first by now apply sextet0_bound.
  rewrite a2b_loop_second by now apply sextet1_bound.
  rewrite J1, R1.
  rewrite a2b_loop_third by now apply sextet2_bound.
  rewrite J2, R2.
  rewrite a2b_loop_fourth by apply sextet3_bound.
  rewrite (join_third c Hc).
  now destruct (Base64.a2b_loop rest 0 0 0).
Qed.

Lemma a2b_loop_b2a (n : nat) :
  forall s : bytes,
    List.length s <= n ->
    Forall (below 256) s ->
    Base64.a2b_loop (Base64.b2a_base64 s) 0 0 0 = (s, 0%N).
Proof.
  induction n as [| n IH]; intros s Hlen Hs.
  - destruct s; [reflexivity | simpl in Hlen; lia].
  - destruct s as [| a [| b [| c rest]]]; [reflexivity | | |].
    + inversion Hs as [| ? ? Ha _]; subst. unfold below in Ha.
      cbn [Base64.b2a_base64].
      destruct (join_first a 0 Ha ltac:(reflexivity)) as [J1 _].
      rewrite a2b_loop_first by now apply sextet0_bound.
      rewrite a2b_loop_second by now apply sextet1_bound.
      rewrite J1. reflexivity.
    + inversion Hs as [| ? ? Ha Hs']; subst.
      inversion Hs' as [| ? ? Hb _]; subst. unfold below in Ha, Hb.
      cbn [Base64.b2a_base64].
      destruct (join_first a b Ha Hb) as [J1 R1].
      destruct (join_second b 0 Hb ltac:(reflexivity)) as [J2 _].
      rewrite a2b_loop_first by now apply sextet0_bound.
      rewrite a2b_loop_second by now apply sextet1_bound.
      rewrite J1, R1.
      rewrite a2b_loop_third by now apply sextet2_bound.
      rewrite J2. reflexivity.
    + inversion Hs as [| ? ? Ha Hs']; subst.
      inversion Hs' as [| ? ? Hb Hs'']; subst.
      inversion Hs'' as [| ? ? Hc Hrest]; subst.
      unfold below in Ha, Hb, Hc.
      cbn [Base64.b2a_base64].
      rewrite a2b_loop_group by assumption.
      rewrite IH; [reflexivity | simpl in Hlen; lia | assumption].
Qed.

(** Decoding what [b64encode] produced gives the bytes back. *)
Lemma b64decode_b64encode (s : bytes) :
  Forall (below 256) s ->
  Base64.b64decode (Base64.b64encode s) = Ok s.
Proof.
  intros Hs. unfold Base64.b64decode, Base64.a2b_base64, Base64.b64encode.
  now rewrite (a2b_loop_b2a (List.length s) s (le_n _) Hs).
Qed.

(** ** UTF-8 *)

Lemma is_scalar_range (cp : N) :
  Utf8.is_scalar cp = true ->
  (cp < 1114112)%N /\ ((cp < 55296)%N \/ (57343 < cp)%N).
Proof.
  unfold Utf8.is_scalar, Utf8.is_surrogate. intros H.
  apply andb_prop in H. destruct H as [H1 H2].
  apply N.ltb_lt in H1. apply negb_true_iff in H2.
  apply andb_false_iff in H2. rewrite !N.leb_gt in H2. lia.
Qed.

Lemma is_cont_intro (x : N) : (x < 64)%N -> Utf8.is_cont (128 + x) = true.
Proof.
  intros H. unfold Utf8.is_cont.
  apply andb_true_intro; split; apply N.leb_le; lia.
Qed.

Lemma low6_cont (x : N) : (x < 64)%N -> Utf8.low6 (128 + x) = x.
Proof. intros H. unfold Utf8.low6. rewrite land_63. nlia. Qed.

(** The decoder on one well-formed sequence of each length. *)
Lemma decode_1 (b : N) (rest : bytes) :
  (b < 128)%N -> Utf8.decode (b :: rest) = b :: Utf8.decode rest.
Proof.
  intros H. cbn [Utf8.decode].
  now rewrite (proj2 (N.ltb_lt b 128) H).
Qed.

Lemma decode_2 (b0 b1 : N) (rest : bytes) :
  (194 <= b0)%N -> (b0 < 224)%N -> Utf8.is_cont b1 = true ->
  Utf8.decode (b0 :: b1 :: rest)
  = N.lor (N.shiftl (N.land b0 31) 6) (Utf8.low6 b1) :: Utf8.decode rest.
Proof.
  intros Hlo Hhi Hc. cbn [Utf8.decode].
  rewrite (proj2 (N.ltb_ge b0 128)) by lia.
  rewrite (proj2 (N.ltb_ge b0 194)) by lia.
  rewrite (proj2 (N.ltb_lt b0 224)) by lia.
  now rewrite Hc.
Qed.

Lemma decode_3 (b0 b1 b2 : N) (rest : bytes) :
  (224 <= b0)%N -> (b0 < 240)%N ->
  Utf8.second_of_3 b0 b1 = true -> Utf8.is_cont b2 = true ->
  Utf8.decode (b0 :: b1 :: b2 :: rest)
  = N.lor (N.shiftl (N.land b0 15) 12)
      (N.lor (N.shiftl (Utf8.low6 b1) 6) (Utf8.low6 b2))
    :: Utf8.decode rest.
Proof.
  intros Hlo Hhi H1 H2. cbn [Utf8.decode].
  rewrite (proj2 (N.ltb_ge b0 128)) by lia.
  rewrite (proj2 (N.ltb_ge b0 194)) by lia.
  rewrite (proj2 (N.ltb_ge b0 224)) by lia.
  rewrite (proj2 (N.ltb_lt b0 240)) by lia.
  now rewrite H1, H2.
Qed.

Lemma decode_4 (b0 b1 b2 b3 : N) (rest : bytes) :
  (240 <= b0)%N -> (b0 < 245)%N ->
  Utf8.second_of_4 b0 b1 = true ->
  Utf8.is_cont b2 = true -> Utf8.is_cont b3 = true ->
  Utf8.decode (b0 :: b1 :: b2 :: b3 :: rest)
  = N.lor (N.shiftl (N.land b0 7) 18)
      (N.lor (N.shiftl (Utf8.low6 b1) 12)
         (N.lor (N.shiftl (Utf8.low6 b2) 6) (Utf8.low6 b3)))
    :: Utf8.decode rest.
Proof.
  intros Hlo Hhi H1 H2 H3. cbn [Utf8.decode].
  rewrite (proj2 (N.ltb_ge b0 128)) by lia.
  rewrite (proj2 (N.ltb_ge b0 194)) by lia.
  rewrite (proj2 (N.ltb_ge b0 224)) by lia.
  rewrite (proj2 (N.ltb_ge b0 240)) by lia.
  rewrite (proj2 (N.ltb_lt b0 245)) by lia.
  now rewrite H1, H2, H3.
Qed.

(** The bytes of a code point, in arithmetic. *)
Lemma encode_cp_1 (cp : N) : (cp < 128)%N -> Utf8.encode_cp cp = [cp].
Proof.
  intros H. unfold Utf8.encode_cp. now rewrite (proj2 (N.ltb_lt cp 128) H).
Qed.

Lemma encode_cp_2 (cp : N) :
  (128 <= cp)%N -> (cp < 2048)%N ->
  Utf8.encode_cp cp = [192 + cp / 64; 128 + cp mod 64]%N.
Proof.
  intros Hlo Hhi. unfold Utf8.encode_cp.
  rewrite (proj2 (N.ltb_ge cp 128)) by lia.
  rewrite (proj2 (N.ltb_lt cp 2048)) by lia.
  rewrite (lor_high_low 6 192) by (masks_to_arith; simpl; try reflexivity; nlia).
  rewrite (lor_high_low 6 128) by (masks_to_arith; simpl; try reflexivity; nlia).
  now masks_to_arith.
Qed.

Lemma encode_cp_3 (cp : N) :
  (2048 <= cp)%N -> (cp < 65536)%N -> Utf8.is_surrogate cp = false ->
  Utf8.encode_cp cp
  = [224 + cp / 4096; 128 + (cp / 64) mod 64; 128 + cp mod 64]%N.
Proof.
  intros Hlo Hhi Hs. unfold Utf8.encode_cp.
  rewrite (proj2 (N.ltb_ge cp 128)) by lia.
  rewrite (proj2 (N.ltb_ge cp 2048)) by lia.
  rewrite (proj2 (N.ltb_lt cp 65536)) by lia.
  rewrite Hs.
  rewrite (lor_high_low 4 224) by (masks_to_arith; simpl; try reflexivity; nlia).
  rewrite !(lor_high_low 6 128) by (masks_to_arith; simpl; try reflexivity; nlia).
  now masks_to_arith.
Qed.

Lemma encode_cp_4 (cp : N) :
  (65536 <= cp)%N -> (cp < 1114112)%N ->
  Utf8.encode_cp cp
  = [240 + cp / 262144; 128 + (cp / 4096) mod 64;
     128 + (cp / 64) mod 64; 128 + cp mod 64]%N.
Proof.
  intros Hlo Hhi. unfold Utf8.encode_cp.
  rewrite (proj2 (N.ltb_ge cp 128)) by lia.
  rewrite (proj2 (N.ltb_ge cp 2048)) by lia.
  rewrite (proj2 (N.ltb_ge cp 65536)) by lia.
  rewrite (lor_high_low 3 240) by (masks_to_arith; simpl; try reflexivity; nlia).
  rewrite !(lor_high_low 6 128) by (masks_to_arith; simpl; try reflexivity; nlia).
  now masks_to_arith.
Qed.

Lemma second_of_3_intro (cp : N) :
  (2048 <= cp)%N -> (cp < 65536)%N -> Utf8.is_surrogate cp = false ->
  Utf8.second_of_3 (224 + cp / 4096) (128 + (cp / 64) mod 64) = true.
Proof.
  intros Hlo Hhi Hs. unfold Utf8.is_surrogate in Hs.
  apply andb_false_iff in Hs. rewrite !N.leb_gt in Hs.
  unfold Utf8.second_of_3.
  destruct (N.eqb_spec (224 + cp / 4096) 224) as [E | E].
  - apply andb_true_intro; split; apply N.leb_le; nlia.
  - destruct (N.eqb_spec (224 + cp / 4096) 237) as [E' | E'].
    + apply andb_true_intro; split; apply N.leb_le; nlia.
    + apply is_cont_intro. nlia.
Qed.

Lemma second_of_4_intro (cp : N) :
  (65536 <= cp)%N -> (cp < 1114112)%N ->
  Utf8.second_of_4 (240 + cp / 262144) (128 + (cp / 4096) mod 64) = true.
Proof.
  intros Hlo Hhi. unfold Utf8.second_of_4.
  destruct (N.eqb_spec (240 + cp / 262144) 240) as [E | E].
  - apply andb_true_intro; split; apply N.leb_le; nlia.
  - destruct (N.eqb_spec (240 + cp / 262144) 244) as [E' | E'].
    + apply andb_true_intro; split; apply N.leb_le; nlia.
    + apply is_cont_intro. nlia.
Qed.

Lemma value_2 (cp : N) :
  (cp < 2048)%N ->
  N.lor (N.shiftl (N.land (192 + cp / 64) 31) 6) (cp mod 64) = cp.
Proof.
  intros H. rewrite lor_shiftl_low by (simpl; nlia).
  masks_to_arith. nlia.
Qed.

Lemma value_3 (cp : N) :
  (cp < 65536)%N ->
  N.lor (N.shiftl (N.land (224 + cp / 4096) 15) 12)
    (N.lor (N.shiftl ((cp / 64) mod 64) 6) (cp mod 64)) = cp.
Proof.
  intros H.
  rewrite (lor_shiftl_low ((cp / 64) mod 64)) by (simpl; nlia).
  rewrite lor_shiftl_low by (simpl; nlia).
  masks_to_arith. nlia.
Qed.

Lemma value_4 (cp : N) :
  (cp < 1114112)%N ->
  N.lor (N.shiftl (N.land (240 + cp / 262144) 7) 18)
    (N.lor (N.shiftl ((cp / 4096) mod 64) 12)
       (N.lor (N.shiftl ((cp / 64) mod 64) 6) (cp mod 64))) = cp.
Proof.
  intros H.
  rewrite (lor_shiftl_low ((cp / 64) mod 64)) by (simpl; nlia).
  rewrite (lor_shiftl_low ((cp / 4096) mod 64)) by (simpl; nlia).
  rewrite lor_shiftl_low by (simpl; nlia).
  masks_to_arith. nlia.
Qed.

(** Decoding the bytes of a code point gives the code point back. *)
Lemma decode_encode_cp (cp : N) (rest : bytes) :
  Utf8.is_scalar cp = true ->
  Utf8.decode (Utf8.encode_cp cp ++ rest) = cp :: Utf8.decode rest.
Proof.
  intros Hsc. destruct (is_scalar_range cp Hsc) as [Hmax Hsur].
  destruct (N.lt_ge_cases cp 128) as [H1 | H1].
  { rewrite encode_cp_1 by assumption. now apply decode_1. }
  destruct (N.lt_ge_cases cp 2048) as [H2 | H2].
  { rewrite encode_cp_2 by assumption. cbn [app].
    rewrite decode_2; [| nlia | nlia | apply is_cont_intro; nlia].
    rewrite low6_cont by nlia. now rewrite value_2. }
  destruct (N.lt_ge_cases cp 65536) as [H3 | H3].
  { assert (Hs : Utf8.is_surrogate cp = false).
    { unfold Utf8.is_surrogate. apply andb_false_iff.
      rewrite !N.leb_gt. lia. }
    rewrite encode_cp_3 by assumption. cbn [app].
    rewrite decode_3;
      [| nlia | nlia | now apply second_of_3_intro | apply is_cont_intro; nlia].
    rewrite !low6_cont by nlia. now rewrite value_3. }
  rewrite encode_cp_4 by assumption. cbn [app].
  rewrite decode_4;
    [| nlia | nlia | now apply second_of_4_intro
     | apply is_cont_intro; nlia | apply is_cont_intro; nlia].
  rewrite !low6_cont by nlia. now rewrite value_4.
Qed.

Lemma utf8_decode_encode (text : list N) :
  Forall (fun cp => Utf8.is_scalar cp = true) text ->
  Utf8.decode (Utf8.encode text) = text.
Proof.
  induction 1 as [| cp text Hcp _ IH]; [reflexivity |].
  unfold Utf8.encode in *. cbn [flat_map].
  rewrite decode_encode_cp by assumption. now rewrite IH.
Qed.

(** The bytes of a code point are bytes. *)
Lemma encode_cp_bytes (cp : N) :
  Utf8.is_scalar cp = true -> Forall (below 256) (Utf8.encode_cp cp).
Proof.
  intros Hsc. destruct (is_scalar_range cp Hsc) as [Hmax Hsur].
  destruct (N.lt_ge_cases cp 128) as [H1 | H1].
  { rewrite encode_cp_1 by assumption. repeat constructor. unfold below; lia. }
  destruct (N.lt_ge_cases cp 2048) as [H2 | H2].
  { rewrite encode_cp_2 by assumption.
    repeat constructor; unfold below; nlia. }
  destruct (N.lt_ge_cases cp 65536) as [H3 | H3].
  { assert (Hs : Utf8.is_surrogate cp = false).
    { unfold Utf8.is_surrogate. apply andb_false_iff.
      rewrite !N.leb_gt. lia. }
    rewrite encode_cp_3 by assumption.
    repeat constructor; unfold below; nlia. }
  rewrite encode_cp_4 by assumption.
  repeat constructor; unfold below; nlia.
Qed.

Lemma encode_bytes (text : list N) :
  Forall (fun cp => Utf8.is_scalar cp = true) text ->
  Forall (below 256) (Utf8.encode text).
Proof.
  induction 1 as [| cp text Hcp _ IH]; [constructor |].
  unfold Utf8.encode in *. cbn [flat_map].
  apply Forall_app; split; auto using encode_cp_bytes.
Qed.

(** ASCII text and its UTF-8 bytes are the same list. *)
Lemma encode_ascii (text : list N) :
  Forall (below 128) text -> Utf8.encode text = text.
Proof.
  induction 1 as [| c text Hc _ IH]; [reflexivity |].
  unfold Utf8.encode in *. cbn [flat_map].
  rewrite encode_cp_1 by exact Hc. now rewrite IH.
Qed.

Lemma decode_ascii (s : bytes) :
  Forall (below 128) s -> Utf8.decode s = s.
Proof.
  induction 1 as [| c s Hc _ IH]; [reflexivity |].
  rewrite decode_1 by exact Hc. now rewrite IH.
Qed.

(** ** [to_base64] and [from_base64] *)

Lemma table_b2a_ascii (n : N) : below 128 (Base64.table_b2a n).
Proof.
  unfold Base64.table_b2a, below.
  assert (Hall : forallb (fun c => (c <? 128)%N)
                   (bytes_of_string Base64.alphabet) = true)
    by (vm_compute; reflexivity).
  rewrite forallb_forall in Hall.
  destruct (nth_in_or_default (N.to_nat n) (bytes_of_string Base64.alphabet) 0%N)
    as [Hin | Hd].
  - apply N.ltb_lt. now apply Hall.
  - rewrite Hd. reflexivity.
Qed.

Lemma b2a_ascii_upto (n : nat) :
  forall s : bytes,
    List.length s <= n -> Forall (below 128) (Base64.b2a_base64 s).
Proof.
  assert (Hpad : below 128 Base64.PAD) by reflexivity.
  induction n as [| n IH]; intros s Hlen.
  - destruct s; [constructor | simpl in Hlen; lia].
  - destruct s as [| a [| b [| c rest]]]; cbn [Base64.b2a_base64];
      repeat (constructor; try apply table_b2a_ascii; try exact Hpad).
    apply IH. simpl in Hlen. lia.
Qed.

Lemma b2a_ascii (s : bytes) : Forall (below 128) (Base64.b2a_base64 s).
Proof. apply (b2a_ascii_upto (List.length s)). apply le_n. Qed.

Lemma b2a_nonempty (s : bytes) : Base64.b2a_base64 s = [] -> s = [].
Proof. destruct s as [| a [| b [| c rest]]]; simpl; congruence. Qed.

Lemma encode_cp_nonempty (cp : N) : Utf8.encode_cp cp <> [].
Proof.
  unfold Utf8.encode_cp.
  destruct (cp <? 128)%N; [discriminate |].
  destruct (cp <? 2048)%N; [discriminate |].
  destruct (cp <? 65536)%N; [| discriminate].
  destruct (Utf8.is_surrogate cp); discriminate.
Qed.

Lemma encode_nonempty (text : list N) : Utf8.encode text = [] -> text = [].
Proof.
  destruct text as [| cp text]; [reflexivity |].
  unfold Utf8.encode. cbn [flat_map]. intros H.
  apply app_eq_nil in H. destruct H as [H _].
  now apply encode_cp_nonempty in H.
Qed.

(** [to_base64] of a text is the Base64 form of its UTF-8 bytes. *)
Lemma to_base64_text (v : Util.pyver) (text : list N) :
  Util.to_base64 v (Util.PyText text)
  = Ok (Base64.b64encode (Utf8.encode text)).
Proof.
  unfold Util.to_base64.
  destruct text as [| cp text]; [reflexivity |].
  cbn [Util.falsy Util.encode_utf8 bind].
  unfold Base64.b64encode. now rewrite decode_ascii by apply b2a_ascii.
Qed.

(** [from_base64] of what [to_base64] returned. *)
Lemma from_base64_encoded (v : Util.pyver) (text : list N) :
  Forall (fun cp => Utf8.is_scalar cp = true) text ->
  Util.from_base64 v
    (Util.PyText (Base64.b64encode (Utf8.encode text)))
  = Ok text.
Proof.
  intros Hs. unfold Util.from_base64.
  destruct (Base64.b64encode (Utf8.encode text)) as [| c e] eqn:E.
  - apply b2a_nonempty, encode_nonempty in E. now subst.
  - cbn [Util.falsy Util.encode_utf8 bind].
    rewrite <- E.
    rewrite encode_ascii by apply b2a_ascii.
    rewrite b64decode_b64encode by now apply encode_bytes.
    cbn [bind]. now rewrite utf8_decode_encode.
Qed.

(** C3 (as amended): for every unicode text made of Unicode scalar values,
    the empty text and text outside ASCII included, [to_base64] returns a
    text from which [from_base64] gives the original back; both return the
    empty text for [None] and for the empty text; [to_base64] raises on no
    text. *)
Theorem C3_text_round_trip :
  forall v : Util.pyver,
    (forall text : list N,
        Forall (fun cp => Utf8.is_scalar cp = true) text ->
        exists e,
          Util.to_base64 v (Util.PyText text) = Ok e
          /\ Util.from_base64 v (Util.PyText e) = Ok text)
    /\ (forall text : list N,
          exists e, Util.to_base64 v (Util.PyText text) = Ok e)
    /\ Util.to_base64 v Util.PyNone = Ok []
    /\ Util.from_base64 v Util.PyNone = Ok []
    /\ Util.to_base64 v (Util.PyText []) = Ok []
    /\ Util.from_base64 v (Util.PyText []) = Ok [].
Proof.
  intros v. split; [| split; [| repeat split]].
  - intros text Hs. exists (Base64.b64encode (Utf8.encode text)). split.
    + apply to_base64_text.
    + now apply from_base64_encoded.
  - intros text. eexists. apply to_base64_text.
Qed.

(** "h", e with acute accent, the euro sign and an emoji. *)
Lemma C3_witness :
  exists e,
    Util.to_base64 Util.Python3
      (Util.PyText [104; 233; 8364; 128512]%N) = Ok e
    /\ Util.from_base64 Util.Python3 (Util.PyText e)
       = Ok [104; 233; 8364; 128512]%N.
Proof.
  apply (proj1 (C3_text_round_trip Util.Python3)).
  repeat constructor.
Defined.

Example to_base64_of_hello :
  Util.to_base64 Util.Python3
    (Util.PyText (bytes_of_string "hello"))
  = Ok (bytes_of_string "aGVsbG8=").
Proof. vm_compute. reflexivity. Qed.

(** A byte string with the byte 0xFF cannot be encoded under either Python
    version; its Base64 form ["/w=="] decodes to U+FFFD and not to the
    byte; and [from_base64] raises on ["a"]. *)
Lemma C3_counterexample :
  Util.to_base64 Util.Python3 (Util.PyBytes [255%N])
  = Raise (AttributeError "encode")
  /\ Util.to_base64 Util.Python2 (Util.PyBytes [255%N])
     = Raise UnicodeDecodeError
  /\ Base64.b64encode [255%N] = bytes_of_string "/w=="
  /\ Util.from_base64 Util.Python3
       (Util.PyText (bytes_of_string "/w==")) = Ok [65533%N]
  /\ Util.from_base64 Util.Python3
       (Util.PyText (bytes_of_string "a")) = Raise Base64Error.
Proof. repeat split. Qed.

(* ===================================================================== *)
(** * Part III: further properties of the same code                      *)
(* ===================================================================== *)

(** ** Strings and their bytes *)

Lemma string_of_bytes_of_string (s : string) :
  string_of_bytes (bytes_of_string s) = s.
Proof.
  unfold string_of_bytes, bytes_of_string. rewrite map_map.
  rewrite (map_ext _ (fun c => c)) by apply ascii_N_embedding.
  rewrite map_id. apply string_of_list_ascii_of_string.
Qed.

Lemma bytes_of_string_of_bytes (b : bytes) :
  Forall (below 256) b -> bytes_of_string (string_of_bytes b) = b.
Proof.
  intros H. unfold string_of_bytes, bytes_of_string.
  rewrite list_ascii_of_string_of_list_ascii, map_map.
  induction H as [| x b Hx _ IH]; simpl; [reflexivity |].
  rewrite IH. f_equal. apply N_ascii_embedding. exact Hx.
Qed.

Lemma bytes_of_string_bytes (s : string) : Forall (below 256) (bytes_of_string s).
Proof.
  unfold bytes_of_string. apply Forall_forall. intros x Hx.
  apply in_map_iff in Hx. destruct Hx as (c & <- & _).
  apply N_ascii_bounded.
Qed.

Lemma below_128_256 (b : bytes) : Forall (below 128) b -> Forall (below 256) b.
Proof. apply Forall_impl. unfold below. intros; lia. Qed.

Lemma b64decode_str_b64encode_str (s : string) :
  Base64.b64decode_str (Base64.b64encode_str s) = Ok s.
Proof.
  unfold Base64.b64decode_str, Base64.b64encode_str, Base64.b64encode.
  rewrite bytes_of_string_of_bytes by apply below_128_256, b2a_ascii.
  fold (Base64.b64encode (bytes_of_string s)).
  rewrite b64decode_b64encode by apply bytes_of_string_bytes.
  simpl. now rewrite string_of_bytes_of_string.
Qed.

Lemma join_decoded_encoded (ds : list string) :
  Command.join_decoded (map Base64.b64encode_str ds)
  = Ok (fold_right String.append EmptyString ds).
Proof.
  induction ds as [| d ds IH]; simpl; [reflexivity |].
  rewrite b64decode_str_b64encode_str; simpl.
  now rewrite IH.
Qed.

(** ** More on the remote command session *)

(** X1: what [write] puts on the wire decodes to the data that was written,
    and [read] turns a reply whose items are the Base64 forms of some
    strings into the concatenation of these strings. *)
Theorem write_and_read_agree_on_the_encoding :
  forall (remote : nat -> Command.rpc -> result call_result)
         (st : Command.state) (data : string),
    (exists e,
        Command.sent (snd (Command.write remote data st))
        = Command.sent st
            ++ [Command.commandPush (Command.cid (Command.self st)) e]
        /\ Base64.b64decode_str e = Ok data)
    /\
    (forall (code : Z) (ds : list string),
        remote (List.length (Command.sent st))
          (Command.commandPoll (Command.cid (Command.self st)))
        = Ok (code, SItems (map Base64.b64encode_str ds)) ->
        fst (Command.read remote st)
        = Ok (code, SStr (fold_right String.append EmptyString ds))).
Proof.
  intros remote st data; split.
  - exists (Base64.b64encode_str data). split.
    + unfold Command.write, Command.service.
      destruct (remote _ _) as [[code res] | e]; simpl; auto.
      unfold Command.mark; destruct (code =? 200)%Z; reflexivity.
    + apply b64decode_str_b64encode_str.
  - intros code ds Hpoll.
    unfold Command.read, Command.service. rewrite Hpoll. simpl.
    now rewrite join_decoded_encoded.
Qed.

Lemma write_and_read_agree_witness :
  fst (Command.read
         (fun _ _ => Ok (200%Z, SItems (map Base64.b64encode_str
                                           ["ls -l"%string; " /tmp"%string])))
         (fresh_session "c1"))
  = Ok (200%Z, SStr "ls -l /tmp").
Proof.
  apply (proj2 (write_and_read_agree_on_the_encoding
                  (fun _ _ => Ok (200%Z, SItems (map Base64.b64encode_str
                                                    ["ls -l"%string; " /tmp"%string])))
                  (fresh_session "c1") EmptyString)
           200%Z ["ls -l"%string; " /tmp"%string]).
  reflexivity.
Defined.

(** X2: [read], [write], and [signal] with an argument that resolves,
    send exactly one call each.  When the call is answered, the session is
    done afterwards exactly when it was done before or the status of the
    answer is not 200 (for [read] also when decoding the payload raises);
    [write] and [signal] return the answer as it is, [read] returns it with
    the payload decoded.  When the call itself raises, the exception leaves
    the method and [done] keeps its value.  A [signal] whose argument does
    not resolve sends nothing and leaves the session as it was. *)
Theorem status_of_the_answer_decides_done :
  forall (remote : nat -> Command.rpc -> result call_result)
         (st : Command.state),
    (forall (call : Command.rpc)
            (method : Command.state -> result call_result * Command.state)
            (returned : Z -> soap_value -> result call_result),
        (call = Command.commandPoll (Command.cid (Command.self st))
         /\ method = Command.read remote
         /\ returned
            = (fun code res =>
                 bind (Command.decode_payload res)
                   (fun data => Ok (code, data))))
        \/ (exists data,
               call = Command.commandPush (Command.cid (Command.self st))
                        (Base64.b64encode_str data)
               /\ method = Command.write remote data
               /\ returned = (fun code res => Ok (code, res)))
        \/ (exists s sig,
               Command.resolve s = Ok sig
               /\ call
                  = Command.commandSignal (Command.cid (Command.self st)) sig
               /\ method = Command.signal remote s
               /\ returned = (fun code res => Ok (code, res))) ->
        Command.sent (snd (method st)) = Command.sent st ++ [call]
        /\ Command.cid (Command.self (snd (method st)))
           = Command.cid (Command.self st)
        /\ (forall code res,
               remote (List.length (Command.sent st)) call = Ok (code, res) ->
               fst (method st) = returned code res
               /\ Command.done (Command.self (snd (method st)))
                  = Command.done (Command.self st) || negb (code =? 200)%Z)
        /\ (forall e,
               remote (List.length (Command.sent st)) call = Raise e ->
               fst (method st) = Raise e
               /\ Command.done (Command.self (snd (method st)))
                  = Command.done (Command.self st)))
    /\
    (forall (s : Command.sigid) (e : exn),
        Command.resolve s = Raise e ->
        Command.signal remote s st = (Raise e, st)).
Proof.
  intros remote st.
  assert (Hmark : forall code s,
             Command.done (Command.self (Command.mark code s))
             = Command.done (Command.self s) || negb (code =? 200)%Z).
  { intros code s. unfold Command.mark.
    destruct (code =? 200)%Z; simpl;
      [now rewrite orb_false_r | now rewrite orb_true_r]. }
  assert (Hsent : forall code s,
             Command.sent (Command.mark code s) = Command.sent s).
  { intros code s. unfold Command.mark. now destruct (code =? 200)%Z. }
  assert (Hcid : forall code s,
             Command.cid (Command.self (Command.mark code s))
             = Command.cid (Command.self s)).
  { intros code s. unfold Command.mark. now destruct (code =? 200)%Z. }
  split.
  - intros call method returned Hmethod.
    destruct Hmethod
      as [(-> & -> & ->)
         | [(data & -> & -> & ->) | (s & sig & Hres & -> & -> & ->)]].
    + unfold Command.read, Command.service.
      split; [| split; [| split]].
      * destruct (remote _ _) as [[code res] | e];
          cbv beta iota zeta; cbn [fst snd];
          rewrite ?Hsent; reflexivity.
      * destruct (remote _ _) as [[code res] | e];
          cbv beta iota zeta; cbn [fst snd];
          rewrite ?Hcid; reflexivity.
      * intros code res H. rewrite H. cbv beta iota zeta. cbn [fst snd].
        rewrite Hmark. split; reflexivity.
      * intros e H. rewrite H. split; reflexivity.
    + unfold Command.write, Command.service.
      split; [| split; [| split]].
      * destruct (remote _ _) as [[code res] | e]; cbn [fst snd];
          rewrite ?Hsent; reflexivity.
      * destruct (remote _ _) as [[code res] | e]; cbn [fst snd];
          rewrite ?Hcid; reflexivity.
      * intros code res H. rewrite H. cbn [fst snd].
        rewrite Hmark. split; reflexivity.
      * intros e H. rewrite H. split; reflexivity.
    + unfold Command.signal, Command.service. rewrite Hres.
      split; [| split; [| split]].
      * destruct (remote _ _) as [[code res] | e]; cbn [fst snd];
          rewrite ?Hsent; reflexivity.
      * destruct (remote _ _) as [[code res] | e]; cbn [fst snd];
          rewrite ?Hcid; reflexivity.
      * intros code res H. rewrite H. cbn [fst snd].
        rewrite Hmark. split; reflexivity.
      * intros e H. rewrite H. split; reflexivity.
  - intros s e H. unfold Command.signal. now rewrite H.
Qed.

(** A push that the node answers with status 0, and a signal named in
    lower case that the node answers in the same way: one call is sent,
    the answer is returned and the session is done. *)
Lemma status_decides_done_witness :
  (Command.sent (snd (Command.write flaky_remote "ls" (fresh_session "c1")))
   = Command.sent (fresh_session "c1")
       ++ [Command.commandPush "c1" (Base64.b64encode_str "ls")]
   /\ fst (Command.write flaky_remote "ls" (fresh_session "c1"))
      = Ok (0%Z, SNone)
   /\ Command.done
        (Command.self
           (snd (Command.write flaky_remote "ls" (fresh_session "c1"))))
      = Command.done (Command.self (fresh_session "c1")) || negb (0 =? 200)%Z)
  /\
  (Command.sent
     (snd (Command.signal flaky_remote (Command.SigStr "sigkill")
             (fresh_session "c1")))
   = Command.sent (fresh_session "c1") ++ [Command.commandSignal "c1" 9]
   /\ Command.signal flaky_remote (Command.SigStr "sigbogus")
        (fresh_session "c1")
      = (Raise (AttributeError "SIGBOGUS"), fresh_session "c1")).
Proof.
  destruct (status_of_the_answer_decides_done flaky_remote
              (fresh_session "c1")) as [Hsends Hbad].
  split; [| split].
  - destruct (Hsends (Command.commandPush "c1" (Base64.b64encode_str "ls"))
                (Command.write flaky_remote "ls")
                (fun code res => Ok (code, res)))
      as (Hsent & _ & Hanswer & _).
    + right; left. exists "ls"%string. repeat split; reflexivity.
    + destruct (Hanswer 0%Z SNone eq_refl) as [Hfst Hdone].
      split; [exact Hsent |]. split; [exact Hfst | exact Hdone].
  - destruct (Hsends (Command.commandSignal "c1" 9)
                (Command.signal flaky_remote (Command.SigStr "sigkill"))
                (fun code res => Ok (code, res)))
      as (Hsent & _).
    + right; right. exists (Command.SigStr "sigkill"), 9%Z.
      repeat split; reflexivity.
    + exact Hsent.
  - apply (Hbad (Command.SigStr "sigbogus") (AttributeError "SIGBOGUS")).
    reflexivity.
Defined.

(** A failed poll with a payload that is not Base64: [read] raises, and the
    session is done all the same. *)
Example read_marks_done_before_decoding :
  Command.done
    (Command.self
       (snd (Command.read (fun _ _ => Ok (500%Z, SItems ["a"%string]))
               (fresh_session "c1"))))
  = true
  /\ fst (Command.read (fun _ _ => Ok (500%Z, SItems ["a"%string]))
            (fresh_session "c1"))
     = Raise Base64Error.
Proof. split; reflexivity. Qed.

Lemma join_strings (strs : list string) :
  Command.join (map SStr strs)
  = Ok (fold_right String.append EmptyString strs).
Proof.
  induction strs as [| s strs IH]; simpl; [reflexivity |].
  now rewrite IH.
Qed.

Lemma join_not_a_string (chunks : list soap_value) :
  (exists c, In c chunks /\ forall s, c <> SStr s) ->
  Command.join chunks = Raise TypeError.
Proof.
  induction chunks as [| c chunks IH]; intros (x & Hin & Hx).
  - destruct Hin.
  - destruct Hin as [-> | Hin].
    + destruct x; try reflexivity. exfalso. eapply Hx. reflexivity.
    + destruct c; try reflexivity. simpl.
      rewrite IH by (exists x; auto). reflexivity.
Qed.

(** X3: [all()] polls until the first answer whose status is not 200 and
    returns the concatenation of the chunks read until then; when one of
    these chunks is not a string (a successful poll without payload) it
    raises [TypeError], after the traversal has ended and the session is
    done. *)
Theorem all_concatenates_the_chunks :
  forall (remote : nat -> Command.rpc -> result call_result)
         (rs ds : list soap_value) (st : Command.state)
         (code : Z) (res data : soap_value) (fuel : nat),
    Forall2 (fun r d => Command.decode_payload r = Ok d) rs ds ->
    (forall i, i < List.length rs ->
       remote (List.length (Command.sent st) + i)
         (Command.commandPoll (Command.cid (Command.self st)))
       = Ok (200%Z, nth i rs SNone)) ->
    remote (List.length (Command.sent st) + List.length rs)
      (Command.commandPoll (Command.cid (Command.self st))) = Ok (code, res) ->
    code <> 200%Z ->
    Command.decode_payload res = Ok data ->
    List.length rs < fuel ->
    Command.done (Command.self (snd (Command.all remote fuel st))) = true
    /\ (forall strs, ds = map SStr strs ->
          fst (Command.all remote fuel st)
          = Some (Ok (fold_right String.append EmptyString strs)))
    /\ ((exists c, In c ds /\ forall s, c <> SStr s) ->
        fst (Command.all remote fuel st) = Some (Raise TypeError)).
Proof.
  intros remote rs ds st code res data fuel Hdec Hok Hend Hcode Hd Hfuel.
  unfold Command.all.
  rewrite (iterate_until_failure remote rs ds Hdec st code res data fuel
             Hok Hend Hcode Hd Hfuel).
  cbn [fst snd]. split; [reflexivity | split].
  - intros strs ->. now rewrite join_strings.
  - intros H. now rewrite join_not_a_string.
Qed.

Lemma all_concatenates_witness :
  fst (Command.all two_chunk_remote 5 (fresh_session "c1"))
  = Some (Ok "hello"%string).
Proof.
  apply (proj1 (proj2 (all_concatenates_the_chunks two_chunk_remote
           [SItems ["aGVs"%string; "bG8="%string]; SStr ""]
           [SStr "hello"; SStr ""]
           (fresh_session "c1") 500%Z SNone SNone 5
           ltac:(repeat constructor)
           ltac:(intros [| [| i]] Hi; [reflexivity | reflexivity | simpl in Hi; lia])
           eq_refl ltac:(discriminate) eq_refl ltac:(simpl; lia)))
           ["hello"%string; ""%string]).
  reflexivity.
Defined.

(** ** More on the single-node proxy *)

(** X4: once the request is built, no exception of the two caught classes
    leaves [NodeSoapProxy]: one raised while the reply is processed is turned
    into [(0, None)] like one raised by the round trip, and an exception that
    does leave is one the [except] clause does not catch.  An exception of
    [make_request] itself always leaves, since the request is built outside
    the [try]. *)
Theorem only_uncaught_exceptions_leave_the_proxy :
  forall (Context_ Args : Type)
         (make_request : Node -> string -> Args -> result Context_)
         (requests_post : Node -> Context_ -> result NodeSoapProxy.Response)
         (process_reply : Context_ -> string -> Z -> string -> result call_result)
         (node : Node) (name : string) (args : Args),
    (forall context e,
        make_request node name args = Ok context ->
        NodeSoapProxy._soap_proxy_executor make_request requests_post
          process_reply node name args = Raise e ->
        NodeSoapProxy.catches_transport e = false)
    /\
    (forall context r e,
        make_request node name args = Ok context ->
        requests_post node context = Ok r ->
        process_reply context (NodeSoapProxy.text r)
          (NodeSoapProxy.status_code r) (NodeSoapProxy.reason r) = Raise e ->
        NodeSoapProxy.catches_transport e = true ->
        NodeSoapProxy._soap_proxy_executor make_request requests_post
          process_reply node name args = Ok (0%Z, SNone))
    /\
    (forall e,
        make_request node name args = Raise e ->
        NodeSoapProxy._soap_proxy_executor make_request requests_post
          process_reply node name args = Raise e).
Proof.
  intros Context_ Args make_request requests_post process_reply node name args.
  unfold NodeSoapProxy._soap_proxy_executor.
  split; [| split].
  - intros context e Hreq. rewrite Hreq. cbn [bind].
    unfold try_except.
    destruct (bind _ _) as [a | e']; [discriminate |].
    destruct (NodeSoapProxy.catches_transport e') eqn:E; [discriminate |].
    congruence.
  - intros context r e Hreq Hpost Hrep Hc.
    rewrite Hreq. cbn [bind]. rewrite Hpost. cbn [bind]. rewrite Hrep.
    unfold try_except. now rewrite Hc.
  - intros e Hreq. now rewrite Hreq.
Qed.

Lemma only_uncaught_exceptions_witness :
  NodeSoapProxy._soap_proxy_executor
    (fun _ _ (_ : unit) => Ok tt)
    (fun _ _ => Ok {| NodeSoapProxy.text := "<x/>"; NodeSoapProxy.status_code := 200;
                      NodeSoapProxy.reason := "OK" |})
    (fun _ _ _ _ => Raise (RequestsExc Requests.ReadTimeout))
    example_node "getTime" tt
  = Ok (0%Z, SNone).
Proof.
  apply (proj1 (proj2 (only_uncaught_exceptions_leave_the_proxy unit unit
           (fun _ _ (_ : unit) => Ok tt)
           (fun _ _ => Ok {| NodeSoapProxy.text := "<x/>";
                             NodeSoapProxy.status_code := 200;
                             NodeSoapProxy.reason := "OK" |})
           (fun _ _ _ _ => Raise (RequestsExc Requests.ReadTimeout))
           example_node "getTime"%string tt))
           tt
           {| NodeSoapProxy.text := "<x/>"; NodeSoapProxy.status_code := 200;
              NodeSoapProxy.reason := "OK" |}
           (RequestsExc Requests.ReadTimeout));
    reflexivity.
Defined.

(** ** More on the dispatcher *)

Section DictLookup.
Variables K V : Type.
Variable eqb : K -> K -> bool.
Hypothesis eqb_eq : forall a b, eqb a b = true <-> a = b.

Lemma dict_get_absent (k : K) (d : dict K V) :
  ~ In k (map fst d) -> dict_get eqb k d = None.
Proof.
  induction d as [| [k' v'] d IH]; simpl; intros H; [reflexivity |].
  destruct (eqb k k') eqn:E.
  - apply eqb_eq in E. subst. tauto.
  - apply IH. tauto.
Qed.

Lemma dict_get_present (k : K) (v : V) (d : dict K V) :
  NoDup (map fst d) -> In (k, v) d -> dict_get eqb k d = Some v.
Proof.
  induction d as [| [k' v'] d IH]; simpl; intros Hnd Hin; [easy |].
  inversion Hnd as [| ? ? Hnot Hnd']; subst.
  destruct Hin as [Heq | Hin].
  - inversion Heq; subst.
    now rewrite (proj2 (eqb_eq k k) eq_refl).
  - destruct (eqb k k') eqn:E.
    + apply eqb_eq in E. subst. exfalso. apply Hnot.
      apply (in_map fst) in Hin. exact Hin.
    + now apply IH.
Qed.

End DictLookup.

(** X5: when the keys of a batch are distinct and every job returns,
    [async_dispatch] returns a mapping with as many entries as the batch has
    tasks, in which each key is bound to the value its own job returned and
    no other key is bound; this holds for every order in which the futures
    complete. *)
Theorem dispatch_binds_each_key_to_its_result :
  forall (K Arg V : Type) (k_eqb : K -> K -> bool)
         (set_iter : list (Util.Future V) -> list (Util.Future V))
         (tasks : dict K (Util.task Arg V)),
    (forall a b, k_eqb a b = true <-> a = b) ->
    (forall l, Permutation (set_iter l) l) ->
    NoDup (map fst tasks) ->
    (forall k v, In (k, v) tasks -> exists r, Util.run v = Ok r) ->
    exists m,
      Util.async_dispatch k_eqb set_iter tasks = Ok m
      /\ List.length m = List.length tasks
      /\ (forall k v r, In (k, v) tasks -> Util.run v = Ok r ->
            dict_get k_eqb k m = Some r)
      /\ (forall k, ~ In k (map fst tasks) -> dict_get k_eqb k m = None).
Proof.
  intros K Arg V k_eqb set_iter tasks Heq Hperm Hnd Hall.
  destruct (async_dispatch_complete K Arg V k_eqb set_iter Hperm Heq tasks
              Hnd Hall) as (m & Hm & Hpk & Hin).
  assert (Hndm : NoDup (map fst m)).
  { eapply Permutation_NoDup; [symmetry; exact Hpk | exact Hnd]. }
  exists m. split; [exact Hm | split; [| split]].
  - rewrite <- (length_map fst m), <- (length_map fst tasks).
    now apply Permutation_length.
  - intros k v r Hkv Hr.
    destruct (Hin k v Hkv) as (r' & Hr' & Hmem).
    assert (r' = r) by congruence. subst r'.
    now apply (dict_get_present K V k_eqb Heq).
  - intros k Hk. apply (dict_get_absent K V k_eqb Heq).
    intros Hkm. apply Hk.
    eapply Permutation_in; [exact Hpk | exact Hkm].
Qed.

Lemma dispatch_binds_witness :
  exists m,
    Util.async_dispatch String.eqb (@rev _) example_ok_tasks = Ok m
    /\ List.length m = 3
    /\ (forall k v r, In (k, v) example_ok_tasks -> Util.run v = Ok r ->
          dict_get String.eqb k m = Some r)
    /\ (forall k, ~ In k (map fst example_ok_tasks) ->
          dict_get String.eqb k m = None).
Proof.
  apply (dispatch_binds_each_key_to_its_result string unit Z String.eqb
           (@rev _) example_ok_tasks String.eqb_eq (rev_is_permutation _)).
  - repeat constructor; simpl; intuition discriminate.
  - intros k v Hin. simpl in Hin.
    destruct Hin as [H | [H | [H | []]]]; inversion H; subst;
      eexists; reflexivity.
Defined.

(** ** More on the order of results *)

Lemma sort_of_sorted (A : Type) (key : A -> list (list Natsort.chunk))
    (l : list A) :
  StronglySorted (key_le key) l -> Natsort.sort key l = l.
Proof.
  induction 1 as [| x l Hs IH Hx]; simpl; [reflexivity |].
  rewrite IH. destruct l as [| y l]; simpl; [reflexivity |].
  inversion Hx as [| ? ? Hxy _]; subst. unfold key_le in Hxy.
  now rewrite Hxy.
Qed.

(** X6: sorting a sorted mapping again changes nothing. *)
Theorem nodesort_is_idempotent :
  forall (V : Type) (nodes : dict Node V),
    NoDup (map fst nodes) ->
    Util.nodesort (Util.nodesort nodes) = Util.nodesort nodes.
Proof.
  intros V nodes Hnd.
  rewrite (nodesort_is_sort V nodes Hnd).
  rewrite nodesort_is_sort.
  - apply sort_of_sorted, sort_strongly_sorted.
  - eapply Permutation_NoDup; [| exact Hnd].
    apply Permutation_map. symmetry. apply sort_perm.
Qed.

Lemma nodesort_is_idempotent_witness :
  Util.nodesort
    (Util.nodesort [(node10, 3%Z); (node2, 2%Z); (node20, 4%Z); (node1, 1%Z)])
  = Util.nodesort [(node10, 3%Z); (node2, 2%Z); (node20, 4%Z); (node1, 1%Z)].
Proof.
  apply nodesort_is_idempotent.
  repeat constructor; simpl; intuition discriminate.
Defined.

Lemma strongly_sorted_after (A : Type) (R : A -> A -> Prop)
    (l1 : list A) (x : A) (l2 : list A) :
  StronglySorted R (l1 ++ x :: l2) -> Forall (R x) l2.
Proof.
  induction l1 as [| a l1 IH]; simpl; intros H;
    apply StronglySorted_inv in H; destruct H as [H1 H2]; auto.
Qed.

Lemma smaller_key_before (A : Type) (key : A -> list (list Natsort.chunk))
    (l : list A) (x y : A) :
  StronglySorted (key_le key) l ->
  In x l -> In y l ->
  Natsort.key_compare (key x) (key y) = Lt ->
  before x y l.
Proof.
  intros Hs Hx Hy Hlt.
  destruct (in_split x l Hx) as (l1 & l2 & ->).
  apply in_app_or in Hy. destruct Hy as [Hy | [Hy | Hy]].
  - exfalso. destruct (in_split y l1 Hy) as (a & b & ->).
    rewrite <- app_assoc in Hs. simpl in Hs.
    apply strongly_sorted_after in Hs.
    rewrite Forall_forall in Hs.
    specialize (Hs x (in_elt x b l2)).
    apply key_le_compare in Hs.
    rewrite (key_compare_antisym (key y) (key x)), Hlt in Hs. now apply Hs.
  - subst y.
    rewrite (total_comparison_refl _ _ key_compare_total) in Hlt. discriminate.
  - destruct (in_split y l2 Hy) as (a & b & ->).
    now exists l1, a, b.
Qed.

(** X7: in the result of [nodesort] an entry whose key is smaller stands
    before an entry whose key is larger; in particular every node of a
    group whose name is smaller in natural order stands before every node of
    a group whose name is larger, whatever the names of the nodes. *)
Theorem nodesort_puts_smaller_keys_first :
  forall (V : Type) (nodes : dict Node V) (x y : Node * V),
    NoDup (map fst nodes) ->
    In x nodes -> In y nodes ->
    (Natsort.key_compare (item_key x) (item_key y) = Lt ->
     before x y (Util.nodesort nodes))
    /\
    (Natsort.lex_compare Natsort.chunk_compare
       (Natsort.natsort_key (cluster_name (cluster (fst x))))
       (Natsort.natsort_key (cluster_name (cluster (fst y)))) = Lt ->
     before x y (Util.nodesort nodes)).
Proof.
  intros V nodes x y Hnd Hx Hy.
  assert (Hmain : Natsort.key_compare (item_key x) (item_key y) = Lt ->
                  before x y (Util.nodesort nodes)).
  { intros Hlt. rewrite nodesort_is_sort by assumption.
    apply (smaller_key_before _ (@item_key V)); auto.
    - apply sort_strongly_sorted.
    - eapply Permutation_in; [symmetry; apply sort_perm | exact Hx].
    - eapply Permutation_in; [symmetry; apply sort_perm | exact Hy]. }
  split; [exact Hmain |].
  intros Hc. apply Hmain.
  unfold item_key, Natsort.key_compare. simpl. now rewrite Hc.
Qed.

Lemma nodesort_puts_smaller_keys_first_witness :
  before (zeta_of_mx2, 2%Z) (alpha_of_mx10, 1%Z)
    (Util.nodesort [(alpha_of_mx10, 1%Z); (zeta_of_mx2, 2%Z)]).
Proof.
  apply (proj2 (nodesort_puts_smaller_keys_first Z
                  [(alpha_of_mx10, 1%Z); (zeta_of_mx2, 2%Z)]
                  (zeta_of_mx2, 2%Z) (alpha_of_mx10, 1%Z)
                  ltac:(repeat constructor; simpl; intuition discriminate)
                  ltac:(right; left; reflexivity)
                  ltac:(left; reflexivity))).
  reflexivity.
Defined.

(** ** More on [to_base64] and [from_base64] *)

Lemma b2a_length_upto (n : nat) :
  forall s : bytes,
    List.length s <= n ->
    List.length (Base64.b2a_base64 s) = 4 * ((List.length s + 2) / 3).
Proof.
  induction n as [| n IH]; intros s Hlen.
  - destruct s; [reflexivity | simpl in Hlen; lia].
  - destruct s as [| a [| b [| c rest]]]; try reflexivity.
    cbn [Base64.b2a_base64 List.length].
    rewrite IH by (simpl in Hlen; lia).
    replace (S (S (S (List.length rest))) + 2)
      with (1 * 3 + (List.length rest + 2)) by lia.
    rewrite Nat.div_add_l by discriminate. lia.
Qed.

Lemma table_b2a_in_alphabet (v : N) :
  (v < 64)%N -> In (Base64.table_b2a v) (bytes_of_string Base64.alphabet).
Proof.
  intros Hv. unfold Base64.table_b2a. apply nth_In.
  change (List.length (bytes_of_string Base64.alphabet)) with 64. lia.
Qed.

Lemma sextet_char (v : N) : (v < 64)%N -> base64_char (Base64.table_b2a v).
Proof. intros Hv. left. now apply table_b2a_in_alphabet. Qed.

Lemma b2a_chars_upto (n : nat) :
  forall s : bytes,
    List.length s <= n -> Forall (below 256) s ->
    Forall base64_char (Base64.b2a_base64 s).
Proof.
  assert (Hpad : base64_char Base64.PAD) by (right; reflexivity).
  assert (H0 : (0 < 256)%N) by reflexivity.
  induction n as [| n IH]; intros s Hlen Hs.
  - destruct s; [apply Forall_nil | simpl in Hlen; lia].
  - destruct s as [| a [| b [| c rest]]]; cbn [Base64.b2a_base64].
    + apply Forall_nil.
    + inversion Hs as [| ? ? Ha _]; subst. unfold below in Ha.
      apply Forall_cons; [now apply sextet_char, sextet0_bound |].
      apply Forall_cons; [now apply sextet_char, sextet1_bound |].
      apply Forall_cons; [exact Hpad |].
      apply Forall_cons; [exact Hpad | apply Forall_nil].
    + inversion Hs as [| ? ? Ha Hs']; subst.
      inversion Hs' as [| ? ? Hb _]; subst. unfold below in Ha, Hb.
      apply Forall_cons; [now apply sextet_char, sextet0_bound |].
      apply Forall_cons; [now apply sextet_char, sextet1_bound |].
      apply Forall_cons; [now apply sextet_char, sextet2_bound |].
      apply Forall_cons; [exact Hpad | apply Forall_nil].
    + inversion Hs as [| ? ? Ha Hs']; subst.
      inversion Hs' as [| ? ? Hb Hs'']; subst.
      inversion Hs'' as [| ? ? Hc Hrest]; subst.
      unfold below in Ha, Hb, Hc.
      apply Forall_cons; [now apply sextet_char, sextet0_bound |].
      apply Forall_cons; [now apply sextet_char, sextet1_bound |].
      apply Forall_cons; [now apply sextet_char, sextet2_bound |].
      apply Forall_cons; [apply sextet_char, sextet3_bound |].
      apply IH; [simpl in Hlen; lia | assumption].
Qed.

(** X8: the text [to_base64] returns for a text of scalar values has four
    characters for every three bytes of the UTF-8 form of the text, the last
    group being filled up, so its length is a multiple of four, and it is
    made of the 64 characters of the alphabet and ['=']. *)
Theorem to_base64_gives_padded_base64_text :
  forall (v : Util.pyver) (text e : list N),
    Forall (fun cp => Utf8.is_scalar cp = true) text ->
    Util.to_base64 v (Util.PyText text) = Ok e ->
    List.length e = 4 * ((List.length (Utf8.encode text) + 2) / 3)
    /\ Forall base64_char e.
Proof.
  intros v text e Hs He. rewrite to_base64_text in He.
  inversion He; subst e. unfold Base64.b64encode. split.
  - apply (b2a_length_upto (List.length (Utf8.encode text))). apply le_n.
  - apply (b2a_chars_upto (List.length (Utf8.encode text)));
      [apply le_n | now apply encode_bytes].
Qed.

Lemma to_base64_gives_padded_witness :
  List.length (bytes_of_string "aMOp4oKs") = 8
  /\ Forall base64_char (bytes_of_string "aMOp4oKs").
Proof.
  apply (to_base64_gives_padded_base64_text Util.Python3
           [104; 233; 8364]%N (bytes_of_string "aMOp4oKs")).
  - repeat constructor.
  - vm_compute. reflexivity.
Defined.

Lemma ascii_is_scalar (b : bytes) :
  Forall (below 128) b -> Forall (fun cp => Utf8.is_scalar cp = true) b.
Proof.
  apply Forall_impl. unfold below, Utf8.is_scalar, Utf8.is_surrogate.
  intros c Hc. apply andb_true_intro; split.
  - apply N.ltb_lt. lia.
  - apply negb_true_iff, andb_false_iff. left. apply N.leb_gt. lia.
Qed.

Lemma forallb_ascii (b : bytes) :
  Forall (below 128) b -> forallb (fun c => (c <? 128)%N) b = true.
Proof.
  intros H. apply forallb_forall. rewrite Forall_forall in H.
  intros c Hc. apply N.ltb_lt. now apply H.
Qed.

(** X9: under Python 2 a byte string of ASCII characters goes through
    [to_base64] and comes back from [from_base64], whether the encoded form
    is passed on as a byte string or as a text; under Python 3 [to_base64]
    raises [AttributeError] on every byte string that is not empty. *)
Theorem ascii_byte_strings_round_trip_under_python2 :
  forall b : bytes,
    (Forall (below 128) b ->
     exists e,
       Util.to_base64 Util.Python2 (Util.PyBytes b) = Ok e
       /\ Util.from_base64 Util.Python2 (Util.PyBytes e) = Ok b
       /\ Util.from_base64 Util.Python2 (Util.PyText e) = Ok b)
    /\
    (b <> [] ->
     Util.to_base64 Util.Python3 (Util.PyBytes b)
     = Raise (AttributeError "encode")).
Proof.
  intros b. split.
  - intros Hb. exists (Base64.b64encode b).
    assert (Hto : Util.to_base64 Util.Python2 (Util.PyBytes b)
                  = Ok (Base64.b64encode b)).
    { unfold Util.to_base64. destruct b as [| c b]; [reflexivity |].
      cbn [Util.falsy Util.encode_utf8].
      rewrite (forallb_ascii _ Hb). cbn [bind].
      unfold Base64.b64encode. now rewrite decode_ascii by apply b2a_ascii. }
    split; [exact Hto | split].
    + unfold Util.from_base64.
      destruct (Base64.b64encode b) as [| c e] eqn:E.
      * apply b2a_nonempty in E. now subst.
      * cbn [Util.falsy Util.encode_utf8]. rewrite <- E.
        change (Base64.b64encode b) with (Base64.b2a_base64 b).
        rewrite (forallb_ascii _ (b2a_ascii b)). cbn [bind].
        change (Base64.b2a_base64 b) with (Base64.b64encode b).
        rewrite b64decode_b64encode by now apply below_128_256.
        cbn [bind]. now rewrite decode_ascii.
    + rewrite <- (encode_ascii b Hb) at 1.
      apply from_base64_encoded. now apply ascii_is_scalar.
  - intros Hne. destruct b; [congruence | reflexivity].
Qed.

Lemma ascii_byte_strings_witness :
  exists e,
    Util.to_base64 Util.Python2 (Util.PyBytes (bytes_of_string "uptime")) = Ok e
    /\ Util.from_base64 Util.Python2 (Util.PyBytes e)
       = Ok (bytes_of_string "uptime")
    /\ Util.from_base64 Util.Python2 (Util.PyText e)
       = Ok (bytes_of_string "uptime").
Proof.
  apply (proj1 (ascii_byte_strings_round_trip_under_python2
                  (bytes_of_string "uptime"))).
  apply Forall_forall. intros c Hc. simpl in Hc. unfold below.
  repeat (destruct Hc as [<- | Hc]; [reflexivity |]). destruct Hc.
Defined.

Lemma find_valid_skips_blank (c : N) (s1 s2 : bytes) :
  blank c ->
  Base64.find_valid (s1 ++ c :: s2) = Base64.find_valid (s1 ++ s2).
Proof.
  intros Hc. induction s1 as [| x s1 IH]; simpl.
  - destruct Hc as [-> | [-> | ->]]; reflexivity.
  - now rewrite IH.
Qed.

Lemma a2b_loop_skips_blank (c : N) (s2 : bytes) :
  blank c ->
  forall (s1 : bytes) (quad_pos leftchar leftbits : N),
    Base64.a2b_loop (s1 ++ c :: s2) quad_pos leftchar leftbits
    = Base64.a2b_loop (s1 ++ s2) quad_pos leftchar leftbits.
Proof.
  intros Hc. induction s1 as [| x s1 IH]; intros quad_pos leftchar leftbits.
  - cbn [app Base64.a2b_loop].
    destruct Hc as [-> | [-> | ->]]; reflexivity.
  - cbn [app Base64.a2b_loop].
    rewrite (find_valid_skips_blank c s1 s2 Hc).
    destruct ((127 <? x)%N || (x =? 13)%N || (x =? 10)%N || (x =? 32)%N);
      [apply IH |].
    destruct (x =? Base64.PAD)%N.
    + destruct ((quad_pos <? 2)%N
                || (quad_pos =? 2)%N
                   && negb match Base64.find_valid (s1 ++ s2) with
                           | Some c0 => (c0 =? Base64.PAD)%N
                           | None => false
                           end);
        [apply IH | reflexivity].
    + destruct (Base64.table_a2b x) as [v |]; [| apply IH].
      destruct (8 <=? leftbits + 6)%N; [| apply IH].
      now rewrite IH.
Qed.

Lemma encode_app (s1 s2 : list N) :
  Utf8.encode (s1 ++ s2) = Utf8.encode s1 ++ Utf8.encode s2.
Proof. unfold Utf8.encode. apply flat_map_app. Qed.

(** X10: a line feed, carriage return or space anywhere in the text does
    not change what [from_base64] returns. *)
Theorem from_base64_ignores_blanks :
  forall (v : Util.pyver) (s1 s2 : list N) (c : N),
    blank c ->
    Util.from_base64 v (Util.PyText (s1 ++ c :: s2))
    = Util.from_base64 v (Util.PyText (s1 ++ s2)).
Proof.
  intros v s1 s2 c Hc.
  assert (Hc128 : (c < 128)%N) by (destruct Hc as [-> | [-> | ->]]; reflexivity).
  assert (Henc : Utf8.encode (s1 ++ c :: s2)
                 = Utf8.encode s1 ++ c :: Utf8.encode s2).
  { rewrite encode_app. f_equal. unfold Utf8.encode. cbn [flat_map].
    now rewrite encode_cp_1. }
  assert (Hdec : Base64.b64decode (Utf8.encode (s1 ++ c :: s2))
                 = Base64.b64decode (Utf8.encode (s1 ++ s2))).
  { rewrite Henc, encode_app.
    unfold Base64.b64decode, Base64.a2b_base64.
    now rewrite a2b_loop_skips_blank. }
  unfold Util.from_base64.
  replace (Util.falsy (Util.PyText (s1 ++ c :: s2))) with false
    by (destruct s1; reflexivity).
  cbn [Util.encode_utf8 bind]. rewrite Hdec.
  destruct (s1 ++ s2) as [| x t] eqn:E; [reflexivity |].
  reflexivity.
Qed.

Lemma from_base64_ignores_blanks_witness :
  Util.from_base64 Util.Python3
    (Util.PyText (bytes_of_string "aGVs" ++ 10%N :: bytes_of_string "bG8="))
  = Util.from_base64 Util.Python3
      (Util.PyText (bytes_of_string "aGVs" ++ bytes_of_string "bG8=")).
Proof.
  apply from_base64_ignores_blanks. left. reflexivity.
Defined.

(** ** Slices of lists *)

Lemma split_colon_from_no_colon (s : string) :
  forall cur, no_colon s = true ->
    Main.split_colon_from s cur = [(cur ++ s)%string].
Proof.
  induction s as [| c s IH]; intros cur H; simpl in *.
  - now rewrite string_append_nil_r.
  - apply andb_prop in H. destruct H as [Hc Hs].
    apply negb_true_iff in Hc. rewrite Hc.
    rewrite IH by assumption. now rewrite string_append_assoc.
Qed.

Lemma split_colon_from_colon (s rest : string) :
  forall cur, no_colon s = true ->
    Main.split_colon_from (s ++ String ":" rest) cur
    = (cur ++ s)%string :: Main.split_colon_from rest EmptyString.
Proof.
  induction s as [| c s IH]; intros cur H; simpl in *.
  - now rewrite string_append_nil_r.
  - apply andb_prop in H. destruct H as [Hc Hs].
    apply negb_true_iff in Hc. rewrite Hc.
    rewrite IH by assumption. now rewrite string_append_assoc.
Qed.

Lemma int_of_str_nonempty (s : string) (n : Z) :
  PySignal.int_of_str s = Some n -> s <> EmptyString.
Proof. intros H ->. discriminate. Qed.

Section SliceFacts.
Variable A : Type.

Lemma skipn_nth_error (l : list A) :
  forall (i : nat) (x : A),
    nth_error l i = Some x -> skipn i l = x :: skipn (S i) l.
Proof.
  induction l as [| y l IH]; intros [| i] x H; simpl in *; try discriminate.
  - now inversion H.
  - now apply IH.
Qed.

Lemma take_items_contiguous (l : list A) (n : nat) :
  forall i : nat,
    i + n <= List.length l ->
    PyList.take_items l (Z.of_nat i) 1 n = firstn n (skipn i l).
Proof.
  induction n as [| n IH]; intros i H; [reflexivity |].
  cbn [PyList.take_items]. rewrite Nat2Z.id.
  destruct (nth_error l i) as [x |] eqn:E.
  - rewrite (skipn_nth_error l i x E). cbn [firstn].
    replace (Z.of_nat i + 1)%Z with (Z.of_nat (S i)) by lia.
    rewrite IH by lia. reflexivity.
  - apply nth_error_None in E. lia.
Qed.

Lemma take_items_from_list (l : list A) (step : Z) (n : nat) :
  forall (i : Z) (x : A), In x (PyList.take_items l i step n) -> In x l.
Proof.
  induction n as [| n IH]; intros i x H; simpl in H; [easy |].
  destruct (nth_error l (Z.to_nat i)) as [y |] eqn:E; [| easy].
  destruct H as [<- | H].
  - eapply nth_error_In; eauto.
  - eapply IH; eauto.
Qed.

Lemma adjust_forward (len i : Z) :
  (0 <= i)%Z -> PyList.adjust len 1 i = Z.min i len.
Proof.
  intros Hi. unfold PyList.adjust.
  destruct (Z.ltb_spec i 0); [lia |].
  destruct (Z.leb_spec len i); simpl; lia.
Qed.

Lemma slice_length_forward (start stop : Z) :
  PyList.slice_length start stop 1 = Z.max 0 (stop - start).
Proof.
  unfold PyList.slice_length. change (1 <? 0)%Z with false. cbv iota.
  destruct (Z.ltb_spec start stop); [| lia].
  rewrite Z.div_1_r. lia.
Qed.

(** The items from [i] up to [j], for bounds inside the list. *)
Lemma take_items_range (l : list A) (i j : Z) :
  (0 <= i)%Z -> (i <= Z.of_nat (List.length l))%Z ->
  (j <= Z.of_nat (List.length l))%Z ->
  PyList.take_items l i 1 (Z.to_nat (Z.max 0 (j - i)))
  = firstn (Z.to_nat (j - i)) (skipn (Z.to_nat i) l).
Proof.
  intros Hi Hil Hjl.
  replace (Z.to_nat (Z.max 0 (j - i))) with (Z.to_nat (j - i)) by lia.
  rewrite <- (Z2Nat.id i) at 1 by lia.
  apply take_items_contiguous. lia.
Qed.

(** A slice with bounds that are not negative and no step. *)
Lemma getslice_forward (l : list A) (i j : Z) :
  (0 <= i)%Z -> (0 <= j)%Z ->
  PyList.getslice l (Some i) (Some j) None
  = Ok (firstn (Z.to_nat (j - i)) (skipn (Z.to_nat i) l)).
Proof.
  intros Hi Hj. unfold PyList.getslice, PyList.slice_indices.
  change (1 =? 0)%Z with false. cbv iota.
  rewrite !adjust_forward by assumption. cbn [bind].
  rewrite slice_length_forward. f_equal.
  rewrite take_items_range by lia.
  destruct (Z.le_gt_cases (Z.of_nat (List.length l)) i) as [Hil | Hil].
  - rewrite (Z.min_r i) by lia. rewrite Nat2Z.id.
    rewrite !(skipn_all2 l) by lia. now rewrite !firstn_nil.
  - rewrite (Z.min_l i) by lia.
    destruct (Z.le_gt_cases (Z.of_nat (List.length l)) j) as [Hjl | Hjl].
    + rewrite (Z.min_r j) by lia.
      rewrite !firstn_all2; auto; rewrite length_skipn; lia.
    + now rewrite (Z.min_l j) by lia.
Qed.

Lemma getslice_to_end (l : list A) (i : Z) :
  (0 <= i)%Z ->
  PyList.getslice l (Some i) None None = Ok (skipn (Z.to_nat i) l).
Proof.
  intros Hi. unfold PyList.getslice, PyList.slice_indices.
  change (1 =? 0)%Z with false. cbv iota. change (1 <? 0)%Z with false. cbv iota.
  rewrite adjust_forward by assumption. cbn [bind].
  rewrite slice_length_forward. f_equal.
  rewrite take_items_range by lia.
  destruct (Z.le_gt_cases (Z.of_nat (List.length l)) i) as [Hil | Hil].
  - rewrite Z.min_r by lia. rewrite Nat2Z.id.
    rewrite !(skipn_all2 l) by lia. now rewrite firstn_nil.
  - rewrite Z.min_l by lia.
    apply firstn_all2. rewrite length_skipn. lia.
Qed.

Lemma getslice_from_start (l : list A) (j : Z) :
  (0 <= j)%Z ->
  PyList.getslice l None (Some j) None = Ok (firstn (Z.to_nat j) l).
Proof.
  intros Hj. unfold PyList.getslice, PyList.slice_indices.
  change (1 =? 0)%Z with false. cbv iota. change (1 <? 0)%Z with false. cbv iota.
  rewrite adjust_forward by assumption. cbn [bind].
  rewrite slice_length_forward. f_equal.
  rewrite take_items_range by lia.
  rewrite Z.sub_0_r. cbn [Z.to_nat skipn].
  destruct (Z.le_gt_cases (Z.of_nat (List.length l)) j) as [Hjl | Hjl].
  - rewrite Z.min_r by lia. rewrite Nat2Z.id.
    rewrite !firstn_all2; auto; lia.
  - now rewrite Z.min_l by lia.
Qed.

End SliceFacts.

(** ** apply_slice *)

Lemma parse_parts_number (p : string) (n o : Z) (i : nat) (rest : list string) :
  PySignal.int_of_str p = Some n ->
  nth_error Main.offsets i = Some o ->
  Main.parse_parts i (p :: rest)
  = bind (Main.parse_parts (S i) rest) (fun xs => Ok (Some (n + o)%Z :: xs)).
Proof.
  intros Hp Ho. cbn [Main.parse_parts].
  destruct p as [| c p]; [discriminate |].
  rewrite Hp, Ho. reflexivity.
Qed.

Lemma parse_parts_empty (i : nat) (rest : list string) :
  Main.parse_parts i (EmptyString :: rest)
  = bind (Main.parse_parts (S i) rest) (fun xs => Ok (None :: xs)).
Proof. reflexivity. Qed.

Lemma apply_slice_nonempty (A : Type) (l : list A) (s : string) :
  s <> EmptyString ->
  Main.apply_slice l s
  = bind (Main.parse_parts 0 (Main.split_colon s))
      (fun parts =>
         match parts with
         | [start; stop] => PyList.getslice l start stop None
         | [start; stop; step] => PyList.getslice l start stop step
         | [Some n] => bind (PyList.getitem l n) (fun x => Ok [x])
         | _ => Raise TypeError
         end).
Proof. destruct s; [congruence | reflexivity]. Qed.

Lemma append_nonempty_l (s t : string) :
  s <> EmptyString -> (s ++ t)%string <> EmptyString.
Proof. destruct s; [congruence | discriminate]. Qed.

(** X11: a slice ["a:b"] of two numbers, [a] at least 1 and [b] not
    negative, selects the elements from the [a]-th to the [b]-th, counted
    from 1 and both included; ["a:"] selects from the [a]-th on and [":b"]
    the first [b]. *)
Theorem apply_slice_counts_from_one :
  forall (A : Type) (l : list A) (sa sb : string) (a b : Z),
    no_colon sa = true -> no_colon sb = true ->
    PySignal.int_of_str sa = Some a -> PySignal.int_of_str sb = Some b ->
    (1 <= a)%Z -> (0 <= b)%Z ->
    Main.apply_slice l (sa ++ String ":" sb)
    = Ok (firstn (Z.to_nat (b - (a - 1))) (skipn (Z.to_nat (a - 1)) l))
    /\ Main.apply_slice l (sa ++ String ":" EmptyString)
       = Ok (skipn (Z.to_nat (a - 1)) l)
    /\ Main.apply_slice l (String ":" sb) = Ok (firstn (Z.to_nat b) l).
Proof.
  intros A l sa sb a b Hca Hcb Ha Hb Ha1 Hb0.
  pose proof (int_of_str_nonempty sa a Ha) as Hna.
  split; [| split].
  - rewrite apply_slice_nonempty by now apply append_nonempty_l.
    unfold Main.split_colon.
    rewrite split_colon_from_colon by assumption.
    rewrite split_colon_from_no_colon by assumption. cbn [String.append].
    rewrite (parse_parts_number sa a (-1)%Z) by (auto; reflexivity).
    rewrite (parse_parts_number sb b 0%Z) by (auto; reflexivity).
    cbn [Main.parse_parts bind].
    rewrite getslice_forward by lia.
    repeat f_equal; lia.
  - rewrite apply_slice_nonempty by now apply append_nonempty_l.
    unfold Main.split_colon.
    rewrite split_colon_from_colon by assumption.
    cbn [Main.split_colon_from String.append].
    rewrite (parse_parts_number sa a (-1)%Z) by (auto; reflexivity).
    rewrite parse_parts_empty. cbn [Main.parse_parts bind].
    rewrite getslice_to_end by lia.
    repeat f_equal; lia.
  - rewrite apply_slice_nonempty by discriminate.
    unfold Main.split_colon.
    change (Main.split_colon_from (String ":" sb) EmptyString)
      with (EmptyString :: Main.split_colon_from sb EmptyString).
    rewrite split_colon_from_no_colon by assumption. cbn [String.append].
    rewrite parse_parts_empty.
    rewrite (parse_parts_number sb b 0%Z) by (auto; reflexivity).
    cbn [Main.parse_parts bind].
    rewrite getslice_from_start by lia.
    repeat f_equal; lia.
Qed.

Lemma apply_slice_counts_from_one_witness :
  Main.apply_slice ["a"; "b"; "c"; "d"; "e"]%string "2:4"
  = Ok ["b"; "c"; "d"]%string
  /\ Main.apply_slice ["a"; "b"; "c"; "d"; "e"]%string "2:"
     = Ok ["b"; "c"; "d"; "e"]%string
  /\ Main.apply_slice ["a"; "b"; "c"; "d"; "e"]%string ":4"
     = Ok ["a"; "b"; "c"; "d"]%string.
Proof.
  apply (apply_slice_counts_from_one string ["a"; "b"; "c"; "d"; "e"]%string
           "2" "4" 2 4); reflexivity || lia.
Defined.

(** X12: a slice that is one number [k] selects one element: the [k]-th
    counted from 1 for [k] from 1 to the length, the element [1 - k] places
    before the last for [k] from [1 - length] to 0 (so ["0"] is the last
    element), and it raises [IndexError] for every other [k]. *)
Theorem apply_slice_single_index :
  forall (A : Type) (l : list A) (s : string) (k : Z),
    no_colon s = true ->
    PySignal.int_of_str s = Some k ->
    ((1 <= k <= Z.of_nat (List.length l))%Z ->
     exists x, nth_error l (Z.to_nat (k - 1)) = Some x
               /\ Main.apply_slice l s = Ok [x])
    /\
    ((1 - Z.of_nat (List.length l) <= k <= 0)%Z ->
     exists x,
       nth_error l (Z.to_nat (Z.of_nat (List.length l) + k - 1)) = Some x
       /\ Main.apply_slice l s = Ok [x])
    /\
    ((k < 1 - Z.of_nat (List.length l) \/ Z.of_nat (List.length l) < k)%Z ->
     Main.apply_slice l s = Raise (OtherExc "IndexError")).
Proof.
  intros A l s k Hc Hk.
  assert (Hs : Main.apply_slice l s
               = bind (PyList.getitem l (k - 1)) (fun x => Ok [x])).
  { rewrite apply_slice_nonempty by now apply (int_of_str_nonempty s k).
    unfold Main.split_colon.
    rewrite split_colon_from_no_colon by assumption. cbn [String.append].
    rewrite (parse_parts_number s k (-1)%Z) by (auto; reflexivity).
    cbn [Main.parse_parts bind]. reflexivity. }
  rewrite Hs. unfold PyList.getitem. cbv zeta.
  set (len := Z.of_nat (List.length l)).
  split; [| split].
  - intros Hr.
    rewrite (proj2 (Z.ltb_ge (k - 1) 0)) by lia.
    rewrite (proj2 (Z.ltb_ge (k - 1) 0)) by lia.
    rewrite (proj2 (Z.leb_gt len (k - 1))) by lia. cbn [orb].
    destruct (nth_error l (Z.to_nat (k - 1))) as [x |] eqn:E.
    + exists x. auto.
    + apply nth_error_None in E. unfold len in Hr. lia.
  - intros Hr.
    rewrite (proj2 (Z.ltb_lt (k - 1) 0)) by lia.
    rewrite (proj2 (Z.ltb_ge (k - 1 + len) 0)) by lia.
    rewrite (proj2 (Z.leb_gt len (k - 1 + len))) by lia. cbn [orb].
    replace (k - 1 + len)%Z with (len + k - 1)%Z by lia.
    destruct (nth_error l (Z.to_nat (len + k - 1))) as [x |] eqn:E.
    + exists x. auto.
    + apply nth_error_None in E. unfold len in *. lia.
  - intros [Hr | Hr].
    + rewrite (proj2 (Z.ltb_lt (k - 1) 0)) by lia.
      rewrite (proj2 (Z.ltb_lt (k - 1 + len) 0)) by lia. reflexivity.
    + rewrite (proj2 (Z.ltb_ge (k - 1) 0)) by lia.
      rewrite (proj2 (Z.ltb_ge (k - 1) 0)) by lia.
      rewrite (proj2 (Z.leb_le len (k - 1))) by lia. reflexivity.
Qed.

Lemma apply_slice_single_index_witness :
  exists x,
    nth_error ["a"; "b"; "c"]%string (Z.to_nat (3 + 0 - 1)) = Some x
    /\ Main.apply_slice ["a"; "b"; "c"]%string "0" = Ok [x].
Proof.
  apply (proj1 (proj2 (apply_slice_single_index string
                         ["a"; "b"; "c"]%string "0" 0 eq_refl eq_refl))).
  simpl; lia.
Defined.

Lemma getitem_from_list (A : Type) (l : list A) (n : Z) (x : A) :
  PyList.getitem l n = Ok x -> In x l.
Proof.
  unfold PyList.getitem. cbv zeta.
  destruct (_ || _)%bool; [discriminate |].
  destruct (nth_error l _) as [y |] eqn:E; [| discriminate].
  intros H; inversion H; subst. eapply nth_error_In; eauto.
Qed.

Lemma getslice_from_list (A : Type) (l : list A) (start stop step : option Z)
    (r : list A) (x : A) :
  PyList.getslice l start stop step = Ok r -> In x r -> In x l.
Proof.
  unfold PyList.getslice.
  destruct (PyList.slice_indices _ _ _ _) as [[[a b] c] |]; [| discriminate].
  cbn [bind]. intros H; inversion H; subst.
  apply take_items_from_list.
Qed.

Lemma apply_slice_from_list (A : Type) (l : list A) (s : string)
    (r : list A) (x : A) :
  Main.apply_slice l s = Ok r -> In x r -> In x l.
Proof.
  unfold Main.apply_slice. destruct s as [| c s].
  - intros H; inversion H; subst; auto.
  - destruct (Main.parse_parts _ _) as [parts |]; [| discriminate].
    cbn [bind].
    destruct parts as [| p0 [| p1 [| p2 [| p3 rest]]]]; try discriminate.
    + destruct p0 as [n |]; [| discriminate].
      destruct (PyList.getitem l n) as [y |] eqn:E; [| discriminate].
      cbn [bind]. intros H; inversion H; subst.
      intros [<- | []]. eapply getitem_from_list; eauto.
    + destruct p0; apply getslice_from_list.
    + destruct p0; apply getslice_from_list.
    + destruct p0; discriminate.
Qed.

(** X13: whatever the slice, the elements [apply_slice] returns are
    elements of the list it was given. *)
Theorem apply_slice_selects_from_the_list :
  forall (A : Type) (l : list A) (s : string) (r : list A),
    Main.apply_slice l s = Ok r -> forall x, In x r -> In x l.
Proof.
  intros A l s r H x. now apply (apply_slice_from_list A l s r x).
Qed.

Lemma apply_slice_selects_witness :
  Forall (fun x => In x ["a"; "b"; "c"; "d"; "e"]%string) ["e"; "c"; "a"]%string.
Proof.
  apply Forall_forall.
  apply (apply_slice_selects_from_the_list string
           ["a"; "b"; "c"; "d"; "e"]%string "::-2").
  reflexivity.
Defined.

(** ** apply_filter *)

Lemma cluster_targets_known (available_clusters : dict string (list Node))
    (clusters : list string) (mss : list (list Node)) :
  Forall2 (fun cid ms => dict_get String.eqb cid available_clusters = Some ms)
    clusters mss ->
  forall targets,
    Main.cluster_targets available_clusters EmptyString clusters targets
    = Ok (targets ++ List.concat mss).
Proof.
  induction 1 as [| cid ms clusters mss Hc _ IH]; intros targets; simpl.
  - now rewrite app_nil_r.
  - unfold Main.lookup. rewrite Hc. cbn [bind Main.apply_slice].
    rewrite IH. now rewrite app_assoc.
Qed.

Lemma cluster_targets_unknown (available_clusters : dict string (list Node))
    (cid : string) (clusters : list string) :
  In cid clusters ->
  dict_get String.eqb cid available_clusters = None ->
  forall targets,
    Main.cluster_targets available_clusters EmptyString clusters targets
    = Raise (OtherExc "KeyError").
Proof.
  intros Hin Hnone.
  induction clusters as [| c clusters IH]; intros targets; [easy |].
  simpl. unfold Main.lookup.
  destruct (dict_get String.eqb c available_clusters) as [ms |] eqn:E;
    [| reflexivity].
  cbn [bind Main.apply_slice].
  destruct Hin as [-> | Hin]; [congruence | now apply IH].
Qed.

Lemma named_nodes_known (available_nodes : dict string Node)
    (nodes : list string) (ns : list Node) :
  Forall2 (fun nid n => dict_get String.eqb nid available_nodes = Some n)
    nodes ns ->
  Main.named_nodes available_nodes nodes = Ok ns.
Proof.
  induction 1 as [| nid n nodes ns Hn _ IH]; simpl; [reflexivity |].
  unfold Main.lookup. rewrite Hn. cbn [bind]. now rewrite IH.
Qed.

Lemma named_nodes_unknown (available_nodes : dict string Node)
    (nid : string) (nodes : list string) :
  In nid nodes ->
  dict_get String.eqb nid available_nodes = None ->
  Main.named_nodes available_nodes nodes = Raise (OtherExc "KeyError").
Proof.
  intros Hin Hnone.
  induction nodes as [| n nodes IH]; [easy |].
  simpl. unfold Main.lookup.
  destruct (dict_get String.eqb n available_nodes) as [x |] eqn:E;
    [| reflexivity].
  cbn [bind].
  destruct Hin as [-> | Hin]; [congruence |].
  now rewrite IH.
Qed.

Lemma length_zero_test (A : Type) (l : list A) :
  (List.length l =? 0) = match l with [] => true | _ => false end.
Proof. now destruct l. Qed.

Lemma length_positive_test (A : Type) (l : list A) :
  (0 <? List.length l) = match l with [] => false | _ => true end.
Proof. now destruct l. Qed.

(** X14: without a slice and with names that are all known,
    [apply_filter] returns, in natural order of (group name, node name), all
    available nodes when neither nodes nor groups are named, and otherwise
    the members of the named groups together with the named nodes; a node
    that is selected more than once appears as often as it is selected. *)
Theorem apply_filter_selects_and_sorts :
  forall (ver : Util.pyver) (available_nodes : dict string Node)
         (available_clusters : dict string (list Node))
         (nodes clusters : list string)
         (mss : list (list Node)) (ns : list Node),
    Forall2 (fun cid ms => dict_get String.eqb cid available_clusters = Some ms)
      clusters mss ->
    Forall2 (fun nid n => dict_get String.eqb nid available_nodes = Some n)
      nodes ns ->
    exists r,
      Main.apply_filter ver available_nodes available_clusters nodes clusters
        EmptyString = Ok r
      /\ Sorted (key_le target_key) r
      /\ Permutation r
           (match nodes, clusters with
            | [], [] => map snd available_nodes
            | _, _ => List.concat mss ++ ns
            end).
Proof.
  intros ver an ac nodes clusters mss ns Hc Hn.
  unfold Main.apply_filter.
  rewrite (length_zero_test _ nodes), (length_zero_test _ clusters),
    (length_positive_test _ nodes), (length_positive_test _ clusters).
  assert (Hsorted : forall targets,
             Sorted (key_le target_key)
               (Natsort.natsorted Main.node_key targets)
             /\ Permutation (Natsort.natsorted Main.node_key targets) targets).
  { intros targets. split.
    - apply (sort_sorted Node target_key).
    - apply (sort_perm Node target_key). }
  destruct nodes as [| nid nodes]; destruct clusters as [| cid clusters].
  - cbn [andb].
    replace (Main.apply_slice_values ver (map snd an) EmptyString)
      with (Ok (map snd an)) by (now destruct ver).
    cbn [bind].
    eexists; split; [reflexivity | apply Hsorted].
  - cbn [andb]. rewrite (cluster_targets_known ac _ mss Hc). cbn [bind app].
    inversion Hn; subst. rewrite app_nil_r.
    eexists; split; [reflexivity | apply Hsorted].
  - cbn [andb bind]. rewrite (named_nodes_known an _ ns Hn). cbn [bind app].
    inversion Hc; subst. cbn [List.concat app].
    eexists; split; [reflexivity | apply Hsorted].
  - cbn [andb]. rewrite (cluster_targets_known ac _ mss Hc). cbn [bind app].
    rewrite (named_nodes_known an _ ns Hn). cbn [bind].
    eexists; split; [reflexivity | apply Hsorted].
Qed.

Lemma apply_filter_selects_witness :
  exists r,
    Main.apply_filter Util.Python3 example_nodes example_clusters
      ["node2"%string] ["mx"%string; "mx10"%string] EmptyString = Ok r
    /\ Sorted (key_le target_key) r
    /\ Permutation r ([node10; node2; alpha_of_mx10] ++ [node2]).
Proof.
  apply (apply_filter_selects_and_sorts Util.Python3 example_nodes
           example_clusters
           ["node2"%string] ["mx"%string; "mx10"%string]
           [[node10; node2]; [alpha_of_mx10]] [node2]).
  - repeat (constructor; try reflexivity).
  - repeat (constructor; try reflexivity).
Defined.

(** The same selection computed: node2 is selected twice and listed twice. *)
Example apply_filter_keeps_duplicates :
  Main.apply_filter Util.Python2 example_nodes example_clusters
    ["node2"%string] ["mx"%string; "mx10"%string] EmptyString
  = Ok [node2; node2; node10; alpha_of_mx10].
Proof. vm_compute. reflexivity. Qed.

(** X15: without a slice, [apply_filter] raises [KeyError] when a named
    group is not among the available groups, and when all named groups are
    available and a named node is not among the available nodes. *)
Theorem apply_filter_rejects_unknown_names :
  forall (ver : Util.pyver) (available_nodes : dict string Node)
         (available_clusters : dict string (list Node))
         (nodes clusters : list string),
    (forall cid,
        In cid clusters ->
        dict_get String.eqb cid available_clusters = None ->
        Main.apply_filter ver available_nodes available_clusters nodes
          clusters EmptyString = Raise (OtherExc "KeyError"))
    /\
    (forall nid mss,
        Forall2 (fun cid ms =>
                   dict_get String.eqb cid available_clusters = Some ms)
          clusters mss ->
        In nid nodes ->
        dict_get String.eqb nid available_nodes = None ->
        Main.apply_filter ver available_nodes available_clusters nodes
          clusters EmptyString = Raise (OtherExc "KeyError")).
Proof.
  intros ver an ac nodes clusters. unfold Main.apply_filter.
  rewrite (length_zero_test _ nodes), (length_zero_test _ clusters),
    (length_positive_test _ nodes), (length_positive_test _ clusters).
  split.
  - intros cid Hin Hnone.
    destruct clusters as [| c clusters]; [destruct Hin |].
    rewrite andb_false_r.
    now rewrite (cluster_targets_unknown ac cid (c :: clusters) Hin Hnone).
  - intros nid mss Hc Hin Hnone.
    destruct nodes as [| n nodes]; [destruct Hin |].
    cbn [andb].
    destruct clusters as [| c clusters].
    + cbn [bind]. now rewrite (named_nodes_unknown an nid (n :: nodes) Hin Hnone).
    + rewrite (cluster_targets_known ac _ mss Hc). cbn [bind].
      now rewrite (named_nodes_unknown an nid (n :: nodes) Hin Hnone).
Qed.

Lemma apply_filter_rejects_witness :
  Main.apply_filter Util.Python2 example_nodes example_clusters
    ["node2"%string] ["mx"%string; "mx3"%string] EmptyString
  = Raise (OtherExc "KeyError").
Proof.
  apply (proj1 (apply_filter_rejects_unknown_names Util.Python2
                  example_nodes example_clusters ["node2"%string]
                  ["mx"%string; "mx3"%string]) "mx3"%string).
  - right; left; reflexivity.
  - reflexivity.
Defined.

Lemma dict_get_value (V : Type) (d : dict string V) (k : string) (v : V) :
  dict_get String.eqb k d = Some v -> In v (map snd d).
Proof.
  induction d as [| [k' v'] d IH]; simpl; [discriminate |].
  destruct (String.eqb k k').
  - intros H; inversion H; auto.
  - auto.
Qed.

Lemma cluster_targets_from (available_clusters : dict string (list Node))
    (slice_ : string) (clusters : list string) :
  forall (targets r : list Node),
    Main.cluster_targets available_clusters slice_ clusters targets = Ok r ->
    forall n, In n r ->
      In n targets
      \/ exists cid ms,
           In cid clusters
           /\ dict_get String.eqb cid available_clusters = Some ms
           /\ In n ms.
Proof.
  induction clusters as [| cid clusters IH]; intros targets r H n Hn.
  - simpl in H. inversion H; subst. auto.
  - simpl in H. unfold Main.lookup in H.
    destruct (dict_get String.eqb cid available_clusters) as [ms |] eqn:E;
      [| discriminate].
    cbn [bind] in H.
    destruct (Main.apply_slice ms slice_) as [chosen |] eqn:Es;
      [| discriminate].
    cbn [bind] in H.
    destruct (IH _ _ H n Hn) as [Hin | (c & ms' & Hc & Hd & Hm)].
    + apply in_app_or in Hin. destruct Hin as [Hin | Hin]; auto.
      right. exists cid, ms. repeat split; auto.
      * now left.
      * eapply apply_slice_from_list; eauto.
    + right. exists c, ms'. repeat split; auto. now right.
Qed.

Lemma named_nodes_from (available_nodes : dict string Node)
    (nodes : list string) :
  forall ns, Main.named_nodes available_nodes nodes = Ok ns ->
    forall n, In n ns -> In n (map snd available_nodes).
Proof.
  induction nodes as [| nid nodes IH]; intros ns H n Hn; simpl in H.
  - inversion H; subst. destruct Hn.
  - unfold Main.lookup in H.
    destruct (dict_get String.eqb nid available_nodes) as [x |] eqn:E;
      [| discriminate].
    cbn [bind] in H.
    destruct (Main.named_nodes available_nodes nodes) as [others |];
      [| discriminate].
    cbn [bind] in H. inversion H; subst.
    destruct Hn as [<- | Hn].
    + eapply dict_get_value; eauto.
    + eapply IH; eauto.
Qed.

(** X16: whatever the slice, a list [apply_filter] returns is in natural
    order of (group name, node name), and each of its nodes is an available
    node or a member of one of the named groups. *)
Theorem apply_filter_returns_sorted_available_nodes :
  forall (ver : Util.pyver) (available_nodes : dict string Node)
         (available_clusters : dict string (list Node))
         (nodes clusters : list string) (slice_ : string) (r : list Node),
    Main.apply_filter ver available_nodes available_clusters nodes clusters
      slice_
    = Ok r ->
    Sorted (key_le target_key) r
    /\ forall n, In n r ->
         In n (map snd available_nodes)
         \/ exists cid ms,
              In cid clusters
              /\ dict_get String.eqb cid available_clusters = Some ms
              /\ In n ms.
Proof.
  intros ver an ac nodes clusters slice_ r H.
  unfold Main.apply_filter in H.
  match type of H with
  | bind ?first _ = _ => destruct first as [targets |] eqn:E1; [| discriminate]
  end.
  cbn [bind] in H.
  match type of H with
  | bind ?second _ = _ => destruct second as [targets' |] eqn:E2; [| discriminate]
  end.
  cbn [bind] in H. inversion H; subst r. split.
  - apply (sort_sorted Node target_key).
  - intros n Hn.
    apply (Permutation_in _ (sort_perm Node target_key targets')) in Hn.
    assert (H1 : forall x, In x targets ->
                 In x (map snd an)
                 \/ exists cid ms,
                      In cid clusters
                      /\ dict_get String.eqb cid ac = Some ms /\ In x ms).
    { intros x Hx.
      destruct ((List.length nodes =? 0) && (List.length clusters =? 0)).
      - left. destruct ver; cbn [Main.apply_slice_values] in E1.
        + eapply apply_slice_from_list; eauto.
        + destruct slice_.
          * inversion E1; subst. assumption.
          * destruct (Main.parse_parts 0 (Main.split_colon (String a slice_)));
              discriminate.
      - destruct (0 <? List.length clusters).
        + destruct (cluster_targets_from ac slice_ clusters [] targets E1 x Hx)
            as [[] | Hc]; auto.
        + inversion E1; subst. destruct Hx. }
    destruct (0 <? List.length nodes).
    + destruct (Main.named_nodes an nodes) as [named |] eqn:En;
        [| discriminate].
      cbn [bind] in E2. inversion E2; subst.
      apply in_app_or in Hn. destruct Hn as [Hn | Hn]; auto.
      left. eapply named_nodes_from; eauto.
    + inversion E2; subst. auto.
Qed.

Lemma apply_filter_returns_sorted_witness :
  Sorted (key_le target_key) [node2; node2].
Proof.
  apply (apply_filter_returns_sorted_available_nodes Util.Python2
           example_nodes example_clusters ["node2"%string] ["mx"%string; "mx10"%string]
           "2:"%string [node2; node2]).
  vm_compute. reflexivity.
Defined.

(** ** textualize *)

Lemma td_gt_day_hour (t : UtilMore.timedelta) :
  UtilMore.td_gt t UtilMore.one_day = true ->
  UtilMore.td_gt t UtilMore.one_hour = true.
Proof.
  unfold UtilMore.td_gt. cbn.
  destruct (Z.compare_spec (UtilMore.days t) 1);
    destruct (Z.compare_spec (UtilMore.days t) 0); try lia; try discriminate;
    auto.
Qed.

Lemma td_gt_hour_minute (t : UtilMore.timedelta) :
  UtilMore.td_gt t UtilMore.one_hour = true ->
  UtilMore.td_gt t UtilMore.one_minute = true.
Proof.
  unfold UtilMore.td_gt. cbn.
  destruct (Z.compare_spec (UtilMore.days t) 0); try discriminate; auto.
  destruct (Z.compare_spec (UtilMore.seconds t) 3600);
    destruct (Z.compare_spec (UtilMore.seconds t) 60); try lia;
    try discriminate; auto.
Qed.

(** X17: a timedelta printed for a human never raises and has one of four
    shapes, chosen by strict comparisons: more than one day gives days,
    hours and minutes; more than one hour (up to one day included) gives
    hours and minutes; more than one minute gives minutes; anything else,
    negative durations included, gives the empty text. *)
Theorem textualize_timedelta_shapes
    (int_total_seconds : UtilMore.timedelta -> Z) (t : UtilMore.timedelta) :
  let d := UtilMore.str_of_int (UtilMore.days t) in
  let h := UtilMore.str_of_int (UtilMore.seconds t / 3600) in
  let m := UtilMore.str_of_int ((UtilMore.seconds t / 60) mod 60) in
  UtilMore.textualize int_total_seconds (UtilMore.ITimedelta t) false
  = Ok (UtilMore.OText
          (if UtilMore.td_gt t UtilMore.one_day
           then d ++ "d " ++ h ++ "h " ++ m ++ "m"
           else if UtilMore.td_gt t UtilMore.one_hour
           then h ++ "h " ++ m ++ "m"
           else if UtilMore.td_gt t UtilMore.one_minute
           then m ++ "m"
           else EmptyString)%string).
Proof.
  intros d h m. unfold UtilMore.textualize. cbn [negb].
  destruct (UtilMore.td_gt t UtilMore.one_day) eqn:Hd.
  - rewrite (td_gt_day_hour t Hd).
    rewrite (td_gt_hour_minute t (td_gt_day_hour t Hd)).
    reflexivity.
  - destruct (UtilMore.td_gt t UtilMore.one_hour) eqn:Hh.
    + rewrite (td_gt_hour_minute t Hh). reflexivity.
    + destruct (UtilMore.td_gt t UtilMore.one_minute); reflexivity.
Qed.

Lemma textualize_timedelta_shapes_witness :
  UtilMore.textualize (fun _ => 0%Z)
    (UtilMore.ITimedelta
       {| UtilMore.days := 1; UtilMore.seconds := 0;
          UtilMore.microseconds := 0 |}) false
  = Ok (UtilMore.OText "0h 0m").
Proof.
  exact (textualize_timedelta_shapes (fun _ => 0%Z)
           {| UtilMore.days := 1; UtilMore.seconds := 0;
              UtilMore.microseconds := 0 |}).
Defined.

(** X18: for a timedelta of more than one day the three printed numbers
    take the duration apart, cut to whole minutes: the hours are below 24,
    the minutes below 60, and days, hours and minutes together are at most
    59 seconds short of the duration. *)
Theorem textualize_fields_decompose_the_duration
    (int_total_seconds : UtilMore.timedelta -> Z) (t : UtilMore.timedelta) :
  normalized t ->
  UtilMore.td_gt t UtilMore.one_day = true ->
  exists h m : Z,
    UtilMore.textualize int_total_seconds (UtilMore.ITimedelta t) false
    = Ok (UtilMore.OText
            (UtilMore.str_of_int (UtilMore.days t) ++ "d "
             ++ UtilMore.str_of_int h ++ "h "
             ++ UtilMore.str_of_int m ++ "m")%string)
    /\ (0 <= h < 24)%Z /\ (0 <= m < 60)%Z
    /\ (let whole := (UtilMore.days t * 86400 + h * 3600 + m * 60)%Z in
        let duration := (UtilMore.days t * 86400 + UtilMore.seconds t)%Z in
        whole <= duration < whole + 60)%Z.
Proof.
  intros [Hs _] Hd.
  exists (UtilMore.seconds t / 3600)%Z, ((UtilMore.seconds t / 60) mod 60)%Z.
  split; [| split; [| split]].
  - unfold UtilMore.textualize. cbn [negb]. rewrite Hd.
    rewrite (td_gt_day_hour t Hd).
    rewrite (td_gt_hour_minute t (td_gt_day_hour t Hd)).
    reflexivity.
  - nlia.
  - nlia.
  - cbv zeta. nlia.
Qed.

Lemma textualize_fields_decompose_witness :
  exists h m : Z,
    UtilMore.textualize (fun _ => 0%Z)
      (UtilMore.ITimedelta
         {| UtilMore.days := 2; UtilMore.seconds := 3725;
            UtilMore.microseconds := 0 |}) false
    = Ok (UtilMore.OText
            ("2d " ++ UtilMore.str_of_int h ++ "h "
             ++ UtilMore.str_of_int m ++ "m")%string)
    /\ (0 <= h < 24)%Z /\ (0 <= m < 60)%Z
    /\ (2 * 86400 + h * 3600 + m * 60 <= 2 * 86400 + 3725
        < 2 * 86400 + h * 3600 + m * 60 + 60)%Z.
Proof.
  apply (textualize_fields_decompose_the_duration (fun _ => 0%Z)
           {| UtilMore.days := 2; UtilMore.seconds := 3725;
              UtilMore.microseconds := 0 |}).
  - unfold normalized. cbn. lia.
  - reflexivity.
Defined.

(** ** ask_confirm *)

Lemma lower_is_empty (s : string) :
  UtilMore.lower s = EmptyString -> s = EmptyString.
Proof. destruct s; [reflexivity | discriminate]. Qed.

Lemma unanswered_lookup (default : bool) (line : string) :
  unanswered line ->
  dict_get String.eqb (UtilMore.lower line) (UtilMore.answers default) = None.
Proof.
  unfold unanswered, UtilMore.answers. intros H. cbn [dict_get].
  repeat match goal with
  | |- context [String.eqb ?a ?b] =>
      destruct (String.eqb_spec a b) as [E | E];
      [exfalso; apply H; rewrite <- E; cbn; auto 10 | clear E]
  end.
  reflexivity.
Qed.

Lemma ask_confirm_loop_retries (prompt : string) (default : bool)
    (bad : list string) :
  forall (rest : list string) (printed : string),
    Forall unanswered bad ->
    UtilMore.ask_confirm_loop prompt default (bad ++ rest) printed
    = UtilMore.ask_confirm_loop prompt default rest
        (printed
         ++ repeat_string (List.length bad)
              (UtilMore.prompt_line prompt default
               ++ UtilMore.retry_line default))%string.
Proof.
  induction bad as [| line bad IH]; intros rest printed Hbad.
  - cbn. now rewrite string_append_nil_r.
  - inversion Hbad as [| ? ? Hline Hbad']; subst.
    cbn [app UtilMore.ask_confirm_loop List.length repeat_string].
    rewrite (unanswered_lookup default line Hline).
    rewrite (IH rest _ Hbad'). f_equal.
    now rewrite !string_append_assoc.
Qed.

(** X19: [ask_confirm] asks again after every line that is not an answer
    and returns at the first that is one, whatever its case: [y] or [yes]
    gives [True], [n] or [no] gives [False], the empty line gives the
    default.  It prints the prompt once per line read and the hint once per
    rejected line, and leaves the lines after the answer unread. *)
Theorem ask_confirm_first_answer_decides
    (prompt : string) (default : bool) (bad : list string) (good : string)
    (rest : list string) (printed : string) (answer : bool) :
  Forall unanswered bad ->
  (In (UtilMore.lower good) ["y"; "yes"]%string /\ answer = true)
  \/ (In (UtilMore.lower good) ["n"; "no"]%string /\ answer = false)
  \/ (good = EmptyString /\ answer = default) ->
  UtilMore.ask_confirm prompt default
    {| UtilMore.stdin := bad ++ good :: rest; UtilMore.stderr := printed |}
  = (Ok answer,
     {| UtilMore.stdin := rest;
        UtilMore.stderr :=
          (printed
           ++ repeat_string (List.length bad)
                (UtilMore.prompt_line prompt default
                 ++ UtilMore.retry_line default)
           ++ UtilMore.prompt_line prompt default)%string |}).
Proof.
  intros Hbad Hgood. unfold UtilMore.ask_confirm.
  cbn [UtilMore.stdin UtilMore.stderr].
  rewrite (ask_confirm_loop_retries prompt default bad (good :: rest) printed
             Hbad).
  cbn [UtilMore.ask_confirm_loop].
  assert (Hget : dict_get String.eqb (UtilMore.lower good)
                   (UtilMore.answers default) = Some answer).
  { destruct Hgood as [[Hin ->] | [[Hin ->] | [-> ->]]].
    - cbn in Hin. destruct Hin as [<- | [<- | []]]; reflexivity.
    - cbn in Hin. destruct Hin as [<- | [<- | []]]; reflexivity.
    - reflexivity. }
  rewrite Hget. now rewrite !string_append_assoc.
Qed.

Lemma ask_confirm_first_answer_witness :
  UtilMore.ask_confirm "Go on?" false
    {| UtilMore.stdin := ["maybe"; " y"; "YES"; "n"]%string;
       UtilMore.stderr := EmptyString |}
  = (Ok true,
     {| UtilMore.stdin := ["n"%string];
        UtilMore.stderr :=
          (EmptyString
           ++ repeat_string 2
                (UtilMore.prompt_line "Go on?" false
                 ++ UtilMore.retry_line false)
           ++ UtilMore.prompt_line "Go on?" false)%string |}).
Proof.
  apply (ask_confirm_first_answer_decides "Go on?" false
           ["maybe"; " y"]%string "YES" ["n"%string] EmptyString true).
  - repeat constructor; unfold unanswered; cbn; intuition discriminate.
  - left. cbn. auto.
Defined.

(** X20: when no line of the input is an answer, [ask_confirm] reads them
    all, prompts once more and fails with [EOFError]; it returns no
    default of its own. *)
Theorem ask_confirm_needs_an_answer
    (prompt : string) (default : bool) (lines : list string)
    (printed : string) :
  Forall unanswered lines ->
  UtilMore.ask_confirm prompt default
    {| UtilMore.stdin := lines; UtilMore.stderr := printed |}
  = (Raise (OtherExc "EOFError"),
     {| UtilMore.stdin := [];
        UtilMore.stderr :=
          (printed
           ++ repeat_string (List.length lines)
                (UtilMore.prompt_line prompt default
                 ++ UtilMore.retry_line default)
           ++ UtilMore.prompt_line prompt default)%string |}).
Proof.
  intros Hbad. unfold UtilMore.ask_confirm.
  cbn [UtilMore.stdin UtilMore.stderr].
  rewrite <- (app_nil_r lines) at 1.
  rewrite (ask_confirm_loop_retries prompt default lines [] printed Hbad).
  cbn [UtilMore.ask_confirm_loop]. now rewrite !string_append_assoc.
Qed.

Lemma ask_confirm_needs_an_answer_witness :
  UtilMore.ask_confirm "Go on?" true
    {| UtilMore.stdin := ["yes please"; "y "]%string;
       UtilMore.stderr := EmptyString |}
  = (Raise (OtherExc "EOFError"),
     {| UtilMore.stdin := [];
        UtilMore.stderr :=
          (EmptyString
           ++ repeat_string 2
                (UtilMore.prompt_line "Go on?" true
                 ++ UtilMore.retry_line true)
           ++ UtilMore.prompt_line "Go on?" true)%string |}).
Proof.
  apply (ask_confirm_needs_an_answer "Go on?" true
           ["yes please"; "y "]%string EmptyString).
  repeat constructor; unfold unanswered; cbn; intuition discriminate.
Defined.

(** ** hql_from_filters *)

Section HqlFacts.
Variable timestamp : string -> result string.

Lemma sub_from_inside_unclosed (s : string) :
  forall acc : string,
    lacks "}" s = true ->
    UtilMore.sub_from timestamp s (UtilMore.Inside acc)
    = Ok (String "{" (acc ++ s)).
Proof.
  induction s as [| c t IH]; intros acc H; cbn [UtilMore.sub_from].
  - now rewrite string_append_nil_r.
  - cbn [lacks] in H. apply andb_true_iff in H. destruct H as [Hc Ht].
    apply negb_true_iff in Hc. rewrite Hc. rewrite (IH _ Ht).
    now rewrite string_append_assoc.
Qed.

Lemma sub_from_unclosed (s : string) :
  lacks "}" s = true ->
  UtilMore.sub_from timestamp s UtilMore.Outside = Ok s.
Proof.
  induction s as [| c t IH]; intros H; cbn [UtilMore.sub_from];
    [reflexivity |].
  cbn [lacks] in H. apply andb_true_iff in H. destruct H as [_ Ht].
  destruct (Ascii.eqb_spec c "{"%char) as [-> | _].
  - now rewrite (sub_from_inside_unclosed t EmptyString Ht).
  - now rewrite (IH Ht).
Qed.

Lemma sub_from_unopened (s : string) :
  lacks "{" s = true ->
  UtilMore.sub_from timestamp s UtilMore.Outside = Ok s.
Proof.
  induction s as [| c t IH]; intros H; cbn [UtilMore.sub_from];
    [reflexivity |].
  cbn [lacks] in H. apply andb_true_iff in H. destruct H as [Hc Ht].
  apply negb_true_iff in Hc. rewrite Hc. now rewrite (IH Ht).
Qed.

Lemma sub_from_inside_closed (text : string) :
  forall (acc post : string),
    lacks "}" text = true ->
    UtilMore.sub_from timestamp (text ++ String "}" post)
      (UtilMore.Inside acc)
    = (stamp <- timestamp (acc ++ text) ;;
       r <- UtilMore.sub_from timestamp post UtilMore.Outside ;;
       Ok (stamp ++ r)%string)%py.
Proof.
  induction text as [| c t IH]; intros acc post H;
    cbn [String.append UtilMore.sub_from].
  - change (Ascii.eqb "}" "}") with true. cbv iota.
    now rewrite string_append_nil_r.
  - cbn [lacks] in H. apply andb_true_iff in H. destruct H as [Hc Ht].
    apply negb_true_iff in Hc. rewrite Hc. rewrite (IH _ post Ht).
    now rewrite string_append_assoc.
Qed.

Lemma sub_from_placeholder (pre text post : string) :
  lacks "{" pre = true -> lacks "}" text = true ->
  UtilMore.sub_from timestamp (pre ++ String "{" (text ++ String "}" post))
    UtilMore.Outside
  = (stamp <- timestamp text ;;
     r <- UtilMore.sub_from timestamp post UtilMore.Outside ;;
     Ok (pre ++ stamp ++ r)%string)%py.
Proof.
  intros Hpre Htext.
  induction pre as [| c t IH]; cbn [String.append UtilMore.sub_from].
  - change (Ascii.eqb "{" "{") with true. cbv iota.
    rewrite (sub_from_inside_closed text EmptyString post Htext).
    reflexivity.
  - cbn [lacks] in Hpre. apply andb_true_iff in Hpre.
    destruct Hpre as [Hc Ht]. apply negb_true_iff in Hc. rewrite Hc.
    rewrite (IH Ht).
    destruct (timestamp text) as [stamp |]; cbn [bind]; [| reflexivity].
    destruct (UtilMore.sub_from timestamp post UtilMore.Outside);
      reflexivity.
Qed.

Lemma conditions_unchanged (filters : list string) :
  Forall (fun s => lacks "{" s = true \/ lacks "}" s = true) filters ->
  UtilMore.conditions timestamp filters = Ok filters.
Proof.
  induction 1 as [| s rest Hs _ IH]; cbn [UtilMore.conditions];
    [reflexivity |].
  assert (E : UtilMore.sub_from timestamp s UtilMore.Outside = Ok s)
    by (destruct Hs; [now apply sub_from_unopened
                     | now apply sub_from_unclosed]).
  rewrite E, IH. reflexivity.
Qed.

Lemma conditions_app (fs gs : list string) :
  UtilMore.conditions timestamp (fs ++ gs)
  = (cs <- UtilMore.conditions timestamp fs ;;
     ds <- UtilMore.conditions timestamp gs ;;
     Ok (cs ++ ds))%py.
Proof.
  induction fs as [| s fs IH]; cbn [app UtilMore.conditions].
  - cbn [bind]. destruct (UtilMore.conditions timestamp gs); reflexivity.
  - destruct (UtilMore.sub_from timestamp s UtilMore.Outside);
      cbn [bind]; [| reflexivity].
    rewrite IH.
    destruct (UtilMore.conditions timestamp fs); cbn [bind];
      [| reflexivity].
    destruct (UtilMore.conditions timestamp gs); reflexivity.
Qed.

End HqlFacts.

(** X21: filters in which no opening brace is followed by a closing one
    (here: no opening brace at all, or no closing brace at all) are glued
    together with single spaces and otherwise unchanged; no date is
    parsed. *)
Theorem hql_without_placeholders_joins_the_filters
    (timestamp : string -> result string) (filters : list string) :
  Forall (fun s => lacks "{" s = true \/ lacks "}" s = true) filters ->
  UtilMore.hql_from_filters timestamp filters
  = Ok (String.concat " " filters).
Proof.
  intros H. unfold UtilMore.hql_from_filters.
  now rewrite (conditions_unchanged timestamp filters H).
Qed.

Lemma hql_without_placeholders_witness :
  UtilMore.hql_from_filters (fun _ => Raise ValueError)
    ["action=DELIVER"; "subject~{open"; "to~close}"]%string
  = Ok "action=DELIVER subject~{open to~close}"%string.
Proof.
  apply (hql_without_placeholders_joins_the_filters
           (fun _ => Raise ValueError)
           ["action=DELIVER"; "subject~{open"; "to~close}"]%string).
  apply Forall_cons; [left; reflexivity |].
  apply Forall_cons; [right; reflexivity |].
  apply Forall_cons; [left; reflexivity |].
  apply Forall_nil.
Defined.

(** X22: the first placeholder of a filter runs from its first opening
    brace to the next closing brace; it is replaced by the timestamp of
    the text between them, the text before it is kept and the text after
    it is treated in the same way.  When the date cannot be parsed the
    exception leaves [hql_from_filters]. *)
Theorem hql_replaces_the_first_placeholder
    (timestamp : string -> result string) (pre text post : string) :
  lacks "{" pre = true -> lacks "}" text = true ->
  UtilMore.hql_from_filters timestamp
    [(pre ++ "{" ++ text ++ "}" ++ post)%string]
  = (stamp <- timestamp text ;;
     r <- UtilMore.hql_from_filters timestamp [post] ;;
     Ok (pre ++ stamp ++ r)%string)%py.
Proof.
  intros Hpre Htext.
  unfold UtilMore.hql_from_filters. cbn [UtilMore.conditions String.append].
  rewrite (sub_from_placeholder timestamp pre text post Hpre Htext).
  destruct (timestamp text) as [stamp |]; cbn [bind]; [| reflexivity].
  destruct (UtilMore.sub_from timestamp post UtilMore.Outside);
    cbn [bind String.concat]; reflexivity.
Qed.

Lemma hql_replaces_the_first_placeholder_witness :
  UtilMore.hql_from_filters example_timestamp
    ["time>{2015-01-01} time<{soon}"%string]
  = (stamp <- example_timestamp "2015-01-01" ;;
     r <- UtilMore.hql_from_filters example_timestamp
            [" time<{soon}"%string] ;;
     Ok ("time>" ++ stamp ++ r)%string)%py.
Proof.
  apply (hql_replaces_the_first_placeholder example_timestamp
           "time>" "2015-01-01" " time<{soon}");
    reflexivity.
Defined.

(** X23: the filters are treated from left to right and nothing is
    returned once a date fails: when the filters before one are free of
    placeholders and the date of its first placeholder cannot be parsed,
    the call raises that exception, whatever follows. *)
Theorem hql_raises_at_the_first_bad_date
    (timestamp : string -> result string) (before after : list string)
    (pre text post : string) (e : exn) :
  Forall (fun s => lacks "{" s = true \/ lacks "}" s = true) before ->
  lacks "{" pre = true -> lacks "}" text = true ->
  timestamp text = Raise e ->
  UtilMore.hql_from_filters timestamp
    (before ++ (pre ++ "{" ++ text ++ "}" ++ post)%string :: after)
  = Raise e.
Proof.
  intros Hbefore Hpre Htext He.
  unfold UtilMore.hql_from_filters.
  rewrite (conditions_app timestamp before _).
  rewrite (conditions_unchanged timestamp before Hbefore). cbn [bind].
  cbn [UtilMore.conditions String.append].
  rewrite (sub_from_placeholder timestamp pre text post Hpre Htext).
  rewrite He. reflexivity.
Qed.

Lemma hql_raises_at_the_first_bad_date_witness :
  UtilMore.hql_from_filters example_timestamp
    (["action=DELIVER"%string]
     ++ ("time>" ++ "{" ++ "soon" ++ "}" ++ " time<{2015-01-01}")%string
     :: ["to~x"%string])
  = Raise ValueError.
Proof.
  apply (hql_raises_at_the_first_bad_date example_timestamp
           ["action=DELIVER"%string] ["to~x"%string]
           "time>" "soon" " time<{2015-01-01}" ValueError).
  - apply Forall_cons; [left; reflexivity | apply Forall_nil].
  - reflexivity.
  - reflexivity.
  - reflexivity.
Defined.

(** ** apply_filter under Python 3, and the choice of targets in main *)

(** X24: under Python 3 a slice cannot be combined with the selection of
    all nodes: when neither nodes nor groups are named and the slice is not
    empty, [apply_filter] never returns; it raises [TypeError] as soon as
    the slice can be read, because the values of a dictionary cannot be
    subscripted. *)
Theorem apply_filter_python3_cannot_slice_all_nodes
    (available_nodes : dict string Node)
    (available_clusters : dict string (list Node)) (slice_ : string) :
  slice_ <> EmptyString ->
  exists e,
    Main.apply_filter Util.Python3 available_nodes available_clusters [] []
      slice_ = Raise e
    /\ (forall parts,
          Main.parse_parts 0 (Main.split_colon slice_) = Ok parts ->
          e = TypeError).
Proof.
  intros Hs. unfold Main.apply_filter.
  cbn [List.length Nat.eqb andb Main.apply_slice_values].
  destruct slice_ as [| c s]; [congruence |].
  destruct (Main.parse_parts 0 (Main.split_colon (String c s)))
    as [parts |] eqn:E; cbn [bind].
  - exists TypeError. split; [reflexivity | auto].
  - exists e. split; [reflexivity | discriminate].
Qed.

Lemma apply_filter_python3_witness :
  exists e,
    Main.apply_filter Util.Python3 example_nodes example_clusters [] []
      "1:2" = Raise e
    /\ (forall parts,
          Main.parse_parts 0 (Main.split_colon "1:2") = Ok parts ->
          e = TypeError).
Proof.
  apply (apply_filter_python3_cannot_slice_all_nodes example_nodes
           example_clusters "1:2").
  discriminate.
Defined.

Lemma parse_parts_error (ps : list string) :
  forall (i : nat) (e : exn),
    Main.parse_parts i ps = Raise e -> slice_error e.
Proof.
  unfold slice_error.
  induction ps as [| p ps IH]; intros i e H; cbn [Main.parse_parts] in H;
    [discriminate |].
  destruct p as [| c p].
  - cbn [bind] in H.
    destruct (Main.parse_parts (S i) ps) eqn:E; [discriminate |].
    cbn [bind] in H. inversion H; subst. eapply IH; eauto.
  - destruct (PySignal.int_of_str (String c p)).
    + destruct (nth_error Main.offsets i).
      * cbn [bind] in H.
        destruct (Main.parse_parts (S i) ps) eqn:E; [discriminate |].
        cbn [bind] in H. inversion H; subst. eapply IH; eauto.
      * cbn [bind] in H. inversion H; auto.
    + cbn [bind] in H. inversion H; auto.
Qed.

Lemma getitem_error (A : Type) (l : list A) (n : Z) (e : exn) :
  PyList.getitem l n = Raise e -> slice_error e.
Proof.
  unfold PyList.getitem, slice_error. cbv zeta.
  destruct (_ || _)%bool; [intros H; inversion H; auto |].
  destruct (nth_error _ _); [discriminate | intros H; inversion H; auto].
Qed.

Lemma getslice_error (A : Type) (l : list A) (start stop step : option Z)
    (e : exn) :
  PyList.getslice l start stop step = Raise e -> slice_error e.
Proof.
  unfold PyList.getslice, PyList.slice_indices, slice_error. cbv zeta.
  destruct (_ =? 0)%Z; cbn [bind]; [| discriminate].
  intros H; inversion H; auto.
Qed.

Lemma apply_slice_error (A : Type) (l : list A) (s : string) (e : exn) :
  Main.apply_slice l s = Raise e -> slice_error e.
Proof.
  unfold Main.apply_slice. destruct s as [| c s]; [discriminate |].
  destruct (Main.parse_parts _ _) as [parts |] eqn:E; cbn [bind].
  - assert (HT : Raise (A := list A) TypeError = Raise e -> slice_error e)
      by (intros H; inversion H; unfold slice_error; auto).
    destruct parts as [| p0 [| p1 [| p2 [| p3 rest]]]]; try exact HT.
    + destruct p0 as [n |]; [| exact HT].
      destruct (PyList.getitem l n) eqn:G; cbn [bind]; [discriminate |].
      intros H; inversion H; subst. eapply getitem_error; eauto.
    + destruct p0; apply getslice_error.
    + destruct p0; apply getslice_error.
    + destruct p0; exact HT.
  - intros H; inversion H; subst. eapply parse_parts_error; eauto.
Qed.

Lemma apply_slice_values_error (ver : Util.pyver) (l : list Node)
    (s : string) (e : exn) :
  Main.apply_slice_values ver l s = Raise e -> slice_error e.
Proof.
  destruct ver; cbn [Main.apply_slice_values].
  - apply apply_slice_error.
  - destruct s as [| c s]; [discriminate |].
    destruct (Main.parse_parts _ _) eqn:E; cbn [bind];
      intros H; inversion H; subst.
    + unfold slice_error; auto.
    + eapply parse_parts_error; eauto.
Qed.

Lemma cluster_targets_error (available_clusters : dict string (list Node))
    (slice_ : string) (clusters : list string) :
  all_known available_clusters clusters = true ->
  forall (targets : list Node) (e : exn),
    Main.cluster_targets available_clusters slice_ clusters targets = Raise e ->
    slice_error e.
Proof.
  unfold all_known.
  induction clusters as [| cid clusters IH]; intros Hk targets e H;
    cbn [Main.cluster_targets] in H; [discriminate |].
  cbn [forallb] in Hk. apply andb_true_iff in Hk. destruct Hk as [Hc Hk].
  unfold MainProgram.contains in Hc. unfold Main.lookup in H.
  destruct (dict_get String.eqb cid available_clusters) as [ms |];
    [| discriminate].
  cbn [bind] in H.
  destruct (Main.apply_slice ms slice_) as [chosen |] eqn:Es; cbn [bind] in H.
  - eapply IH; eauto.
  - inversion H; subst. eapply apply_slice_error; eauto.
Qed.

Lemma cluster_targets_no_slice (available_clusters : dict string (list Node))
    (clusters : list string) :
  all_known available_clusters clusters = true ->
  forall targets : list Node,
  exists r,
    Main.cluster_targets available_clusters EmptyString clusters targets
    = Ok r.
Proof.
  unfold all_known.
  induction clusters as [| cid clusters IH]; intros Hk targets;
    cbn [Main.cluster_targets]; [eauto |].
  cbn [forallb] in Hk. apply andb_true_iff in Hk. destruct Hk as [Hc Hk].
  unfold MainProgram.contains in Hc. unfold Main.lookup.
  destruct (dict_get String.eqb cid available_clusters) as [ms |];
    [| discriminate].
  cbn [bind Main.apply_slice]. apply (IH Hk).
Qed.

Lemma named_nodes_found (available_nodes : dict string Node)
    (nodes : list string) :
  all_known available_nodes nodes = true ->
  exists ns, Main.named_nodes available_nodes nodes = Ok ns.
Proof.
  unfold all_known.
  induction nodes as [| nid nodes IH]; intros Hk; cbn [Main.named_nodes];
    [eauto |].
  cbn [forallb] in Hk. apply andb_true_iff in Hk. destruct Hk as [Hc Hk].
  unfold MainProgram.contains in Hc. unfold Main.lookup.
  destruct (dict_get String.eqb nid available_nodes) as [n |];
    [| discriminate].
  cbn [bind]. destruct (IH Hk) as [ns ->]. cbn [bind]. eauto.
Qed.

Lemma apply_filter_error (ver : Util.pyver)
    (available_nodes : dict string Node)
    (available_clusters : dict string (list Node))
    (nodes clusters : list string) (slice_ : string) (e : exn) :
  all_known available_clusters clusters = true ->
  all_known available_nodes nodes = true ->
  Main.apply_filter ver available_nodes available_clusters nodes clusters
    slice_ = Raise e ->
  slice_error e.
Proof.
  intros Hc Hn H. unfold Main.apply_filter in H.
  destruct (named_nodes_found available_nodes nodes Hn) as [ns Hns].
  rewrite Hns in H.
  match type of H with
  | bind ?first _ = _ => destruct first as [targets |] eqn:E1
  end; cbn [bind] in H.
  - destruct (0 <? List.length nodes); discriminate.
  - inversion H; subst.
    destruct ((List.length nodes =? 0) && (List.length clusters =? 0)).
    + eapply apply_slice_values_error; eauto.
    + destruct (0 <? List.length clusters); [| discriminate].
      eapply cluster_targets_error; eauto.
Qed.

Lemma apply_filter_no_slice (ver : Util.pyver)
    (available_nodes : dict string Node)
    (available_clusters : dict string (list Node))
    (nodes clusters : list string) :
  all_known available_clusters clusters = true ->
  all_known available_nodes nodes = true ->
  exists r,
    Main.apply_filter ver available_nodes available_clusters nodes clusters
      EmptyString = Ok r.
Proof.
  intros Hc Hn. unfold Main.apply_filter.
  destruct (named_nodes_found available_nodes nodes Hn) as [ns ->].
  destruct (cluster_targets_no_slice available_clusters clusters Hc [])
    as [cs ->].
  replace (Main.apply_slice_values ver (map snd available_nodes) EmptyString)
    with (Ok (map snd available_nodes)) by (now destruct ver).
  destruct ((List.length nodes =? 0) && (List.length clusters =? 0));
    destruct (0 <? List.length clusters); destruct (0 <? List.length nodes);
    cbn [bind]; eauto.
Qed.

Lemma filter_unknown_nil (V : Type) (d : dict string V) (ids : list string) :
  all_known d ids = true ->
  filter (fun id => negb (MainProgram.contains d id)) ids = [].
Proof.
  unfold all_known. induction ids as [| id ids IH]; cbn [forallb filter];
    [reflexivity |].
  intros H. apply andb_true_iff in H. destruct H as [-> H].
  cbn [negb]. auto.
Qed.

Lemma filter_unknown_cons (V : Type) (d : dict string V) (ids : list string) :
  all_known d ids = false ->
  exists id rest,
    filter (fun id => negb (MainProgram.contains d id)) ids = id :: rest.
Proof.
  unfold all_known. induction ids as [| id ids IH]; cbn [forallb filter];
    [discriminate |].
  destruct (MainProgram.contains d id); cbn [negb andb]; eauto.
Qed.

(** X25: the validation in [main] makes the lookups of [apply_filter]
    safe.  When every named group and node is configured, nothing is
    printed and the choice of targets ends in one of two ways: it returns a
    list in natural order, or the slice makes it fail with [ValueError],
    [TypeError] or [IndexError]; a [KeyError] cannot occur.  Without a
    slice it returns. *)
Theorem validated_names_are_found
    (ver : Util.pyver) (available_nodes : dict string Node)
    (available_clusters : dict string (list Node))
    (a : MainProgram.args) (out : list string) :
  all_known available_clusters (MainProgram.clusters a) = true ->
  all_known available_nodes (MainProgram.nodes a) = true ->
  ((exists r,
      MainProgram.target_nodes ver available_nodes available_clusters a out
      = (MainProgram.Returns r, out)
      /\ Sorted (key_le target_key) r)
   \/ (exists e,
         MainProgram.target_nodes ver available_nodes available_clusters a out
         = (MainProgram.Uncaught e, out)
         /\ slice_error e /\ MainProgram.slice a <> EmptyString)).
Proof.
  intros Hc Hn. unfold MainProgram.target_nodes. cbv zeta.
  rewrite (filter_unknown_nil _ available_clusters _ Hc).
  rewrite (filter_unknown_nil _ available_nodes _ Hn).
  destruct (Main.apply_filter ver available_nodes available_clusters
              (MainProgram.nodes a) (MainProgram.clusters a)
              (MainProgram.slice a)) as [r | e] eqn:E.
  - left. exists r. split; [reflexivity |].
    unfold Main.apply_filter in E.
    match type of E with
    | bind ?first _ = _ => destruct first; [| discriminate]
    end.
    cbn [bind] in E.
    match type of E with
    | bind ?second _ = _ => destruct second; [| discriminate]
    end.
    cbn [bind] in E. inversion E; subst.
    apply (sort_sorted Node target_key).
  - right. exists e. split; [reflexivity |]. split.
    + eapply apply_filter_error; eauto.
    + intros Hs. rewrite Hs in E.
      destruct (apply_filter_no_slice ver available_nodes available_clusters
                  (MainProgram.nodes a) (MainProgram.clusters a) Hc Hn)
        as [r Hr].
      congruence.
Qed.

Lemma validated_names_witness :
  (exists r,
      MainProgram.target_nodes Util.Python2 example_nodes example_clusters
        {| MainProgram.nodes := ["node2"%string];
           MainProgram.clusters := ["mx"%string];
           MainProgram.slice := "1"%string |} []
      = (MainProgram.Returns r, [])
      /\ Sorted (key_le target_key) r)
   \/ (exists e,
         MainProgram.target_nodes Util.Python2 example_nodes example_clusters
           {| MainProgram.nodes := ["node2"%string];
              MainProgram.clusters := ["mx"%string];
              MainProgram.slice := "1"%string |} []
         = (MainProgram.Uncaught e, [])
         /\ slice_error e
         /\ MainProgram.slice
              {| MainProgram.nodes := ["node2"%string];
                 MainProgram.clusters := ["mx"%string];
                 MainProgram.slice := "1"%string |} <> EmptyString).
Proof.
  apply (validated_names_are_found Util.Python2 example_nodes
           example_clusters
           {| MainProgram.nodes := ["node2"%string];
              MainProgram.clusters := ["mx"%string];
              MainProgram.slice := "1"%string |} []);
    reflexivity.
Defined.

(** X26: when a named group is not configured, or all named groups are and
    a named node is not, [apply_filter] is not reached.  Under Python 2
    the run prints two lines and exits with status 1; under Python 3 it
    prints the first line and then fails with [AttributeError], because a
    dictionary has no [iterkeys] there. *)
Theorem unknown_names_end_the_run
    (ver : Util.pyver) (available_nodes : dict string Node)
    (available_clusters : dict string (list Node))
    (a : MainProgram.args) (out : list string) :
  all_known available_clusters (MainProgram.clusters a)
  && all_known available_nodes (MainProgram.nodes a) = false ->
  exists unknown available : string,
    MainProgram.target_nodes ver available_nodes available_clusters a out
    = match ver with
      | Util.Python2 =>
          (MainProgram.SysExit 1, out ++ [unknown] ++ [available])
      | Util.Python3 =>
          (MainProgram.Uncaught (AttributeError "iterkeys"),
           out ++ [unknown])
      end.
Proof.
  intros H. unfold MainProgram.target_nodes. cbv zeta.
  destruct (all_known available_clusters (MainProgram.clusters a)) eqn:Hc.
  - cbn [andb] in H.
    rewrite (filter_unknown_nil _ available_clusters _ Hc).
    destruct (filter_unknown_cons _ available_nodes _ H) as (id & rest & ->).
    do 2 eexists. destruct ver; [rewrite <- app_assoc |]; reflexivity.
  - destruct (filter_unknown_cons _ available_clusters _ Hc)
      as (id & rest & ->).
    do 2 eexists. destruct ver; [rewrite <- app_assoc |]; reflexivity.
Qed.

Lemma unknown_names_witness :
  exists unknown available : string,
    MainProgram.target_nodes Util.Python3 example_nodes example_clusters
      {| MainProgram.nodes := ["node2"%string];
         MainProgram.clusters := ["mx3"%string];
         MainProgram.slice := EmptyString |} []
    = (MainProgram.Uncaught (AttributeError "iterkeys"),
       [] ++ [unknown]).
Proof.
  apply (unknown_names_end_the_run Util.Python3 example_nodes
           example_clusters
           {| MainProgram.nodes := ["node2"%string];
              MainProgram.clusters := ["mx3"%string];
              MainProgram.slice := EmptyString |} []).
  reflexivity.
Defined.

(** ** download_wsdl *)

Section DownloadFacts.
Variable get : Node -> Wsdl.fetch.
Variable now : Z.

Lemma try_nodes_passes_over (skipped : list Node) :
  forall (rest : list Node) (w : Wsdl.world),
    Forall (fun n => soft_failure (get n) = true) skipped ->
    Wsdl.try_nodes get now (skipped ++ rest) w
    = Wsdl.try_nodes get now rest
        {| Wsdl.cache := cache_after get now skipped (Wsdl.cache w);
           Wsdl.stderr := Wsdl.stderr w;
           Wsdl.asked := Wsdl.asked w ++ skipped |}.
Proof.
  induction skipped as [| n skipped IH]; intros rest w H.
  - cbn [app cache_after]. rewrite app_nil_r. now destruct w.
  - inversion H as [| ? ? Hn Hs]; subst.
    cbn [app Wsdl.try_nodes cache_after].
    unfold soft_failure in Hn. unfold written.
    destruct (get n) as [r | status_code chunks broken].
    + apply negb_true_iff in Hn. rewrite Hn.
      rewrite (IH rest _ Hs). cbn [Wsdl.cache Wsdl.stderr Wsdl.asked].
      now rewrite <- app_assoc.
    + destruct (status_code =? 200)%Z.
      * destruct broken as [r |]; [| discriminate].
        apply negb_true_iff in Hn. rewrite Hn.
        rewrite (IH rest _ Hs). cbn [Wsdl.cache Wsdl.stderr Wsdl.asked].
        now rewrite <- app_assoc.
      * rewrite (IH rest _ Hs). cbn [Wsdl.cache Wsdl.stderr Wsdl.asked].
        now rewrite <- app_assoc.
Qed.

Lemma stale_download (nodes : list Node) (w : Wsdl.world) :
  stale now (Wsdl.cache w) ->
  Wsdl.download_wsdl get now nodes w = Wsdl.try_nodes get now nodes w.
Proof.
  unfold stale, Wsdl.download_wsdl. cbv zeta.
  destruct (Wsdl.cache w) as [[mtime content] |]; [| reflexivity].
  intros H. change (12 * 3600)%Z with 43200%Z.
  destruct (Z.ltb_spec mtime (now - 43200)); [reflexivity | lia].
Qed.

End DownloadFacts.

(** X27: when the cached file is missing or older than twelve hours, the
    WSDL comes from the first node that answers with status 200 and whose
    body arrives whole: the nodes before it that fail in another way than
    an SSL error, or answer with another status, are passed over silently,
    the nodes after it are not asked, and the file holds its chunks in the
    order of arrival. *)
Theorem download_wsdl_takes_the_first_good_answer
    (get : Node -> Wsdl.fetch) (now : Z) (skipped : list Node) (good : Node)
    (rest : list Node) (chunks : list bytes) (w : Wsdl.world) :
  stale now (Wsdl.cache w) ->
  Forall (fun n => soft_failure (get n) = true) skipped ->
  get good = Wsdl.Response 200 chunks None ->
  Wsdl.download_wsdl get now (skipped ++ good :: rest) w
  = (Wsdl.Returns,
     {| Wsdl.cache := Some (now, List.concat chunks);
        Wsdl.stderr := Wsdl.stderr w;
        Wsdl.asked := Wsdl.asked w ++ skipped ++ [good] |}).
Proof.
  intros Hstale Hsoft Hgood.
  rewrite (stale_download get now _ w Hstale).
  rewrite (try_nodes_passes_over get now skipped (good :: rest) w Hsoft).
  cbn [Wsdl.try_nodes]. rewrite Hgood.
  change (200 =? 200)%Z with true.
  cbn [Wsdl.cache Wsdl.stderr Wsdl.asked]. now rewrite <- app_assoc.
Qed.

Lemma download_wsdl_first_good_witness :
  Wsdl.download_wsdl example_get 0 ([node1; node2] ++ node10 :: [node20])
    empty_world
  = (Wsdl.Returns,
     {| Wsdl.cache := Some (0%Z, List.concat [[60; 119]; [115; 62]]%N);
        Wsdl.stderr := Wsdl.stderr empty_world;
        Wsdl.asked := Wsdl.asked empty_world ++ [node1; node2] ++ [node10] |}).
Proof.
  apply (download_wsdl_takes_the_first_good_answer example_get 0
           [node1; node2] node10 [node20] [[60; 119]; [115; 62]]%N
           empty_world).
  - exact I.
  - apply Forall_cons; [reflexivity |].
    apply Forall_cons; [reflexivity | apply Forall_nil].
  - reflexivity.
Defined.

(** X28: an SSL error ends the run at once.  When the first node that is
    not passed over fails with [SSLError], in the request or while its
    body arrives, the hint of [print_ssl_error] for that node is printed
    and the program exits with status 1, although a later node might have
    answered. *)
Theorem download_wsdl_stops_at_an_ssl_error
    (get : Node -> Wsdl.fetch) (now : Z) (skipped : list Node) (bad : Node)
    (rest : list Node) (w : Wsdl.world) :
  stale now (Wsdl.cache w) ->
  Forall (fun n => soft_failure (get n) = true) skipped ->
  ssl_failure (get bad) = true ->
  Wsdl.download_wsdl get now (skipped ++ bad :: rest) w
  = (Wsdl.SysExit 1,
     {| Wsdl.cache := cache_after get now (skipped ++ [bad]) (Wsdl.cache w);
        Wsdl.stderr := Wsdl.stderr w ++ Wsdl.print_ssl_error bad;
        Wsdl.asked := Wsdl.asked w ++ skipped ++ [bad] |}).
Proof.
  intros Hstale Hsoft Hbad.
  rewrite (stale_download get now _ w Hstale).
  rewrite (try_nodes_passes_over get now skipped (bad :: rest) w Hsoft).
  assert (Hcache : forall c,
             cache_after get now (skipped ++ [bad]) c
             = written now (get bad) (cache_after get now skipped c)).
  { induction skipped as [| n l IH]; intros c; [reflexivity |].
    inversion Hsoft; subst. cbn [app cache_after]. now apply IH. }
  rewrite Hcache. cbn [Wsdl.try_nodes]. unfold ssl_failure in Hbad.
  unfold written.
  destruct (get bad) as [r | status_code chunks broken].
  - rewrite Hbad. cbn [Wsdl.cache Wsdl.stderr Wsdl.asked].
    now rewrite <- app_assoc.
  - apply andb_true_iff in Hbad. destruct Hbad as [-> Hbad].
    destruct broken as [r |]; [| discriminate].
    rewrite Hbad. cbn [Wsdl.cache Wsdl.stderr Wsdl.asked].
    now rewrite <- app_assoc.
Qed.

Lemma download_wsdl_ssl_error_witness :
  Wsdl.download_wsdl example_get 0 ([node1] ++ node20 :: [node10])
    empty_world
  = (Wsdl.SysExit 1,
     {| Wsdl.cache :=
          cache_after example_get 0 ([node1] ++ [node20])
            (Wsdl.cache empty_world);
        Wsdl.stderr := Wsdl.stderr empty_world ++ Wsdl.print_ssl_error node20;
        Wsdl.asked := Wsdl.asked empty_world ++ [node1] ++ [node20] |}).
Proof.
  apply (download_wsdl_stops_at_an_ssl_error example_get 0 [node1] node20
           [node10] empty_world).
  - exact I.
  - apply Forall_cons; [reflexivity | apply Forall_nil].
  - reflexivity.
Defined.

(** The hint has ten lines for every node: the first names the node and
    the last is empty. *)
Example print_ssl_error_has_ten_lines (node : Node) :
  List.length (Wsdl.print_ssl_error node) = 10
  /\ nth_error (Wsdl.print_ssl_error node) 0
     = Some ("ERROR: Couldn't contact '" ++ name node
             ++ "': SSL verification failed!")%string
  /\ nth_error (Wsdl.print_ssl_error node) 9 = Some EmptyString.
Proof. repeat split. Qed.

(** X29: when every node is passed over, all of them have been asked,
    nothing is printed by the loop and the program exits with the message
    that no node is available. *)
Theorem download_wsdl_gives_up_when_no_node_answers
    (get : Node -> Wsdl.fetch) (now : Z) (nodes : list Node)
    (w : Wsdl.world) :
  stale now (Wsdl.cache w) ->
  Forall (fun n => soft_failure (get n) = true) nodes ->
  Wsdl.download_wsdl get now nodes w
  = (Wsdl.SysExitMessage
       "None of your nodes are available, can't download WSDL",
     {| Wsdl.cache := cache_after get now nodes (Wsdl.cache w);
        Wsdl.stderr := Wsdl.stderr w;
        Wsdl.asked := Wsdl.asked w ++ nodes |}).
Proof.
  intros Hstale Hsoft.
  rewrite (stale_download get now _ w Hstale).
  replace (Wsdl.try_nodes get now nodes w)
    with (Wsdl.try_nodes get now (nodes ++ []) w)
    by (now rewrite app_nil_r).
  rewrite (try_nodes_passes_over get now nodes [] w Hsoft).
  reflexivity.
Qed.

Lemma download_wsdl_gives_up_witness :
  Wsdl.download_wsdl example_get 0 [node1; node2] empty_world
  = (Wsdl.SysExitMessage
       "None of your nodes are available, can't download WSDL",
     {| Wsdl.cache :=
          cache_after example_get 0 [node1; node2] (Wsdl.cache empty_world);
        Wsdl.stderr := Wsdl.stderr empty_world;
        Wsdl.asked := Wsdl.asked empty_world ++ [node1; node2] |}).
Proof.
  apply (download_wsdl_gives_up_when_no_node_answers example_get 0
           [node1; node2] empty_world).
  - exact I.
  - apply Forall_cons; [reflexivity |].
    apply Forall_cons; [reflexivity | apply Forall_nil].
Defined.

Lemma cache_after_written (get : Node -> Wsdl.fetch) (now : Z)
    (nodes : list Node) :
  forall c,
    (exists n chunks broken,
        In n nodes /\ get n = Wsdl.Response 200 chunks broken) ->
    exists content, cache_after get now nodes c = Some (now, content).
Proof.
  assert (Hkeep : forall l content,
             exists content',
               cache_after get now l (Some (now, content))
               = Some (now, content')).
  { induction l as [| n l IH]; intros content; cbn [cache_after]; [eauto |].
    unfold written. destruct (get n) as [r | code chunks broken]; [apply IH |].
    destruct (code =? 200)%Z; apply IH. }
  induction nodes as [| n nodes IH]; intros c (m & chunks & broken & Hin & Hm).
  - destruct Hin.
  - cbn [cache_after]. destruct Hin as [-> | Hin].
    + rewrite Hm. unfold written. change (200 =? 200)%Z with true.
      apply Hkeep.
    + apply IH. eauto.
Qed.

(** X30: a download that breaks leaves its file behind.  When every node
    is passed over and one of them had answered with status 200, the run
    exits with the message, and a later run within twelve hours finds the
    file recent and asks no node, whatever the nodes would answer then. *)
Theorem broken_download_is_taken_as_fresh
    (get get' : Node -> Wsdl.fetch) (now now' : Z) (nodes nodes' : list Node)
    (w : Wsdl.world) (n : Node) (chunks : list bytes)
    (broken : option Wsdl.raised) :
  stale now (Wsdl.cache w) ->
  Forall (fun n => soft_failure (get n) = true) nodes ->
  In n nodes -> get n = Wsdl.Response 200 chunks broken ->
  (now' <= now + 43200)%Z ->
  exists w1,
    Wsdl.download_wsdl get now nodes w
    = (Wsdl.SysExitMessage
         "None of your nodes are available, can't download WSDL", w1)
    /\ Wsdl.download_wsdl get' now' nodes' w1 = (Wsdl.Returns, w1).
Proof.
  intros Hstale Hsoft Hin Hn Hnow.
  rewrite (stale_download get now _ w Hstale).
  replace (Wsdl.try_nodes get now nodes w)
    with (Wsdl.try_nodes get now (nodes ++ []) w)
    by (now rewrite app_nil_r).
  rewrite (try_nodes_passes_over get now nodes [] w Hsoft).
  eexists. split; [reflexivity |].
  unfold Wsdl.download_wsdl. cbn [Wsdl.cache].
  destruct (cache_after_written get now nodes (Wsdl.cache w))
    as [content ->]; [eauto |].
  change (12 * 3600)%Z with 43200%Z.
  destruct (Z.ltb_spec now (now' - 43200)); [lia | reflexivity].
Qed.

Lemma broken_download_witness :
  exists w1,
    Wsdl.download_wsdl example_get 0 [node1; node2] empty_world
    = (Wsdl.SysExitMessage
         "None of your nodes are available, can't download WSDL", w1)
    /\ Wsdl.download_wsdl (fun _ => Wsdl.Response 200 [] None) 3600
         [node10] w1
       = (Wsdl.Returns, w1).
Proof.
  apply (broken_download_is_taken_as_fresh example_get
           (fun _ => Wsdl.Response 200 [] None) 0 3600 [node1; node2]
           [node10] empty_world node2 [[60; 119]; [115]]%N (Some Wsdl.Other)).
  - exact I.
  - apply Forall_cons; [reflexivity |].
    apply Forall_cons; [reflexivity | apply Forall_nil].
  - right; left; reflexivity.
  - reflexivity.
  - lia.
Defined.
